(** * PumpPanda trading agent: recall memory, signal generation and risk gate

    A shallow embedding of the TypeScript sources
    ([RecallMemory], [TradingStrategy], [RiskManager], [PortfolioManager],
    [PumpPandaAgent]) together with the properties stated about them.

    Conventions of the embedding.
    - A JavaScript [number] that carries a quantity (price, confidence,
      importance, ...) is a rational [Q]; it stands for the IEEE double
      nearest to it, [JS.fl].  Where the rounding of a double operation can
      decide an outcome (the size of a position, the importance band of the
      ranking, the drawdown, the similarity score) the operation is the
      double one: [JS.fadd], [JS.fsub], [JS.fmul], [JS.fdiv].  Elsewhere
      the arithmetic is exact.  The doubles of the model are the finite
      ones: there is no infinity and no NaN, and a statement about rounded
      arithmetic says so when it needs operands that cannot overflow.
      Integer counters (risk scores, access counts, millisecond
      timestamps) are [Z].
    - A [Date] is its [getTime()] value in milliseconds, a [Z].
    - A thrown [Error] is the [Err] case of [result]; mutations performed
      before the throw are kept, as in JavaScript.
    - Calls to the [Logger] are omitted: they only write to the console and
      to log files.  The time stamp that [Logger.risk] and [Logger.trade]
      take for their log line is not counted among the clock readings. *)

From Stdlib Require Import ZArith QArith Qabs Qround Qminmax Qpower.
From Stdlib Require Import List String Ascii Bool Lia Lqa Permutation Sorted.
From Stdlib Require Import DecimalString DecimalPos DecimalZ.
From Stdlib Require Floats.
Import ListNotations.

Set Implicit Arguments.

Local Open Scope Q_scope.
Local Open Scope string_scope.
Local Open Scope list_scope.

(* ===================================================================== *)
(** ** JavaScript primitives used by the sources *)
(* ===================================================================== *)

Module JS.

(** Outcome of a call that may throw. *)
Inductive result (A : Type) : Type :=
| Ok (a : A)
| Err (msg : string).
Arguments Ok {A} a.
Arguments Err {A} msg.

(** Comparisons on numbers, as booleans. *)
Definition leb (a b : Q) : bool := Qle_bool a b.
Definition ltb (a b : Q) : bool := negb (Qle_bool b a).
Definition geb (a b : Q) : bool := Qle_bool b a.
Definition gtb (a b : Q) : bool := negb (Qle_bool a b).
Definition eqb (a b : Q) : bool := Qeq_bool a b.

(** *** IEEE 754 double precision

    A finite double is [m * 2 ^ q] for integers [m] and [q] with
    [|m| <= 2 ^ 53] and [-1074 <= q].  [fl x] is the double nearest to
    [x], the one with the even [m] when two are equally near: the rounding
    that the language prescribes for a numeric literal and for the result
    of every arithmetic operation. *)

(** The largest [e] with [2 ^ e <= a], for a positive [a]. *)
Definition ilog2 (a : Q) : Z :=
  let c := (Z.log2 (Qnum a) - Z.log2 (Zpos (Qden a)))%Z in
  if Qle_bool (2 ^ c) a then c else (c - 1)%Z.

(** The nearest integer, the even one of two that are equally near. *)
Definition nearest_even (x : Q) : Z :=
  let f := Qfloor x in
  match Qcompare (x - inject_Z f) (1 # 2) with
  | Lt => f
  | Gt => (f + 1)%Z
  | Eq => if Z.even f then f else (f + 1)%Z
  end.

(** The exponent of the unit in the last place of the doubles around a
    positive [a]: 53 significant bits, and no unit below [2 ^ -1074]. *)
Definition quantum (a : Q) : Z := Z.max (ilog2 a - 52) (-1074).

Definition fl (x : Q) : Q :=
  if Qeq_bool x 0 then 0
  else
    let a := Qabs x in
    let q := quantum a in
    let r := Qred (inject_Z (nearest_even (a / 2 ^ q)) * 2 ^ q) in
    if Qle_bool 0 x then r else - r.

(** The operators [+], [-], [*] and [/] on doubles: the exact result of
    the operation on the two doubles, rounded. *)
Definition fadd (a b : Q) : Q := fl (fl a + fl b).
Definition fsub (a b : Q) : Q := fl (fl a - fl b).
Definition fmul (a b : Q) : Q := fl (fl a * fl b).
Definition fdiv (a b : Q) : Q := fl (fl a / fl b).

(** [Math.round]: the nearest integer, halves going up. *)
Definition Math_round (x : Q) : Z := Qfloor (x + (1 # 2)).

(** [Math.abs], [Math.max], [Math.min]. *)
Definition Math_abs (x : Q) : Q := Qabs x.
Definition Math_max (a b : Q) : Q := if leb a b then b else a.
Definition Math_min (a b : Q) : Q := if leb a b then a else b.

(** Truthiness of an optional number: [undefined] and [0] are falsy. *)
Definition truthy (v : option Q) : bool :=
  match v with
  | None => false
  | Some q => negb (eqb q 0)
  end.

(** [String.prototype.includes]. *)
Fixpoint includes (s sub : string) : bool :=
  if String.prefix sub s then true
  else match s with
       | EmptyString => false
       | String _ rest => includes rest sub
       end.

(** [Array.prototype.some] and [Array.prototype.includes] on strings. *)
Definition some {A} (f : A -> bool) (l : list A) : bool := existsb f l.
Definition mem (x : string) (l : list string) : bool :=
  existsb (String.eqb x) l.

(** [Array.prototype.sort] with a comparison function.  The language
    requires a stable sort: for a comparator that is consistent on the
    elements (a total preorder) the result is the one list that is in
    order and keeps equal elements as they were, whatever the algorithm.
    For a comparator that is not consistent the language leaves the order
    to the engine.  The model is the straight insertion sort: each element
    in turn moves left past the elements that compare greater than it; it
    gives the result of the engine for consistent comparators, and a
    permutation of the elements always.  The sorted prefix is kept
    reversed while sorting. *)
Section Sort.
Context {A : Type}.
Variable cmp : A -> A -> Q.

Fixpoint insert_back (x : A) (rprefix : list A) : list A :=
  match rprefix with
  | [] => [x]
  | y :: r => if gtb (cmp y x) 0 then y :: insert_back x r
              else x :: rprefix
  end.

Definition sort (l : list A) : list A :=
  rev (fold_left (fun rprefix x => insert_back x rprefix) l []).
End Sort.

(** [Array.prototype.slice(0, n)] and [slice(-n)]. *)
Definition slice0 {A} (n : nat) (l : list A) : list A := firstn n l.
Definition slice_last {A} (n : nat) (l : list A) : list A :=
  skipn (List.length l - n) l.

End JS.
Import JS.

(* ===================================================================== *)
(** ** Configuration *)
(* ===================================================================== *)

(** [memeTokenHunting] of PumpPandaConfig, as far as the agent reads it. *)
Record MemeTokenHuntingConfig : Type := {
  enabled : bool;
  scanInterval : Z;
  autoBuy : bool;
  trendingTokens : list string;
  blacklistedTokens : list string
}.

(** The values returned by the getters that the components call on their
    configuration object ([ConfigManager], or [PumpPandaConfigManager]
    through its compatibility methods).  [retentionDays] is that of
    [ConfigManager.getMemoryConfig()]; [PumpPandaConfigManager] has no
    such method, and [RecallMemory.cleanup] over it throws a TypeError
    before it reads the store. *)
Record ConfigManager : Type := {
  getTradingInterval : Z;
  getUpdateInterval : Z;
  getPerformanceMonitoringInterval : Z;
  getSymbols : list string;
  getEnabledBlockchains : list string;
  getMaxPositionSize : Q;
  getMaxDailyLoss : Q;
  getMaxDrawdown : Q;
  getStopLossPercentage : Q;
  getTakeProfitPercentage : Q;
  getMaxOpenPositions : Q;
  retentionDays : Z;
  getMemeTokenHuntingConfig : MemeTokenHuntingConfig
}.

(** [ConfigManager.getDefaultConfig], with the chain list and the
    meme-token section of [PumpPandaConfigManager.getDefaultConfig]
    left to the caller. *)
Definition getDefaultConfig (chains : list string)
           (hunting : MemeTokenHuntingConfig) : ConfigManager := {|
  getTradingInterval := 60000;
  getUpdateInterval := 5000;
  getPerformanceMonitoringInterval := 300000;
  getSymbols := ["BTC/USD"; "ETH/USD"; "AAPL"; "GOOGL"; "TSLA"];
  getEnabledBlockchains := chains;
  getMaxPositionSize := 10000;
  getMaxDailyLoss := 1000;
  getMaxDrawdown := 5 # 100;
  getStopLossPercentage := 2 # 100;
  getTakeProfitPercentage := 4 # 100;
  getMaxOpenPositions := 5;
  retentionDays := 30;
  getMemeTokenHuntingConfig := hunting
|}.

(* ===================================================================== *)
(** ** The environment: clock and random source *)
(* ===================================================================== *)

(** [Date.now()], [new Date()] and [Math.random()] read the environment.
    The environment is a pair of oracles with read positions: the [n]-th
    clock reading, and the [n]-th random draw, seen either as its numeric
    value or as the string [Math.random().toString(36).substr(2, 9)] it
    renders to. *)
Record World : Type := {
  clock : nat -> Z;
  clock_pos : nat;
  random_value : nat -> Q;
  random_suffix : nat -> string;
  random_pos : nat
}.

Definition Date_now (w : World) : Z * World :=
  (clock w (clock_pos w),
   {| clock := clock w; clock_pos := S (clock_pos w);
      random_value := random_value w; random_suffix := random_suffix w;
      random_pos := random_pos w |}).

Definition Math_random (w : World) : Q * World :=
  (random_value w (random_pos w),
   {| clock := clock w; clock_pos := clock_pos w;
      random_value := random_value w; random_suffix := random_suffix w;
      random_pos := S (random_pos w) |}).

Definition Math_random_base36 (w : World) : string * World :=
  (random_suffix w (random_pos w),
   {| clock := clock w; clock_pos := clock_pos w;
      random_value := random_value w; random_suffix := random_suffix w;
      random_pos := S (random_pos w) |}).

(** The time zone of the process, as the language's [LocalTZA(t, isUTC)]:
    the offset of local time from UTC in milliseconds, at an instant [t]
    given in UTC ([isUTC = true]) or in local time. *)
Definition TimeZone : Type := Z -> bool -> Z.

(** [d.setDate(d.getDate() - days)] on the [Date] of the instant [t]: the
    local time of [t] moves back by [days] calendar days, keeping the time
    of day, and is read back as an instant. *)
Definition setDate_back (tz : TimeZone) (t days : Z) : Z :=
  let localTime := (t + tz t true)%Z in
  let moved := (localTime - days * 86400000)%Z in
  (moved - tz moved false)%Z.

(** Decimal rendering of an integer inside a template literal. *)
Definition string_of_Z (z : Z) : string :=
  NilZero.string_of_int (Z.to_int z).

(* ===================================================================== *)
(** ** Data model *)
(* ===================================================================== *)

Inductive Trend : Type := bullish | bearish | neutral.
Inductive RiskLevel : Type := low | medium | high.
Inductive Action : Type := buy | sell | hold.
Inductive Status : Type := executed | failed | pending.

Definition RiskLevel_eqb (a b : RiskLevel) : bool :=
  match a, b with
  | low, low | medium, medium | high, high => true
  | _, _ => false
  end.

Definition Trend_eqb (a b : Trend) : bool :=
  match a, b with
  | bullish, bullish | bearish, bearish | neutral, neutral => true
  | _, _ => false
  end.

Definition Action_name (a : Action) : string :=
  match a with buy => "buy" | sell => "sell" | hold => "hold" end.

Definition Status_name (s : Status) : string :=
  match s with
  | executed => "executed" | failed => "failed" | pending => "pending"
  end.

(** [MarketData] of TradingStrategy.ts; every indicator is optional. *)
Record Indicators : Type := {
  rsi : option Q;
  macd : option Q;
  movingAverage : option Q;
  volatility : option Q
}.

Record MarketData : Type := {
  md_symbol : string;
  md_price : Q;
  md_volume : Q;
  md_timestamp : Z;
  indicators : Indicators
}.

(** [MarketAnalysis] of TradingStrategy.ts. *)
Record MarketAnalysis : Type := {
  ma_symbol : string;
  trend : Trend;
  strength : Q;
  confidence : Q;
  signals : list string;
  ma_riskLevel : RiskLevel
}.

(** [TradingSignal] of TradingStrategy.ts. *)
Record TradingSignal : Type := {
  ts_symbol : string;
  action : Action;
  quantity : Q;
  price : Q;
  strategy : string;
  ts_confidence : Q;
  stopLoss : option Q;
  takeProfit : option Q;
  ts_timestamp : Z
}.

(** [RiskAssessment] of RiskManager.ts. *)
Record RiskAssessment : Type := {
  isAcceptable : bool;
  riskLevel : RiskLevel;
  riskScore : Z;
  warnings : list string;
  maxPositionSize : Q
}.

(** [Position], [Portfolio] and [TradeExecution] of PortfolioManager.ts. *)
Record Position : Type := {
  pos_symbol : string;
  pos_quantity : Q;
  entryPrice : Q;
  currentPrice : Q;
  entryTime : Z;
  pos_stopLoss : option Q;
  pos_takeProfit : option Q;
  pnl : Q;
  pnlPercentage : Q
}.

Record Portfolio : Type := {
  pf_initialValue : Q;
  pf_currentValue : Q;
  totalPnL : Q;
  totalPnLPercentage : Q;
  positions : list Position;
  cash : Q
}.

Record TradeExecution : Type := {
  te_id : string;
  te_symbol : string;
  te_action : Action;
  te_quantity : Q;
  te_price : Q;
  te_timestamp : Z;
  status : Status;
  message : string
}.

(** The object literal that [executeTradingCycle] hands to [recordCycle]. *)
Record CycleData : Type := {
  cd_timestamp : Z;
  cd_marketData : list MarketData;
  cd_analysis : list MarketAnalysis;
  cd_riskAssessment : RiskAssessment;
  cd_portfolio : Portfolio
}.

(** A property value as [calculateSimilarity] and the tag lists see it.
    Objects (dates, arrays, nested records) are opaque; two of them are
    never [===], that is, they are taken to be distinct objects. *)
Inductive jsval : Type :=
| JUndefined
| JBool (b : bool)
| JNum (q : Q)
| JStr (s : string)
| JObject.

(** The [data: any] payload of a memory record: what the agent stores
    (cycle summaries, trade executions) or any flat object. *)
Inductive Payload : Type :=
| PCycle (c : CycleData)
| PTrade (e : TradeExecution)
| PObject (fields : list (string * jsval)).

(** The operator [===]. *)
Definition strict_eq (a b : jsval) : bool :=
  match a, b with
  | JUndefined, JUndefined => true
  | JBool x, JBool y => Bool.eqb x y
  | JNum x, JNum y => JS.eqb x y
  | JStr x, JStr y => String.eqb x y
  | _, _ => false
  end.

Definition is_number (a : jsval) : bool :=
  match a with JNum _ => true | _ => false end.

Fixpoint lookup (key : string) (fields : list (string * jsval)) : jsval :=
  match fields with
  | [] => JUndefined
  | (k, v) :: rest => if String.eqb k key then v else lookup key rest
  end.

(** [Object.keys(data)]. *)
Definition keys (d : Payload) : list string :=
  match d with
  | PCycle _ =>
      ["timestamp"; "marketData"; "analysis"; "riskAssessment"; "portfolio"]
  | PTrade _ =>
      ["id"; "symbol"; "action"; "quantity"; "price"; "timestamp";
       "status"; "message"]
  | PObject fields => map fst fields
  end.

(** The property read [data[key]]. *)
Definition prop (d : Payload) (key : string) : jsval :=
  match d with
  | PCycle _ => if mem key (keys d) then JObject else JUndefined
  | PTrade e =>
      if String.eqb key "id" then JStr (te_id e)
      else if String.eqb key "symbol" then JStr (te_symbol e)
      else if String.eqb key "action" then JStr (Action_name (te_action e))
      else if String.eqb key "quantity" then JNum (te_quantity e)
      else if String.eqb key "price" then JNum (te_price e)
      else if String.eqb key "timestamp" then JObject
      else if String.eqb key "status" then JStr (Status_name (status e))
      else if String.eqb key "message" then JStr (message e)
      else JUndefined
  | PObject fields => lookup key fields
  end.

(** [data?.marketData]: present in cycle summaries only. *)
Definition marketData_of (d : Payload) : option (list MarketData) :=
  match d with
  | PCycle c => Some (cd_marketData c)
  | _ => None
  end.

(* ===================================================================== *)
(** ** RecallMemory *)
(* ===================================================================== *)

Module RecallMemory.

Inductive RecordType : Type := cycle | trade | signal | market_event.

Definition type_name (t : RecordType) : string :=
  match t with
  | cycle => "cycle"
  | trade => "trade"
  | signal => "signal"
  | market_event => "market_event"
  end.

Record MemoryRecord : Type := {
  id : string;
  timestamp : Z;
  type : RecordType;
  data : Payload;
  tags : list jsval;
  importance : Q;
  accessCount : Z;
  lastAccessed : Z
}.

(** Every field of a query is optional. *)
Record RecallQuery : Type := {
  q_type : option string;
  q_tags : option (list string);
  q_timeRange : option (Z * Z);
  q_importance : option Q;
  q_limit : option nat
}.

(** The fields of the class.  [memory] is the [Map] from id to record in
    insertion order; both writers ([storeRecord], [loadMemoryFromDisk]) use
    the record's own id as key, so the map is the list of its records.
    [index] is the [Map] from tag to the [Set] of record ids.  [disk] is
    the content of memory.json, if the file exists. *)
Record t : Type := {
  memory : list MemoryRecord;
  index : list (jsval * list string);
  isInitialized : bool;
  disk : option (list MemoryRecord)
}.

(** [Map.prototype.set], [get], [delete] on [memory]. *)
Fixpoint Map_set (r : MemoryRecord) (m : list MemoryRecord)
  : list MemoryRecord :=
  match m with
  | [] => [r]
  | x :: rest => if String.eqb (id x) (id r) then r :: rest
                 else x :: Map_set r rest
  end.

Definition Map_get (k : string) (m : list MemoryRecord)
  : option MemoryRecord :=
  find (fun x => String.eqb (id x) k) m.

Definition Map_has (k : string) (m : list MemoryRecord) : bool :=
  existsb (fun x => String.eqb (id x) k) m.

Definition Map_delete (k : string) (m : list MemoryRecord)
  : list MemoryRecord :=
  filter (fun x => negb (String.eqb (id x) k)) m.

(** [Set.prototype.add] and the update of [index] for one tag. *)
Definition Set_add (x : string) (s : list string) : list string :=
  if mem x s then s else s ++ [x].

Fixpoint index_add (tag : jsval) (rid : string)
         (ix : list (jsval * list string)) : list (jsval * list string) :=
  match ix with
  | [] => [(tag, Set_add rid [])]
  | (k, s) :: rest => if strict_eq k tag then (k, Set_add rid s) :: rest
                      else (k, s) :: index_add tag rid rest
  end.

Definition index_record (r : MemoryRecord)
           (ix : list (jsval * list string)) : list (jsval * list string) :=
  fold_left (fun ix tag => index_add tag (id r) ix) (tags r) ix.

Definition rebuildIndexes (st : t) : t :=
  {| memory := memory st;
     index := fold_left (fun ix r => index_record r ix) (memory st) [];
     isInitialized := isInitialized st;
     disk := disk st |}.

(** [saveMemoryToDisk]; a failed write is caught and logged, and is not
    modelled. *)
Definition saveMemoryToDisk (st : t) : t :=
  {| memory := memory st;
     index := index st;
     isInitialized := isInitialized st;
     disk := Some (memory st) |}.

Definition loadMemoryFromDisk (st : t) : t :=
  match disk st with
  | None => st
  | Some records =>
      {| memory := fold_left (fun m r => Map_set r m) records (memory st);
         index := index st;
         isInitialized := isInitialized st;
         disk := disk st |}
  end.

Definition new : t :=
  {| memory := []; index := []; isInitialized := false; disk := None |}.

Definition initialize (st : t) : t :=
  let st := rebuildIndexes (loadMemoryFromDisk st) in
  {| memory := memory st;
     index := index st;
     isInitialized := true;
     disk := disk st |}.

Definition storeRecord (st : t) (record : MemoryRecord) : t :=
  let st1 := {| memory := Map_set record (memory st);
                index := index_record record (index st);
                isInitialized := isInitialized st;
                disk := disk st |} in
  if (Z.of_nat (List.length (memory st1)) mod 100 =? 0)%Z
  then saveMemoryToDisk st1
  else st1.

Definition generateId (w : World) : string * World :=
  let (now, w) := Date_now w in
  let (suffix, w) := Math_random_base36 w in
  ((string_of_Z now ++ "-" ++ suffix)%string, w).

(** The common shape of the four [record...] methods: the id, then the two
    [new Date()] of the literal, then [storeRecord]. *)
Definition record (ty : RecordType) (tags : list jsval) (importance : Q)
           (w : World) (st : t) (payload : Payload) : string * t * World :=
  let (rid, w) := generateId w in
  let (created, w) := Date_now w in
  let (accessed, w) := Date_now w in
  let r := {| id := rid;
              timestamp := created;
              type := ty;
              data := payload;
              tags := tags;
              importance := importance;
              accessCount := 0;
              lastAccessed := accessed |} in
  (rid, storeRecord st r, w).

Definition recordCycle (w : World) (st : t) (cycleData : Payload) :=
  record cycle [JStr "trading_cycle"; JStr "market_analysis"] (7 # 10)
         w st cycleData.

Definition recordTrade (w : World) (st : t) (tradeData : Payload) :=
  record trade [JStr "trade_execution"; prop tradeData "symbol";
                prop tradeData "action"] (9 # 10)
         w st tradeData.

Definition recordSignal (w : World) (st : t) (signalData : Payload) :=
  record signal [JStr "trading_signal"; prop signalData "symbol";
                 prop signalData "strategy"] (8 # 10)
         w st signalData.

Definition recordMarketEvent (w : World) (st : t) (eventData : Payload) :=
  record market_event [JStr "market_event"; prop eventData "type";
                       prop eventData "symbol"] (6 # 10)
         w st eventData.

(** The four filters of [recall], on the set of candidate ids. *)
Definition filterBy (keep : MemoryRecord -> bool) (st : t)
           (candidates : list string) : list string :=
  filter (fun rid => match Map_get rid (memory st) with
                     | Some r => keep r
                     | None => false
                     end) candidates.

Definition filterByType (st : t) (candidates : list string) (ty : string) :=
  filterBy (fun r => String.eqb (type_name (type r)) ty) st candidates.

Definition filterByTags (st : t) (candidates : list string)
           (qtags : list string) :=
  filterBy (fun r => some (fun tag => some (strict_eq (JStr tag)) (tags r))
                          qtags) st candidates.

Definition filterByTimeRange (st : t) (candidates : list string)
           (range : Z * Z) :=
  filterBy (fun r => (fst range <=? timestamp r)%Z
                     && (timestamp r <=? snd range)%Z) st candidates.

Definition filterByImportance (st : t) (candidates : list string)
           (minImportance : Q) :=
  filterBy (fun r => geb (importance r) minImportance) st candidates.

(** The comparison function of [sortByRelevance].  The two differences
    of importances are differences of doubles: that of 0.8 and 0.7 is
    above the double 0.1, that of 0.9 and 0.8 is below it. *)
Definition relevance (a b : MemoryRecord) : Q :=
  if gtb (Math_abs (fsub (importance a) (importance b))) (fl (1 # 10))
  then fsub (importance b) (importance a)
  else
    let timeDiff := (timestamp b - timestamp a)%Z in
    if (60000 <? Z.abs timeDiff)%Z then inject_Z timeDiff
    else inject_Z (accessCount b - accessCount a).

Definition sortByRelevance (records : list MemoryRecord)
  : list MemoryRecord :=
  JS.sort relevance records.

(** The loop that updates the access statistics of the returned records.
    The records are the objects held by [memory], so the map sees the
    update; the list returned holds the records as updated. *)
Definition touch (now : Z) (r : MemoryRecord) : MemoryRecord :=
  {| id := id r;
     timestamp := timestamp r;
     type := type r;
     data := data r;
     tags := tags r;
     importance := importance r;
     accessCount := accessCount r + 1;
     lastAccessed := now |}.

Fixpoint touch_all (w : World) (m : list MemoryRecord)
         (result : list MemoryRecord)
  : list MemoryRecord * list MemoryRecord * World :=
  match result with
  | [] => ([], m, w)
  | r :: rest =>
      let (now, w) := Date_now w in
      let r' := touch now r in
      let m := map (fun x => if String.eqb (id x) (id r) then r' else x) m in
      let '(rs, m, w) := touch_all w m rest in
      (r' :: rs, m, w)
  end.

Definition optional {A} (o : option A) (f : A -> list string -> list string)
           (candidates : list string) : list string :=
  match o with
  | Some a => f a candidates
  | None => candidates
  end.

Definition recall (w : World) (st : t) (query : RecallQuery)
  : result (list MemoryRecord) * t * World :=
  if negb (isInitialized st) then (Err "Recall memory not initialized", st, w)
  else
    let candidates := map id (memory st) in
    let candidates :=
      match q_type query with
      | Some ty => if String.eqb ty "" then candidates
                   else filterByType st candidates ty
      | None => candidates
      end in
    let candidates :=
      match q_tags query with
      | Some (tag :: more) => filterByTags st candidates (tag :: more)
      | _ => candidates
      end in
    let candidates :=
      match q_timeRange query with
      | Some range => filterByTimeRange st candidates range
      | None => candidates
      end in
    let candidates :=
      match q_importance query with
      | Some minImportance => filterByImportance st candidates minImportance
      | None => candidates
      end in
    let records :=
      flat_map (fun rid => match Map_get rid (memory st) with
                           | Some r => [r]
                           | None => []
                           end) candidates in
    let sortedRecords := sortByRelevance records in
    let limit := match q_limit query with
                 | Some (S n) => S n
                 | _ => 100%nat
                 end in
    let result := slice0 limit sortedRecords in
    let '(result, m, w) := touch_all w (memory st) result in
    (Ok result,
     {| memory := m;
        index := index st;
        isInitialized := isInitialized st;
        disk := disk st |},
     w).

(** [calculateSimilarity]: the mean, over the property names the two
    payloads share, of a per-property score; the scores are computed and
    added up in double arithmetic. *)
Definition fieldScore (v1 v2 : jsval) : Q :=
  if strict_eq v1 v2 then 1
  else match v1, v2 with
       | JNum a, JNum b =>
           let diff := Math_abs (fsub a b) in
           let max := Math_max (Math_abs (fl a)) (Math_abs (fl b)) in
           if gtb max 0 then fsub 1 (fdiv diff max) else 0
       | _, _ => 0
       end.

Definition calculateSimilarity (data1 data2 : Payload) : Q :=
  let keys1 := keys data1 in
  let keys2 := keys data2 in
  let commonKeys := filter (fun key => mem key keys2) keys1 in
  match commonKeys with
  | [] => 0
  | _ =>
      fdiv (fold_left (fun similarity key =>
                         fadd similarity
                              (fieldScore (prop data1 key) (prop data2 key)))
                      commonKeys 0)
           (inject_Z (Z.of_nat (List.length commonKeys)))
  end.

Definition recallSimilar (w : World) (st : t) (sampleData : Payload)
           (ty : string) (limit : nat)
  : result (list MemoryRecord) * t * World :=
  let '(res, st, w) :=
    recall w st {| q_type := Some ty; q_tags := None; q_timeRange := None;
                   q_importance := None; q_limit := Some 100%nat |} in
  match res with
  | Err msg => (Err msg, st, w)
  | Ok records =>
      let scoredRecords :=
        map (fun r => (r, calculateSimilarity sampleData (data r))) records in
      let scoredRecords :=
        JS.sort (fun a b => snd b - snd a) scoredRecords in
      (Ok (map fst (slice0 limit scoredRecords)), st, w)
  end.

(** [cleanup].  The cutoff is the clock reading moved back by
    [retentionDays] days of the local calendar.  [retentionDays] is read
    from [getMemoryConfig()], which [ConfigManager] has. *)
Definition expired (cutoffDate : Z) (r : MemoryRecord) : bool :=
  (timestamp r <? cutoffDate)%Z && ltb (importance r) (5 # 10).

Definition cleanup (tz : TimeZone) (cfg : ConfigManager) (w : World) (st : t)
  : t * World :=
  let (now, w) := Date_now w in
  let cutoffDate := setDate_back tz now (retentionDays cfg) in
  let toDelete := map id (filter (expired cutoffDate) (memory st)) in
  let m := fold_left (fun m rid => Map_delete rid m) toDelete (memory st) in
  (rebuildIndexes {| memory := m;
                     index := index st;
                     isInitialized := isInitialized st;
                     disk := disk st |},
   w).

Definition save (st : t) : t := saveMemoryToDisk st.

End RecallMemory.

(* ===================================================================== *)
(** ** RiskManager *)
(* ===================================================================== *)

Module RiskManager.

(** The fields of the class. *)
Record t : Type := {
  isInitialized : bool;
  dailyLoss : Q;
  openPositions : Q
}.

(** What [assessRisk] reads of its [portfolio: any] argument: the two
    properties may be absent. *)
Record PortfolioLike : Type := {
  initialValue : option Q;
  currentValue : option Q
}.

(** The running pair [(riskScore, warnings)] of [assessRisk]. *)
Definition tally : Type := (Z * list string)%type.

Definition penalise (cond : bool) (points : Z) (warning : string)
           (s : tally) : tally :=
  if cond then (fst s + points, snd s ++ [warning])%Z else s.

(** [calculateDrawdown]; the difference and the quotient are those of
    doubles. *)
Definition calculateDrawdown (portfolio : option PortfolioLike) : Q :=
  match portfolio with
  | None => 0
  | Some p =>
      if negb (truthy (initialValue p)) || negb (truthy (currentValue p))
      then 0
      else match initialValue p, currentValue p with
           | Some i, Some c => Math_max 0 (fdiv (fsub i c) i)
           | _, _ => 0
           end
  end.

Definition calculateMaxPositionSize (cfg : ConfigManager) (riskScore : Z)
  : Q :=
  let baseSize := getMaxPositionSize cfg in
  if (70 <=? riskScore)%Z then baseSize * (1 # 10)
  else if (50 <=? riskScore)%Z then baseSize * (3 # 10)
  else if (30 <=? riskScore)%Z then baseSize * (6 # 10)
  else baseSize.

Definition anyHigh (analysis : option (list MarketAnalysis)) : bool :=
  match analysis with
  | None => false
  | Some l => some (fun a => RiskLevel_eqb (ma_riskLevel a) high) l
  end.

Definition levelOf (riskScore : Z) : RiskLevel :=
  if (70 <=? riskScore)%Z then high
  else if (30 <=? riskScore)%Z then medium
  else low.

Definition assessRisk (cfg : ConfigManager) (rm : t)
           (analysis : option (list MarketAnalysis))
           (portfolio : option PortfolioLike) : result RiskAssessment :=
  if negb (isInitialized rm) then Err "Risk manager not initialized"
  else
    let s := (0%Z, []) in
    let s := penalise (geb (dailyLoss rm) (getMaxDailyLoss cfg))
                      50 "Daily loss limit reached" s in
    let currentDrawdown := calculateDrawdown portfolio in
    let s := penalise (gtb currentDrawdown (fl (getMaxDrawdown cfg)))
                      40 "Maximum drawdown exceeded" s in
    let s := penalise (geb (openPositions rm) (getMaxOpenPositions cfg))
                      30 "Maximum open positions reached" s in
    let s := penalise (anyHigh analysis)
                      20 "High market volatility detected" s in
    let riskScore := fst s in
    Ok {| isAcceptable := (riskScore <? 70)%Z;
          riskLevel := levelOf riskScore;
          riskScore := riskScore;
          warnings := snd s;
          maxPositionSize := calculateMaxPositionSize cfg riskScore |}.

(** What [validateSignal] reads of its [signal: any] argument. *)
Record SignalLike : Type := {
  sl_quantity : Q;
  sl_price : Q;
  sl_confidence : Q;
  sl_stopLoss : option Q;
  sl_takeProfit : option Q
}.

Record SignalValidation : Type := {
  isValid : bool;
  sv_riskScore : Z;
  sv_warnings : list string
}.

Definition validateSignal (cfg : ConfigManager) (rm : t) (sg : SignalLike)
  : result SignalValidation :=
  if negb (isInitialized rm) then Err "Risk manager not initialized"
  else
    let s := (0%Z, []) in
    let positionValue := sl_quantity sg * sl_price sg in
    let s := penalise (gtb positionValue (getMaxPositionSize cfg))
                      30 "Position size exceeds maximum allowed" s in
    let s := penalise (ltb (sl_confidence sg) (6 # 10))
                      20 "Low confidence signal" s in
    let s := penalise (negb (truthy (sl_stopLoss sg))
                       || negb (truthy (sl_takeProfit sg)))
                      15 "Missing stop loss or take profit" s in
    let s := penalise (geb (openPositions rm) (getMaxOpenPositions cfg))
                      25 "Maximum open positions reached" s in
    Ok {| isValid := (fst s <? 50)%Z;
          sv_riskScore := fst s;
          sv_warnings := snd s |}.

Definition initialize (rm : t) : t :=
  {| isInitialized := true;
     dailyLoss := dailyLoss rm;
     openPositions := openPositions rm |}.

Definition updateDailyLoss (loss : Q) (rm : t) : t :=
  {| isInitialized := isInitialized rm;
     dailyLoss := dailyLoss rm + loss;
     openPositions := openPositions rm |}.

Definition updateOpenPositions (count : Q) (rm : t) : t :=
  {| isInitialized := isInitialized rm;
     dailyLoss := dailyLoss rm;
     openPositions := count |}.

Definition resetDailyLoss (rm : t) : t :=
  {| isInitialized := isInitialized rm;
     dailyLoss := 0;
     openPositions := openPositions rm |}.

(** A fresh instance, as the constructor leaves it. *)
Definition new : t :=
  {| isInitialized := false; dailyLoss := 0; openPositions := 0 |}.

End RiskManager.

(* ===================================================================== *)
(** ** TradingStrategy *)
(* ===================================================================== *)

Module TradingStrategy.

Import RecallMemory.

Record t : Type := { isInitialized : bool }.

Definition new : t := {| isInitialized := false |}.
Definition initialize (s : t) : t := {| isInitialized := true |}.

Definition analyzeTechnicalIndicators (data : MarketData) : list string :=
  let ind := indicators data in
  (match rsi ind with
   | Some r => if ltb r 30 then ["rsi_oversold"]
               else if gtb r 70 then ["rsi_overbought"] else []
   | None => []
   end)
  ++ (match macd ind with
      | Some m => if gtb m 0 then ["macd_bullish"] else ["macd_bearish"]
      | None => []
      end)
  ++ (match movingAverage ind with
      | Some avg => if gtb (md_price data) avg then ["price_above_ma"]
                    else ["price_below_ma"]
      | None => []
      end)
  ++ (match volatility ind with
      | Some v => if gtb v (5 # 100) then ["high_volatility"]
                  else ["low_volatility"]
      | None => []
      end).

(** [record.data?.marketData?.find(md => md.symbol === symbol)], then the
    projection, then the filter that drops [undefined]. *)
Definition seriesOf (proj : MarketData -> Q) (symbol : string)
           (records : list MemoryRecord) : list Q :=
  flat_map (fun r =>
              match marketData_of (data r) with
              | Some mds =>
                  match find (fun md => String.eqb (md_symbol md) symbol)
                             mds with
                  | Some md => [proj md]
                  | None => []
                  end
              | None => []
              end) records.

(** The last three elements of an array of length at least three, oldest
    first. *)
Definition lastThree (l : list Q) : option (Q * Q * Q) :=
  match rev l with
  | c :: b :: a :: _ => Some (a, b, c)
  | _ => None
  end.

Definition findPricePatterns (data : MarketData)
           (historicalData : list MemoryRecord) : list string :=
  let recentPrices :=
    seriesOf md_price (md_symbol data) (slice_last 20 historicalData) in
  match lastThree recentPrices with
  | Some (p3, p2, p1) =>
      (if gtb p1 p2 && gtb p2 p3 then ["uptrend_continuation"]
       else if ltb p1 p2 && ltb p2 p3 then ["downtrend_continuation"]
       else [])
      ++ (if gtb p1 p2 && ltb p2 p3 then ["potential_reversal_bullish"]
          else if ltb p1 p2 && gtb p2 p3 then ["potential_reversal_bearish"]
          else [])
  | None => []
  end.

Definition findVolumePatterns (data : MarketData)
           (historicalData : list MemoryRecord) : list string :=
  let recentVolumes :=
    seriesOf md_volume (md_symbol data) (slice_last 10 historicalData) in
  if (3 <=? List.length recentVolumes)%nat then
    let avgVolume :=
      fold_left Qplus recentVolumes 0
      / inject_Z (Z.of_nat (List.length recentVolumes)) in
    if gtb (md_volume data) (avgVolume * (15 # 10)) then ["high_volume"]
    else if ltb (md_volume data) (avgVolume * (5 # 10)) then ["low_volume"]
    else []
  else [].

(** [Math.abs(price - level) / price < 0.02]; with a zero price the
    quotient is [Infinity] or [NaN] and the comparison is false. *)
Definition near (price level : Q) : bool :=
  if JS.eqb price 0 then false
  else ltb (Math_abs (price - level) / price) (2 # 100).

Definition findSupportResistanceLevels (data : MarketData)
           (historicalData : list MemoryRecord) : list string :=
  let recentPrices :=
    seriesOf md_price (md_symbol data) (slice_last 50 historicalData) in
  match recentPrices with
  | p :: ps =>
      if (10 <=? List.length recentPrices)%nat then
        let minPrice := fold_left Math_min ps p in
        let maxPrice := fold_left Math_max ps p in
        (if near (md_price data) minPrice then ["near_support"] else [])
        ++ (if near (md_price data) maxPrice then ["near_resistance"]
            else [])
      else []
  | [] => []
  end.

Definition recognizePatterns (data : MarketData)
           (historicalData : list MemoryRecord) : list string :=
  if (List.length historicalData <? 10)%nat then []
  else findPricePatterns data historicalData
       ++ findVolumePatterns data historicalData
       ++ findSupportResistanceLevels data historicalData.

(** The vote of [determineTrend]: the pair of counters after the loop. *)
Definition vote (counts : Z * Z) (signal : string) : Z * Z :=
  if includes signal "bullish" || includes signal "above"
     || includes signal "oversold"
  then (fst counts + 1, snd counts)%Z
  else if includes signal "bearish" || includes signal "below"
          || includes signal "overbought"
  then (fst counts, snd counts + 1)%Z
  else counts.

Definition determineTrend (data : MarketData) (signals : list string)
  : Trend :=
  let '(bullishCount, bearishCount) := fold_left vote signals (0, 0)%Z in
  if (bearishCount + 1 <? bullishCount)%Z then bullish
  else if (bullishCount + 1 <? bearishCount)%Z then bearish
  else neutral.

Definition calculateTrendStrength (data : MarketData)
           (signals : list string) : Q :=
  let strength :=
    fold_left (fun strength signal =>
                 if includes signal "strong" then strength + (1 # 10)
                 else if includes signal "weak" then strength - (1 # 10)
                 else strength) signals (5 # 10) in
  let strength :=
    match volatility (indicators data) with
    | Some v => strength + v * (5 # 10)
    | None => strength
    end in
  Math_max 0 (Math_min 1 strength).

Definition calculateConfidence (technicalSignals patternSignals : list string)
  : Q :=
  let confidence := 5 # 10 in
  let confidence :=
    confidence
    + inject_Z (Z.of_nat (List.length technicalSignals)) * (5 # 100) in
  let confidence :=
    confidence
    + inject_Z (Z.of_nat (List.length patternSignals)) * (3 # 100) in
  Math_min (95 # 100) confidence.

Definition assessRiskLevel (data : MarketData) (strength confidence : Q)
  : RiskLevel :=
  let riskScore := 0%Z in
  let riskScore :=
    match volatility (indicators data) with
    | Some v => if gtb v (1 # 10) then (riskScore + 2)%Z else riskScore
    | None => riskScore
    end in
  let riskScore :=
    if ltb confidence (4 # 10) then (riskScore + 2)%Z else riskScore in
  let riskScore :=
    if gtb strength (8 # 10) then (riskScore + 1)%Z else riskScore in
  if (3 <=? riskScore)%Z then high
  else if (1 <=? riskScore)%Z then medium
  else low.

Definition analyzeSymbol (data : MarketData)
           (historicalData : list MemoryRecord) : MarketAnalysis :=
  let technicalSignals := analyzeTechnicalIndicators data in
  let patternSignals := recognizePatterns data historicalData in
  let trend := determineTrend data technicalSignals in
  let strength := calculateTrendStrength data technicalSignals in
  let confidence := calculateConfidence technicalSignals patternSignals in
  {| ma_symbol := md_symbol data;
     trend := trend;
     strength := strength;
     confidence := confidence;
     signals := technicalSignals ++ patternSignals;
     ma_riskLevel := assessRiskLevel data strength confidence |}.

(** The analysis substituted when the analysis of one symbol throws. *)
Definition fallbackAnalysis (data : MarketData) : MarketAnalysis :=
  {| ma_symbol := md_symbol data;
     trend := neutral;
     strength := 5 # 10;
     confidence := 3 # 10;
     signals := ["analysis_failed"];
     ma_riskLevel := medium |}.

(** The loop of [analyzeMarket]; the memory and the clock are threaded
    through the calls of [recall]. *)
Fixpoint analyzeEach (w : World) (memory : RecallMemory.t)
         (marketData : list MarketData)
  : list MarketAnalysis * RecallMemory.t * World :=
  match marketData with
  | [] => ([], memory, w)
  | data :: rest =>
      let '(res, memory, w) :=
        recall w memory
               {| q_type := Some "cycle";
                  q_tags := Some [md_symbol data; "market_analysis"];
                  q_timeRange := None;
                  q_importance := None;
                  q_limit := Some 50%nat |} in
      let analysis :=
        match res with
        | Ok historicalData => analyzeSymbol data historicalData
        | Err _ => fallbackAnalysis data
        end in
      let '(analyses, memory, w) := analyzeEach w memory rest in
      (analysis :: analyses, memory, w)
  end.

Definition analyzeMarket (s : t) (w : World) (memory : RecallMemory.t)
           (marketData : list MarketData)
  : result (list MarketAnalysis) * RecallMemory.t * World :=
  if negb (isInitialized s)
  then (Err "Trading strategy not initialized", memory, w)
  else let '(analyses, memory, w) := analyzeEach w memory marketData in
       (Ok analyses, memory, w).

(** [generateSignalForSymbol]; [null] is [None].  Of the risk assessment
    only [riskLevel] is read.  The boost of the confidence and the two
    products of the position size are double operations. *)
Definition generateSignalForSymbol (cfg : ConfigManager) (w : World)
           (analysis : MarketAnalysis) (riskAssessment : RiskAssessment)
  : option TradingSignal * World :=
  if RiskLevel_eqb (ma_riskLevel analysis) high
     && RiskLevel_eqb (riskLevel riskAssessment) high
  then (None, w)
  else if ltb (confidence analysis) (4 # 10) then (None, w)
  else
    let '(action, confidence) :=
      if Trend_eqb (trend analysis) bullish
         && some (fun s => includes s "bullish") (signals analysis)
      then (buy, fadd (confidence analysis) (1 # 10))
      else if Trend_eqb (trend analysis) bearish
              && some (fun s => includes s "bearish") (signals analysis)
      then (sell, fadd (confidence analysis) (1 # 10))
      else (hold, confidence analysis) in
    match action with
    | hold => (None, w)
    | _ =>
        let baseQuantity := fmul (getMaxPositionSize cfg) (1 # 10) in
        let quantity :=
          inject_Z (Math_round (fmul baseQuantity confidence)) in
        let stopLossPercentage := getStopLossPercentage cfg in
        let takeProfitPercentage := getTakeProfitPercentage cfg in
        let (now, w) := Date_now w in
        (Some {| ts_symbol := ma_symbol analysis;
                 action := action;
                 quantity := quantity;
                 price := 0;
                 strategy := "recall_enhanced";
                 ts_confidence := Math_min (95 # 100) confidence;
                 stopLoss := Some (match action with
                                   | buy => - stopLossPercentage
                                   | _ => stopLossPercentage
                                   end);
                 takeProfit := Some (match action with
                                     | buy => takeProfitPercentage
                                     | _ => - takeProfitPercentage
                                     end);
                 ts_timestamp := now |},
         w)
    end.

Fixpoint generateEach (cfg : ConfigManager) (w : World)
         (analysis : list MarketAnalysis) (riskAssessment : RiskAssessment)
  : list TradingSignal * World :=
  match analysis with
  | [] => ([], w)
  | marketAnalysis :: rest =>
      let (signal, w) :=
        generateSignalForSymbol cfg w marketAnalysis riskAssessment in
      let (signals, w) := generateEach cfg w rest riskAssessment in
      (match signal with
       | Some sg => match action sg with
                    | hold => signals
                    | _ => sg :: signals
                    end
       | None => signals
       end, w)
  end.

Definition generateSignals (cfg : ConfigManager) (s : t) (w : World)
           (analysis : list MarketAnalysis) (riskAssessment : RiskAssessment)
  : result (list TradingSignal) * World :=
  if negb (isInitialized s) then (Err "Trading strategy not initialized", w)
  else
    let (signals, w) := generateEach cfg w analysis riskAssessment in
    (Ok (JS.sort (fun a b => ts_confidence b - ts_confidence a) signals), w).

End TradingStrategy.

(* ===================================================================== *)
(** ** Interval timers of the event loop *)
(* ===================================================================== *)

Module Timers.

(** Which callback an interval timer runs. *)
Inductive Callback : Type :=
| MockDataStream
| TradingLoop
| MemeTokenHunting
| PerformanceMonitoring.

Definition Callback_eqb (a b : Callback) : bool :=
  match a, b with
  | MockDataStream, MockDataStream
  | TradingLoop, TradingLoop
  | MemeTokenHunting, MemeTokenHunting
  | PerformanceMonitoring, PerformanceMonitoring => true
  | _, _ => false
  end.

Record Timer : Type := {
  handle : nat;
  callback : Callback;
  delay : Z
}.

(** The timers that are armed, and the next handle to hand out. *)
Record t : Type := {
  active : list Timer;
  nextHandle : nat
}.

Definition empty : t := {| active := []; nextHandle := 1 |}.

Definition setInterval (cb : Callback) (ms : Z) (tm : t) : nat * t :=
  (nextHandle tm,
   {| active := active tm
                ++ [{| handle := nextHandle tm; callback := cb;
                       delay := ms |}];
      nextHandle := S (nextHandle tm) |}).

Definition clearInterval (h : nat) (tm : t) : t :=
  {| active := filter (fun x => negb (Nat.eqb (handle x) h)) (active tm);
     nextHandle := nextHandle tm |}.

Definition armed (h : nat) (tm : t) : option Timer :=
  find (fun x => Nat.eqb (handle x) h) (active tm).

(** The handles of the armed timers that run a given callback. *)
Definition handlesOf (cb : Callback) (tm : t) : list nat :=
  map handle (filter (fun x => Callback_eqb (callback x) cb) (active tm)).

End Timers.

(* ===================================================================== *)
(** ** MarketDataManager *)
(* ===================================================================== *)

Module MarketDataManager.

Record t : Type := {
  isInitialized : bool;
  isStreaming : bool;
  mockDataInterval : option nat
}.

Definition new : t :=
  {| isInitialized := false; isStreaming := false;
     mockDataInterval := None |}.

Definition initialize (m : t) : t :=
  {| isInitialized := true; isStreaming := isStreaming m;
     mockDataInterval := mockDataInterval m |}.

Definition startStreaming (cfg : ConfigManager) (m : t) (tm : Timers.t)
  : result unit * t * Timers.t :=
  if negb (isInitialized m)
  then (Err "Market data manager not initialized", m, tm)
  else if isStreaming m then (Ok tt, m, tm)
  else
    let (h, tm) :=
      Timers.setInterval Timers.MockDataStream (getUpdateInterval cfg) tm in
    (Ok tt,
     {| isInitialized := isInitialized m; isStreaming := true;
        mockDataInterval := Some h |},
     tm).

Definition stopStreaming (m : t) (tm : Timers.t) : t * Timers.t :=
  if negb (isStreaming m) then (m, tm)
  else
    ({| isInitialized := isInitialized m; isStreaming := false;
        mockDataInterval := None |},
     match mockDataInterval m with
     | Some h => Timers.clearInterval h tm
     | None => tm
     end).

(** The table of [getBasePrice]; an unknown symbol is priced at 100. *)
Definition basePrices : list (string * Q) :=
  [("BTC/USD", 50000); ("ETH/USD", 3000); ("AAPL", 150); ("GOOGL", 2800);
   ("TSLA", 800); ("PEPE", 1 # 1000000); ("SHIB", 1 # 100000);
   ("DOGE", 8 # 100); ("FLOKI", 2 # 100000); ("BALD", 1 # 10000);
   ("TOSHI", 5 # 100000); ("SAFEMOON", 1 # 1000000);
   ("BABYDOGE", 1 # 10000000)].

Definition getBasePrice (symbol : string) : Q :=
  match find (fun e => String.eqb (fst e) symbol) basePrices with
  | Some (_, p) => p
  | None => 100
  end.

(** One mock sample: six draws and one clock reading, in the order of
    evaluation of the object literal. *)
Definition mockSample (spread : Q) (w : World) (symbol : string)
  : MarketData * World :=
  let basePrice := getBasePrice symbol in
  let (r, w) := Math_random w in
  let price := basePrice + (r - (1 # 2)) * basePrice * spread in
  let (r, w) := Math_random w in
  let volume := r * 1000000 + 100000 in
  let (now, w) := Date_now w in
  let (r1, w) := Math_random w in
  let (r2, w) := Math_random w in
  let (r3, w) := Math_random w in
  let (r4, w) := Math_random w in
  ({| md_symbol := symbol;
      md_price := inject_Z (Math_round (price * 100)) / 100;
      md_volume := inject_Z (Math_round volume);
      md_timestamp := now;
      indicators :=
        {| rsi := Some (r1 * 100);
           macd := Some ((r2 - (1 # 2)) * 2);
           movingAverage :=
             Some (basePrice + (r3 - (1 # 2)) * basePrice * (1 # 100));
           volatility := Some (r4 * (1 # 10)) |} |},
   w).

Fixpoint generateMockData (w : World) (symbols : list string)
  : list MarketData * World :=
  match symbols with
  | [] => ([], w)
  | symbol :: rest =>
      let (sample, w) := mockSample (2 # 100) w symbol in
      let (samples, w) := generateMockData w rest in
      (sample :: samples, w)
  end.

Definition getCurrentData (cfg : ConfigManager) (m : t) (w : World)
  : result (list MarketData) * World :=
  if negb (isInitialized m)
  then (Err "Market data manager not initialized", w)
  else let (samples, w) := generateMockData w (getSymbols cfg) in
       (Ok samples, w).

Definition getTokenData (m : t) (w : World) (token : string)
  : result MarketData * World :=
  if negb (isInitialized m)
  then (Err "Market data manager not initialized", w)
  else let (sample, w) := mockSample (2 # 100) w token in
       (Ok sample, w).

End MarketDataManager.

(* ===================================================================== *)
(** ** PortfolioManager *)
(* ===================================================================== *)

Module PortfolioManager.

(** The fields of the class; [held] is the [Map] from symbol to position
    in insertion order.  Where the source divides by a stored price or
    value, a zero divisor (a non-finite number in JavaScript) is not
    modelled. *)
Record t : Type := {
  isInitialized : bool;
  portfolio : Portfolio;
  held : list Position
}.

Definition new : t :=
  {| isInitialized := false;
     portfolio := {| pf_initialValue := 100000;
                     pf_currentValue := 100000;
                     totalPnL := 0;
                     totalPnLPercentage := 0;
                     positions := [];
                     cash := 100000 |};
     held := [] |}.

(** [initialize]: the blockchain components are initialised first and may
    throw; [chainOk] is the outcome of that step. *)
Definition initialize (chainOk : bool) (p : t) : result unit * t :=
  if chainOk
  then (Ok tt, {| isInitialized := true;
                  portfolio := portfolio p;
                  held := held p |})
  else (Err "Failed to initialize blockchain manager", p).

Definition with_cash (c : Q) (pf : Portfolio) : Portfolio :=
  {| pf_initialValue := pf_initialValue pf;
     pf_currentValue := pf_currentValue pf;
     totalPnL := totalPnL pf;
     totalPnLPercentage := totalPnLPercentage pf;
     positions := positions pf;
     cash := c |}.

Definition getCurrentPrice (w : World) (symbol : string) : Q * World :=
  let basePrice :=
    match find (fun e => String.eqb (fst e) symbol)
               [("BTC/USD", 50000); ("ETH/USD", 3000); ("AAPL", 150);
                ("GOOGL", 2800); ("TSLA", 800)] with
    | Some (_, p) => p
    | None => 100
    end in
  let (r, w) := Math_random w in
  (basePrice + (r - (1 # 2)) * basePrice * (1 # 100), w).

(** [signal.price || this.getCurrentPrice(signal.symbol)]. *)
Definition priceOf (w : World) (sg : TradingSignal) : Q * World :=
  if JS.eqb (price sg) 0 then getCurrentPrice w (ts_symbol sg)
  else (price sg, w).

Definition generateTradeId (w : World) : string * World :=
  let (now, w) := Date_now w in
  let (suffix, w) := Math_random_base36 w in
  (("trade_" ++ string_of_Z now ++ "_" ++ suffix)%string, w).

Definition position_of (symbol : string) (l : list Position)
  : option Position :=
  find (fun x => String.eqb (pos_symbol x) symbol) l.

Definition validateTrade (cfg : ConfigManager) (p : t) (sg : TradingSignal)
  : option string :=
  let insufficientCash :=
    match action sg with
    | buy => ltb (cash (portfolio p)) (quantity sg * price sg)
    | _ => false
    end in
  let insufficientPosition :=
    match action sg with
    | sell => match position_of (ts_symbol sg) (held p) with
              | Some pos => ltb (pos_quantity pos) (quantity sg)
              | None => true
              end
    | _ => false
    end in
  if insufficientCash then Some "Insufficient cash"
  else if insufficientPosition then Some "Insufficient position size"
  else if gtb (quantity sg * price sg) (getMaxPositionSize cfg)
  then Some "Position size exceeds limit"
  else None.

Definition updatePosition (f : Position -> Position) (symbol : string)
           (l : list Position) : list Position :=
  map (fun x => if String.eqb (pos_symbol x) symbol then f x else x) l.

Definition executeBuy (w : World) (p : t) (sg : TradingSignal) : t * World :=
  let (price, w) := priceOf w sg in
  let cost := quantity sg * price in
  let pf := with_cash (cash (portfolio p) - cost) (portfolio p) in
  match position_of (ts_symbol sg) (held p) with
  | Some existing =>
      let totalQuantity := pos_quantity existing + quantity sg in
      let totalCost := pos_quantity existing * entryPrice existing + cost in
      let averaged (x : Position) :=
        {| pos_symbol := pos_symbol x;
           pos_quantity := totalQuantity;
           entryPrice := totalCost / totalQuantity;
           currentPrice := currentPrice x;
           entryTime := entryTime x;
           pos_stopLoss := pos_stopLoss x;
           pos_takeProfit := pos_takeProfit x;
           pnl := pnl x;
           pnlPercentage := pnlPercentage x |} in
      ({| isInitialized := isInitialized p;
          portfolio := pf;
          held := updatePosition averaged (ts_symbol sg) (held p) |}, w)
  | None =>
      let (now, w) := Date_now w in
      let position :=
        {| pos_symbol := ts_symbol sg;
           pos_quantity := quantity sg;
           entryPrice := price;
           currentPrice := price;
           entryTime := now;
           pos_stopLoss := stopLoss sg;
           pos_takeProfit := takeProfit sg;
           pnl := 0;
           pnlPercentage := 0 |} in
      ({| isInitialized := isInitialized p;
          portfolio := pf;
          held := held p ++ [position] |}, w)
  end.

Definition executeSell (w : World) (p : t) (sg : TradingSignal)
  : result unit * t * World :=
  let (price, w) := priceOf w sg in
  match position_of (ts_symbol sg) (held p) with
  | None =>
      (Err ("Error: No position found for " ++ ts_symbol sg)%string, p, w)
  | Some position =>
      if ltb (pos_quantity position) (quantity sg)
      then (Err ("Error: Insufficient position size for "
                 ++ ts_symbol sg)%string, p, w)
      else
        let pf := with_cash (cash (portfolio p) + quantity sg * price)
                            (portfolio p) in
        let reduced (x : Position) :=
          {| pos_symbol := pos_symbol x;
             pos_quantity := pos_quantity x - quantity sg;
             entryPrice := entryPrice x;
             currentPrice := currentPrice x;
             entryTime := entryTime x;
             pos_stopLoss := pos_stopLoss x;
             pos_takeProfit := pos_takeProfit x;
             pnl := pnl x;
             pnlPercentage := pnlPercentage x |} in
        let held' :=
          if JS.eqb (pos_quantity position) (quantity sg)
          then filter (fun x => negb (String.eqb (pos_symbol x)
                                                 (ts_symbol sg))) (held p)
          else updatePosition reduced (ts_symbol sg) (held p) in
        (Ok tt, {| isInitialized := isInitialized p;
                   portfolio := pf;
                   held := held' |}, w)
  end.

(** The loop of [updatePortfolio]: reprice every position and add up. *)
Fixpoint reprice (w : World) (l : list Position) (totalValue totalPnL : Q)
  : list Position * Q * Q * World :=
  match l with
  | [] => ([], totalValue, totalPnL, w)
  | x :: rest =>
      let (currentPrice, w) := getCurrentPrice w (pos_symbol x) in
      let positionPnL := (currentPrice - entryPrice x) * pos_quantity x in
      let x' :=
        {| pos_symbol := pos_symbol x;
           pos_quantity := pos_quantity x;
           entryPrice := entryPrice x;
           currentPrice := currentPrice;
           entryTime := entryTime x;
           pos_stopLoss := pos_stopLoss x;
           pos_takeProfit := pos_takeProfit x;
           pnl := positionPnL;
           pnlPercentage :=
             (currentPrice - entryPrice x) / entryPrice x * 100 |} in
      let '(rest', totalValue, totalPnL, w) :=
        reprice w rest (totalValue + pos_quantity x * currentPrice)
                (totalPnL + positionPnL) in
      (x' :: rest', totalValue, totalPnL, w)
  end.

Definition updatePortfolio (w : World) (p : t) : t * World :=
  let '(held', totalValue, totalPnL, w) :=
    reprice w (held p) (cash (portfolio p)) 0 in
  let initial := pf_initialValue (portfolio p) in
  ({| isInitialized := isInitialized p;
      portfolio := {| pf_initialValue := initial;
                      pf_currentValue := totalValue;
                      totalPnL := totalPnL;
                      totalPnLPercentage :=
                        (totalValue - initial) / initial * 100;
                      positions := held';
                      cash := cash (portfolio p) |};
      held := held' |}, w).

Definition executeTrade (cfg : ConfigManager) (w : World) (p : t)
           (sg : TradingSignal) : result TradeExecution * t * World :=
  if negb (isInitialized p)
  then (Err "Portfolio manager not initialized", p, w)
  else match action sg with
  | hold => (Err "Cannot execute hold signal", p, w)
  | _ =>
      let (tradeId, w) := generateTradeId w in
      let (quoted, w) := priceOf w sg in
      let (now, w) := Date_now w in
      let execution (st : Status) (msg : string) :=
        {| te_id := tradeId;
           te_symbol := ts_symbol sg;
           te_action := action sg;
           te_quantity := quantity sg;
           te_price := quoted;
           te_timestamp := now;
           status := st;
           message := msg |} in
      match validateTrade cfg p sg with
      | Some reason =>
          (Ok (execution failed
                 ("Trade validation failed: " ++ reason)%string), p, w)
      | None =>
          let '(res, p, w) :=
            match action sg with
            | buy => let (p, w) := executeBuy w p sg in (Ok tt, p, w)
            | _ => executeSell w p sg
            end in
          match res with
          | Err e =>
              (Ok (execution failed
                     ("Trade execution error: " ++ e)%string), p, w)
          | Ok _ =>
              let (p, w) := updatePortfolio w p in
              (Ok (execution executed "Trade executed successfully"), p, w)
          end
      end
  end.

Definition getCurrentState (w : World) (p : t)
  : result Portfolio * t * World :=
  if negb (isInitialized p)
  then (Err "Portfolio manager not initialized", p, w)
  else let (p, w) := updatePortfolio w p in
       (Ok (portfolio p), p, w).

(** [closeAllPositions]: every position is sold at the current price. *)
Fixpoint closeEach (w : World) (l : list Position) (c : Q) : Q * World :=
  match l with
  | [] => (c, w)
  | x :: rest =>
      let (currentPrice, w) := getCurrentPrice w (pos_symbol x) in
      closeEach w rest (c + pos_quantity x * currentPrice)
  end.

Definition closeAllPositions (w : World) (p : t) : result unit * t * World :=
  if negb (isInitialized p)
  then (Err "Portfolio manager not initialized", p, w)
  else
    let (c, w) := closeEach w (held p) (cash (portfolio p)) in
    (Ok tt, {| isInitialized := isInitialized p;
               portfolio := with_cash c (portfolio p);
               held := [] |}, w).

End PortfolioManager.

(* ===================================================================== *)
(** ** PumpPandaAgent *)
(* ===================================================================== *)

Module PumpPandaAgent.

(** The calls that the agent makes on its execution provider and on the
    recall memory to store a record, in the order they are made. *)
Inductive Event : Type :=
| ExecuteTrade (sg : TradingSignal)
| RecordTrade (e : TradeExecution)
| RecordCycle (c : CycleData).

(** The fields of the class, the timers of the event loop, the
    environment, and the log of calls. *)
Record t : Type := {
  marketData : MarketDataManager.t;
  strategy : TradingStrategy.t;
  riskManager : RiskManager.t;
  portfolio : PortfolioManager.t;
  memory : RecallMemory.t;
  isRunning : bool;
  tradingInterval : option nat;
  performanceInterval : option nat;
  timers : Timers.t;
  world : World;
  trace : list Event
}.

Definition new (w : World) : t :=
  {| marketData := MarketDataManager.new;
     strategy := TradingStrategy.new;
     riskManager := RiskManager.new;
     portfolio := PortfolioManager.new;
     memory := RecallMemory.new;
     isRunning := false;
     tradingInterval := None;
     performanceInterval := None;
     timers := Timers.empty;
     world := w;
     trace := [] |}.

(** *** A state and exception monad over the agent *)

Definition M (A : Type) : Type := t -> result A * t.

Definition ret {A} (a : A) : M A := fun s => (Ok a, s).

Definition throw {A} (msg : string) : M A := fun s => (Err msg, s).

Definition bind {A B} (c : M A) (k : A -> M B) : M B :=
  fun s => match c s with
           | (Ok a, s') => k a s'
           | (Err msg, s') => (Err msg, s')
           end.

(** [try { c } catch (error) { log }]: the state reached at the throw is
    kept. *)
Definition try_ (c : M unit) : M unit :=
  fun s => match c s with
           | (Ok a, s') => (Ok a, s')
           | (Err _, s') => (Ok tt, s')
           end.

Declare Scope agent_scope.
Delimit Scope agent_scope with agent.
Notation "x <- c ;; k" := (bind c (fun x => k))
  (at level 61, c at next level, right associativity) : agent_scope.
Notation "c ;;; k" := (bind c (fun _ => k))
  (at level 61, right associativity) : agent_scope.
Local Open Scope agent_scope.

Definition get : M t := fun s => (Ok s, s).

Definition update (f : t -> t) : M unit := fun s => (Ok tt, f s).

Definition when (b : bool) (c : M unit) : M unit := if b then c else ret tt.

Fixpoint forEach {A} (l : list A) (body : A -> M unit) : M unit :=
  match l with
  | [] => ret tt
  | x :: rest => body x ;;; forEach rest body
  end.

(** *** Field updates *)

Definition set_marketData (x : MarketDataManager.t) (s : t) : t :=
  {| marketData := x; strategy := strategy s; riskManager := riskManager s;
     portfolio := portfolio s; memory := memory s; isRunning := isRunning s;
     tradingInterval := tradingInterval s;
     performanceInterval := performanceInterval s; timers := timers s;
     world := world s; trace := trace s |}.

Definition set_strategy (x : TradingStrategy.t) (s : t) : t :=
  {| marketData := marketData s; strategy := x; riskManager := riskManager s;
     portfolio := portfolio s; memory := memory s; isRunning := isRunning s;
     tradingInterval := tradingInterval s;
     performanceInterval := performanceInterval s; timers := timers s;
     world := world s; trace := trace s |}.

Definition set_riskManager (x : RiskManager.t) (s : t) : t :=
  {| marketData := marketData s; strategy := strategy s; riskManager := x;
     portfolio := portfolio s; memory := memory s; isRunning := isRunning s;
     tradingInterval := tradingInterval s;
     performanceInterval := performanceInterval s; timers := timers s;
     world := world s; trace := trace s |}.

Definition set_portfolio (x : PortfolioManager.t) (s : t) : t :=
  {| marketData := marketData s; strategy := strategy s;
     riskManager := riskManager s; portfolio := x; memory := memory s;
     isRunning := isRunning s; tradingInterval := tradingInterval s;
     performanceInterval := performanceInterval s; timers := timers s;
     world := world s; trace := trace s |}.

Definition set_memory (x : RecallMemory.t) (s : t) : t :=
  {| marketData := marketData s; strategy := strategy s;
     riskManager := riskManager s; portfolio := portfolio s; memory := x;
     isRunning := isRunning s; tradingInterval := tradingInterval s;
     performanceInterval := performanceInterval s; timers := timers s;
     world := world s; trace := trace s |}.

Definition set_isRunning (x : bool) (s : t) : t :=
  {| marketData := marketData s; strategy := strategy s;
     riskManager := riskManager s; portfolio := portfolio s;
     memory := memory s; isRunning := x;
     tradingInterval := tradingInterval s;
     performanceInterval := performanceInterval s; timers := timers s;
     world := world s; trace := trace s |}.

Definition set_tradingInterval (x : option nat) (s : t) : t :=
  {| marketData := marketData s; strategy := strategy s;
     riskManager := riskManager s; portfolio := portfolio s;
     memory := memory s; isRunning := isRunning s; tradingInterval := x;
     performanceInterval := performanceInterval s; timers := timers s;
     world := world s; trace := trace s |}.

Definition set_performanceInterval (x : option nat) (s : t) : t :=
  {| marketData := marketData s; strategy := strategy s;
     riskManager := riskManager s; portfolio := portfolio s;
     memory := memory s; isRunning := isRunning s;
     tradingInterval := tradingInterval s; performanceInterval := x;
     timers := timers s; world := world s; trace := trace s |}.

Definition set_timers (x : Timers.t) (s : t) : t :=
  {| marketData := marketData s; strategy := strategy s;
     riskManager := riskManager s; portfolio := portfolio s;
     memory := memory s; isRunning := isRunning s;
     tradingInterval := tradingInterval s;
     performanceInterval := performanceInterval s; timers := x;
     world := world s; trace := trace s |}.

Definition set_world (x : World) (s : t) : t :=
  {| marketData := marketData s; strategy := strategy s;
     riskManager := riskManager s; portfolio := portfolio s;
     memory := memory s; isRunning := isRunning s;
     tradingInterval := tradingInterval s;
     performanceInterval := performanceInterval s; timers := timers s;
     world := x; trace := trace s |}.

Definition log (e : Event) : M unit :=
  update (fun s =>
    {| marketData := marketData s; strategy := strategy s;
       riskManager := riskManager s; portfolio := portfolio s;
       memory := memory s; isRunning := isRunning s;
       tradingInterval := tradingInterval s;
       performanceInterval := performanceInterval s; timers := timers s;
       world := world s; trace := trace s ++ [e] |}).

(** *** Calls into the components *)

Definition liftResult {A} (r : result A) : M A :=
  match r with
  | Ok a => ret a
  | Err msg => throw msg
  end.

Definition newDate : M Z :=
  fun s => let (now, w) := Date_now (world s) in (Ok now, set_world w s).

Definition getCurrentData (cfg : ConfigManager) : M (list MarketData) :=
  fun s =>
    let (r, w) :=
      MarketDataManager.getCurrentData cfg (marketData s) (world s) in
    liftResult r (set_world w s).

Definition analyzeMarket (allMarketData : list MarketData)
  : M (list MarketAnalysis) :=
  fun s =>
    let '(r, m, w) :=
      TradingStrategy.analyzeMarket (strategy s) (world s) (memory s)
                                    allMarketData in
    liftResult r (set_world w (set_memory m s)).

(** The agent passes its [PortfolioManager] object itself as the
    [portfolio] argument of [assessRisk]; the object has no property named
    [initialValue] or [currentValue]. *)
Definition managerAsPortfolio (p : PortfolioManager.t)
  : option RiskManager.PortfolioLike :=
  Some {| RiskManager.initialValue := None;
          RiskManager.currentValue := None |}.

Definition assessRisk (cfg : ConfigManager) (analysis : list MarketAnalysis)
  : M RiskAssessment :=
  fun s =>
    liftResult (RiskManager.assessRisk cfg (riskManager s) (Some analysis)
                  (managerAsPortfolio (portfolio s))) s.

Definition generateSignals (cfg : ConfigManager)
           (analysis : list MarketAnalysis) (riskAssessment : RiskAssessment)
  : M (list TradingSignal) :=
  fun s =>
    let (r, w) :=
      TradingStrategy.generateSignals cfg (strategy s) (world s) analysis
                                      riskAssessment in
    liftResult r (set_world w s).

Definition signalAsAny (sg : TradingSignal) : RiskManager.SignalLike :=
  {| RiskManager.sl_quantity := quantity sg;
     RiskManager.sl_price := price sg;
     RiskManager.sl_confidence := ts_confidence sg;
     RiskManager.sl_stopLoss := stopLoss sg;
     RiskManager.sl_takeProfit := takeProfit sg |}.

Definition validateSignal (cfg : ConfigManager) (sg : TradingSignal)
  : M RiskManager.SignalValidation :=
  fun s =>
    liftResult (RiskManager.validateSignal cfg (riskManager s)
                  (signalAsAny sg)) s.

Definition executeTrade (cfg : ConfigManager) (sg : TradingSignal)
  : M TradeExecution :=
  log (ExecuteTrade sg) ;;;
  fun s =>
    let '(r, p, w) :=
      PortfolioManager.executeTrade cfg (world s) (portfolio s) sg in
    liftResult r (set_world w (set_portfolio p s)).

Definition getCurrentState : M Portfolio :=
  fun s =>
    let '(r, p, w) :=
      PortfolioManager.getCurrentState (world s) (portfolio s) in
    liftResult r (set_world w (set_portfolio p s)).

Definition recordTrade (execution : TradeExecution) : M string :=
  log (RecordTrade execution) ;;;
  fun s =>
    let '(rid, m, w) :=
      RecallMemory.recordTrade (world s) (memory s) (PTrade execution) in
    (Ok rid, set_world w (set_memory m s)).

Definition recordCycle (c : CycleData) : M string :=
  log (RecordCycle c) ;;;
  fun s =>
    let '(rid, m, w) :=
      RecallMemory.recordCycle (world s) (memory s) (PCycle c) in
    (Ok rid, set_world w (set_memory m s)).

(** *** The trading cycle *)

Definition executeTrades (cfg : ConfigManager) (signals : list TradingSignal)
  : M unit :=
  forEach signals (fun sg =>
    try_ (validation <- validateSignal cfg sg ;;
          when (RiskManager.isValid validation)
               (execution <- executeTrade cfg sg ;;
                recordTrade execution ;;;
                ret tt))).

(** The first loop of [executeTradingCycle]: one fetch per enabled chain,
    a failed fetch being logged and skipped. *)
Fixpoint fetchAll (cfg : ConfigManager) (enabledChains : list string)
         (allMarketData : list MarketData) : M (list MarketData) :=
  match enabledChains with
  | [] => ret allMarketData
  | chain :: rest =>
      fun s =>
        match getCurrentData cfg s with
        | (Ok chainData, s') =>
            fetchAll cfg rest (allMarketData ++ chainData) s'
        | (Err _, s') => fetchAll cfg rest allMarketData s'
        end
  end.

Definition executeTradingCycle (cfg : ConfigManager) : M unit :=
  allMarketData <- fetchAll cfg (getEnabledBlockchains cfg) [] ;;
  match allMarketData with
  | [] => ret tt
  | _ =>
      analysis <- analyzeMarket allMarketData ;;
      riskAssessment <- assessRisk cfg analysis ;;
      when (isAcceptable riskAssessment)
           (signals <- generateSignals cfg analysis riskAssessment ;;
            match signals with
            | [] => ret tt
            | _ => executeTrades cfg signals
            end) ;;;
      now <- newDate ;;
      state <- getCurrentState ;;
      recordCycle {| cd_timestamp := now;
                     cd_marketData := allMarketData;
                     cd_analysis := analysis;
                     cd_riskAssessment := riskAssessment;
                     cd_portfolio := state |} ;;;
      ret tt
  end.

(** *** The meme-token scan *)

Definition getTokenData (token : string) : M MarketData :=
  fun s =>
    let (r, w) :=
      MarketDataManager.getTokenData (marketData s) (world s) token in
    liftResult r (set_world w s).

Definition findTrendingTokens (cfg : ConfigManager) : list string :=
  let config := getMemeTokenHuntingConfig cfg in
  filter (fun token => negb (mem token (blacklistedTokens config)))
         (trendingTokens config).

(** [executeMemeTokenTrade] hands the one-element array that holds the
    market sample to [assessRisk] and to [generateSignals], where
    classifications are expected.  The sample has no [riskLevel],
    [confidence] or [trend]: [assessRisk] finds no entry of high risk,
    and [generateSignalForSymbol] passes both rejection tests, selects
    hold and returns [null] without reading the clock.  Both calls behave
    as on the empty list of classifications. *)
Definition executeMemeTokenTrade (cfg : ConfigManager) : M unit :=
  try_ (riskAssessment <- assessRisk cfg [] ;;
        when (isAcceptable riskAssessment)
             (signals <- generateSignals cfg [] riskAssessment ;;
              match signals with
              | [] => ret tt
              | _ => executeTrades cfg signals
              end)).

Definition analyzeTrendingTokens (cfg : ConfigManager)
           (tokens : list string) : M unit :=
  forEach tokens (fun token =>
    try_ (sample <- getTokenData token ;;
          analysis <- analyzeMarket [sample] ;;
          match analysis with
          | first :: _ =>
              when (Trend_eqb (trend first) bullish
                    && autoBuy (getMemeTokenHuntingConfig cfg))
                   (executeMemeTokenTrade cfg)
          | [] => ret tt
          end)).

Definition scanForMemeTokens (cfg : ConfigManager) : M unit :=
  forEach (getEnabledBlockchains cfg) (fun chain =>
    try_ (match findTrendingTokens cfg with
          | [] => ret tt
          | tokens => analyzeTrendingTokens cfg tokens
          end)).

(** *** Life cycle and timers *)

(** [initialize]: the components in order; the first failure is rethrown
    and leaves the later components untouched.  [chainOk] is the outcome
    of the blockchain set-up inside [PortfolioManager.initialize]. *)
Definition initialize (chainOk : bool) : M unit :=
  update (fun s => set_marketData
                     (MarketDataManager.initialize (marketData s)) s) ;;;
  update (fun s => set_strategy
                     (TradingStrategy.initialize (strategy s)) s) ;;;
  update (fun s => set_riskManager
                     (RiskManager.initialize (riskManager s)) s) ;;;
  (fun s => let (r, p) :=
              PortfolioManager.initialize chainOk (portfolio s) in
            liftResult r (set_portfolio p s)) ;;;
  update (fun s => set_memory (RecallMemory.initialize (memory s)) s).

Definition setInterval (cb : Timers.Callback) (ms : Z) : M nat :=
  fun s => let (h, tm) := Timers.setInterval cb ms (timers s) in
           (Ok h, set_timers tm s).

Definition clearInterval (h : nat) : M unit :=
  update (fun s => set_timers (Timers.clearInterval h (timers s)) s).

Definition startTradingLoop (cfg : ConfigManager) : M unit :=
  h <- setInterval Timers.TradingLoop (getTradingInterval cfg) ;;
  update (set_tradingInterval (Some h)).

Definition startMemeTokenHunting (cfg : ConfigManager) : M unit :=
  let config := getMemeTokenHuntingConfig cfg in
  if negb (enabled config) then ret tt
  else
    h <- setInterval Timers.MemeTokenHunting (scanInterval config) ;;
    update (set_tradingInterval (Some h)).

Definition startPerformanceMonitoring (cfg : ConfigManager) : M unit :=
  h <- setInterval Timers.PerformanceMonitoring
                   (getPerformanceMonitoringInterval cfg) ;;
  update (set_performanceInterval (Some h)).

Definition startStreaming (cfg : ConfigManager) : M unit :=
  fun s =>
    let '(r, m, tm) :=
      MarketDataManager.startStreaming cfg (marketData s) (timers s) in
    liftResult r (set_timers tm (set_marketData m s)).

Definition start (cfg : ConfigManager) : M unit :=
  fun s =>
    if isRunning s then (Ok tt, s)
    else
      match (startStreaming cfg ;;;
             startTradingLoop cfg ;;;
             startMemeTokenHunting cfg ;;;
             startPerformanceMonitoring cfg) (set_isRunning true s) with
      | (Ok a, s') => (Ok a, s')
      | (Err msg, s') => (Err msg, set_isRunning false s')
      end.

Definition pause : M unit := update (set_isRunning false).

Definition resume (cfg : ConfigManager) : M unit :=
  fun s =>
    if isRunning s then (Ok tt, s)
    else (startTradingLoop cfg ;;;
          startMemeTokenHunting cfg) (set_isRunning true s).

(** The guard shared by the trading-loop and the meme-token callbacks:
    when the agent is not running, clear the interval held in
    [tradingInterval], if any, and return. *)
Definition selfCancel : M unit :=
  s <- get ;;
  match tradingInterval s with
  | Some h => clearInterval h ;;; update (set_tradingInterval None)
  | None => ret tt
  end.

(** One run of the callback of an armed timer.  The performance tracker
    keeps its own state and writes its reports to files; its run is not
    modelled. *)
Definition runCallback (cfg : ConfigManager) (cb : Timers.Callback)
  : M unit :=
  s <- get ;;
  match cb with
  | Timers.TradingLoop =>
      if negb (isRunning s) then selfCancel
      else try_ (executeTradingCycle cfg)
  | Timers.MemeTokenHunting =>
      if negb (isRunning s) then selfCancel
      else try_ (scanForMemeTokens cfg)
  | Timers.PerformanceMonitoring =>
      ret tt
  | Timers.MockDataStream =>
      if negb (MarketDataManager.isStreaming (marketData s)) then ret tt
      else fun s =>
             let (_, w) :=
               MarketDataManager.generateMockData (world s)
                                                  (getSymbols cfg) in
             (Ok tt, set_world w s)
  end.

(** The event loop fires the timer with handle [h], if it is armed. *)
Definition fire (cfg : ConfigManager) (h : nat) : M unit :=
  s <- get ;;
  match Timers.armed h (timers s) with
  | Some timer => runCallback cfg (Timers.callback timer)
  | None => ret tt
  end.

Definition shutdown : M unit :=
  update (set_isRunning false) ;;;
  try_ (s <- get ;;
        match tradingInterval s with
        | Some h => clearInterval h ;;; update (set_tradingInterval None)
        | None => ret tt
        end ;;;
        s <- get ;;
        match performanceInterval s with
        | Some h => clearInterval h ;;; update (set_performanceInterval None)
        | None => ret tt
        end ;;;
        update (fun s =>
                  let (m, tm) :=
                    MarketDataManager.stopStreaming (marketData s)
                                                    (timers s) in
                  set_timers tm (set_marketData m s)) ;;;
        (fun s =>
           let '(r, p, w) :=
             PortfolioManager.closeAllPositions (world s) (portfolio s) in
           liftResult r (set_world w (set_portfolio p s))) ;;;
        update (fun s => set_memory (RecallMemory.save (memory s)) s)).

(** The state that a successful [initialize] establishes, as far as the
    trading cycle depends on it. *)
Definition Initialized (s : t) : Prop :=
  MarketDataManager.isInitialized (marketData s) = true
  /\ TradingStrategy.isInitialized (strategy s) = true
  /\ RiskManager.isInitialized (riskManager s) = true
  /\ PortfolioManager.isInitialized (portfolio s) = true
  /\ RecallMemory.isInitialized (memory s) = true.



End PumpPandaAgent.

(* ===================================================================== *)
(** ** Vocabulary of the statements *)
(* ===================================================================== *)

(** The significand and the value of the double nearest to a positive
    number, and the numbers that are doubles. *)
Definition mant (a : Q) : Z := nearest_even (a / 2 ^ quantum a).

Definition flp (a : Q) : Q := inject_Z (mant a) * 2 ^ quantum a.

Definition binary64 (x : Q) : Prop :=
  exists m q, (Z.abs m <= 2 ^ 53)%Z /\ (-1074 <= q)%Z
              /\ x == inject_Z m * 2 ^ q.

(** The doubles of the machine, for comparison: the value of a finite
    double, and the double that the decimal numeral [n / d] denotes, for
    [n] and [d] below [2 ^ 53]. *)
Definition machineValue (f : PrimFloat.float) : option Q :=
  match FloatOps.Prim2SF f with
  | SpecFloat.S754_zero _ => Some 0
  | SpecFloat.S754_finite s m e =>
      Some (Qred ((if s then -1 else 1) * inject_Z (Zpos m) * 2 ^ e))
  | _ => None
  end.

Definition machineDecimal (n d : Z) : PrimFloat.float :=
  PrimFloat.div (PrimFloat.of_uint63 (Uint63.of_Z n))
                (PrimFloat.of_uint63 (Uint63.of_Z d)).

(** A number far from the limits of the double format, which reaches
    [2 ^ 1024]: sums, differences and products of two or three such
    numbers do not overflow. *)
Definition moderate (x : Q) : Prop := Qabs x <= 2 ^ 500.

(** The points a risk factor adds to a score. *)
Definition points (factor : bool) (n : Z) : Z := if factor then n else 0%Z.

(** A property that is absent or holds the number zero. *)
Definition absentOrZero (v : option Q) : Prop :=
  match v with
  | None => True
  | Some q => q == 0
  end.

(** Some classification of the list is of high risk. *)
Definition someHigh (analysis : option (list MarketAnalysis)) : Prop :=
  exists l a, analysis = Some l /\ In a l /\ ma_riskLevel a = high.

(** A classification passes the rejection rules of the signal generator
    and selects an action. *)
Definition selects (analysis : MarketAnalysis) (ra : RiskAssessment)
           (act : Action) : Prop :=
  ~ (ma_riskLevel analysis = high /\ riskLevel ra = high)
  /\ 4 # 10 <= confidence analysis
  /\ ((act = buy /\ trend analysis = bullish
       /\ exists s, In s (signals analysis) /\ includes s "bullish" = true)
      \/ (act = sell /\ trend analysis = bearish
          /\ exists s, In s (signals analysis)
                       /\ includes s "bearish" = true)).

(** Sample data of the examples. *)
Definition world0 : World :=
  {| clock := fun n => (Z.of_nat n + 1700000000000)%Z;
     clock_pos := 0;
     random_value := fun _ => 1 # 2;
     random_suffix := fun _ => "k3j9x0q2z";
     random_pos := 0 |}.

Definition noHunting : MemeTokenHuntingConfig :=
  {| enabled := false; scanInterval := 60000; autoBuy := false;
     trendingTokens := []; blacklistedTokens := [] |}.

Definition hunting : MemeTokenHuntingConfig :=
  {| enabled := true; scanInterval := 30000; autoBuy := false;
     trendingTokens := ["PEPE"]; blacklistedTokens := [] |}.

(** A configuration whose maximum position size is 1000. *)
Definition config1000 : ConfigManager :=
  {| getTradingInterval := 60000;
     getUpdateInterval := 5000;
     getPerformanceMonitoringInterval := 300000;
     getSymbols := ["BTC/USD"];
     getEnabledBlockchains := ["ethereum"];
     getMaxPositionSize := 1000;
     getMaxDailyLoss := 1000;
     getMaxDrawdown := 5 # 100;
     getStopLossPercentage := 2 # 100;
     getTakeProfitPercentage := 4 # 100;
     getMaxOpenPositions := 5;
     retentionDays := 30;
     getMemeTokenHuntingConfig := noHunting |}.

(** The same configuration with another maximum position size. *)
Definition configSized (size : Q) : ConfigManager :=
  {| getTradingInterval := 60000;
     getUpdateInterval := 5000;
     getPerformanceMonitoringInterval := 300000;
     getSymbols := ["BTC/USD"];
     getEnabledBlockchains := ["ethereum"];
     getMaxPositionSize := size;
     getMaxDailyLoss := 1000;
     getMaxDrawdown := 5 # 100;
     getStopLossPercentage := 2 # 100;
     getTakeProfitPercentage := 4 # 100;
     getMaxOpenPositions := 5;
     retentionDays := 30;
     getMemeTokenHuntingConfig := noHunting |}.

Definition bullishAt (c : Q) : MarketAnalysis :=
  {| ma_symbol := "BTC/USD";
     trend := bullish;
     strength := 5 # 10;
     confidence := c;
     signals := ["rsi_oversold"; "macd_bullish"; "price_above_ma"];
     ma_riskLevel := low |}.

Definition assessmentOf (level : RiskLevel) (score : Z) (size : Q)
  : RiskAssessment :=
  {| isAcceptable := (score <? 70)%Z;
     riskLevel := level;
     riskScore := score;
     warnings := [];
     maxPositionSize := size |}.

(** A risk manager whose only breached limit is the daily loss, and
    portfolios without and with a total loss. *)
Definition lossOnly : RiskManager.t :=
  {| RiskManager.isInitialized := true;
     RiskManager.dailyLoss := 1000;
     RiskManager.openPositions := 0 |}.

Definition evenPortfolio : option RiskManager.PortfolioLike :=
  Some {| RiskManager.initialValue := Some 100000;
          RiskManager.currentValue := Some 100000 |}.

Definition wipedOut : RiskManager.PortfolioLike :=
  {| RiskManager.initialValue := Some 100000;
     RiskManager.currentValue := Some 0 |}.

(** A portfolio that has lost a tenth of its value, and one that has
    lost the twentieth part of a value of 1. *)
Definition fallen : option RiskManager.PortfolioLike :=
  Some {| RiskManager.initialValue := Some 100000;
          RiskManager.currentValue := Some 90000 |}.

Definition onTheLine : option RiskManager.PortfolioLike :=
  Some {| RiskManager.initialValue := Some 1;
          RiskManager.currentValue := Some (95 # 100) |}.

(** The drawdown of a portfolio exceeds a limit, as [assessRisk] decides
    it: the limit is negative; or the portfolio has an initial and a
    current value, neither of them zero, and the loss divided by the
    initial value, difference and quotient being those of doubles, is
    above the limit. *)
Definition breaches (limit : Q)
           (portfolio : option RiskManager.PortfolioLike) : Prop :=
  fl limit < 0
  \/ exists p i c,
       portfolio = Some p
       /\ RiskManager.initialValue p = Some i
       /\ RiskManager.currentValue p = Some c
       /\ ~ i == 0 /\ ~ c == 0
       /\ fl limit < fdiv (fsub i c) i.

(** The values of a portfolio, where present, are moderate. *)
Definition moderateValue (v : option Q) : Prop :=
  match v with
  | Some q => moderate q
  | None => True
  end.

Definition moderatePortfolio (portfolio : option RiskManager.PortfolioLike)
  : Prop :=
  match portfolio with
  | Some p => moderateValue (RiskManager.initialValue p)
              /\ moderateValue (RiskManager.currentValue p)
  | None => True
  end.

(** A risk manager without losses or positions, and a configuration whose
    drawdown limit is negative. *)
Definition idleManager : RiskManager.t :=
  RiskManager.initialize RiskManager.new.

Definition negativeLimit : ConfigManager :=
  {| getTradingInterval := 60000;
     getUpdateInterval := 5000;
     getPerformanceMonitoringInterval := 300000;
     getSymbols := ["BTC/USD"];
     getEnabledBlockchains := ["ethereum"];
     getMaxPositionSize := 1000;
     getMaxDailyLoss := 1000;
     getMaxDrawdown := - (1 # 100);
     getStopLossPercentage := 2 # 100;
     getTakeProfitPercentage := 4 # 100;
     getMaxOpenPositions := 5;
     retentionDays := 30;
     getMemeTokenHuntingConfig := noHunting |}.

(** The order that C3 states for a record [a] ahead of a record [b]. *)
Definition rankedBefore (a b : RecallMemory.MemoryRecord) : Prop :=
  let gap := Qabs (RecallMemory.importance a - RecallMemory.importance b) in
  let apart :=
    Z.abs (RecallMemory.timestamp a - RecallMemory.timestamp b) in
  (1 # 10 < gap -> RecallMemory.importance b < RecallMemory.importance a)
  /\ (gap <= 1 # 10 -> (60000 < apart)%Z ->
      (RecallMemory.timestamp b < RecallMemory.timestamp a)%Z)
  /\ (gap <= 1 # 10 -> (apart <= 60000)%Z ->
      (RecallMemory.accessCount b <= RecallMemory.accessCount a)%Z).

Definition rankedBeforeb (a b : RecallMemory.MemoryRecord) : bool :=
  if gtb (Qabs (RecallMemory.importance a - RecallMemory.importance b))
         (1 # 10)
  then ltb (RecallMemory.importance b) (RecallMemory.importance a)
  else if (60000 <? Z.abs (RecallMemory.timestamp a
                           - RecallMemory.timestamp b))%Z
  then (RecallMemory.timestamp b <? RecallMemory.timestamp a)%Z
  else (RecallMemory.accessCount b <=? RecallMemory.accessCount a)%Z.

(** The sample shares no property name with the payload of the record. *)
Definition disjointFields (sampleData : Payload)
           (r : RecallMemory.MemoryRecord) : Prop :=
  forall key, In key (keys sampleData) ->
              ~ In key (keys (RecallMemory.data r)).

(** The query without any filter. *)
Definition everything : RecallMemory.RecallQuery :=
  {| RecallMemory.q_type := None;
     RecallMemory.q_tags := None;
     RecallMemory.q_timeRange := None;
     RecallMemory.q_importance := None;
     RecallMemory.q_limit := None |}.

(** An environment whose clock advances ten seconds per reading and whose
    random suffixes are all different. *)
Definition paced : World :=
  {| clock := fun n => (Z.of_nat n * 10000 + 1700000000000)%Z;
     clock_pos := 0;
     random_value := fun _ => 1 # 2;
     random_suffix := fun n => string_of_Z (Z.of_nat n);
     random_pos := 0 |}.

(** Three cycle records stored forty and fifty seconds apart, with a
    query after the first and after the second insertion; then the query
    whose answer is examined. *)
Definition bandScenario
  : result (list RecallMemory.MemoryRecord) * RecallMemory.t * World :=
  let st := RecallMemory.initialize RecallMemory.new in
  let '(_, st, w) := RecallMemory.recordCycle paced st (PObject []) in
  let '(_, st, w) := RecallMemory.recall w st everything in
  let '(_, st, w) := RecallMemory.recordCycle w st (PObject []) in
  let '(_, st, w) := RecallMemory.recall w st everything in
  let '(_, st, w) := RecallMemory.recordCycle w st (PObject []) in
  RecallMemory.recall w st everything.

(** A market event with a price, and a sample that only has a volume. *)
Definition pricedEvent : Payload :=
  PObject [("type", JStr "spike"); ("symbol", JStr "PEPE");
           ("price", JNum 100)].

Definition volumeSample : Payload := PObject [("volume", JNum 5)].

Definition similarScenario
  : result (list RecallMemory.MemoryRecord) * RecallMemory.t * World :=
  let st := RecallMemory.initialize RecallMemory.new in
  let '(_, st, w) := RecallMemory.recordMarketEvent paced st pricedEvent in
  RecallMemory.recallSimilar w st volumeSample "market_event" 10.

(** An environment whose clock and random source are stuck. *)
Definition stuck : World :=
  {| clock := fun _ => 1700000000000%Z;
     clock_pos := 0;
     random_value := fun _ => 1 # 2;
     random_suffix := fun _ => "k3j9x0q2z";
     random_pos := 0 |}.

(** The four insertions, and a run of them. *)
Inductive Insertion : Type :=
| InsertCycle (d : Payload)
| InsertTrade (d : Payload)
| InsertSignal (d : Payload)
| InsertMarketEvent (d : Payload).

Definition insert (w : World) (st : RecallMemory.t) (op : Insertion)
  : string * RecallMemory.t * World :=
  match op with
  | InsertCycle d => RecallMemory.recordCycle w st d
  | InsertTrade d => RecallMemory.recordTrade w st d
  | InsertSignal d => RecallMemory.recordSignal w st d
  | InsertMarketEvent d => RecallMemory.recordMarketEvent w st d
  end.

Fixpoint insertAll (w : World) (st : RecallMemory.t) (ops : list Insertion)
  : list string * RecallMemory.t * World :=
  match ops with
  | [] => ([], st, w)
  | op :: rest =>
      let '(rid, st, w) := insert w st op in
      let '(ids, st, w) := insertAll w st rest in
      (rid :: ids, st, w)
  end.

(** The environment after one insertion: three clock readings and one
    random draw further. *)
Definition afterInsert (w : World) : World :=
  {| clock := clock w;
     clock_pos := S (S (S (clock_pos w)));
     random_value := random_value w;
     random_suffix := random_suffix w;
     random_pos := S (random_pos w) |}.

(** The id that the next insertion will be given, and the ids of the next
    [n] insertions. *)
Definition nextId (w : World) : string :=
  (string_of_Z (clock w (clock_pos w)) ++ "-"
   ++ random_suffix w (random_pos w))%string.

(** The pairs (clock reading, random suffix) from which the next [n]
    insertions make their ids. *)
Fixpoint draws (w : World) (n : nat) : list (Z * string) :=
  match n with
  | O => []
  | S n => (clock w (clock_pos w), random_suffix w (random_pos w))
           :: draws (afterInsert w) n
  end.

Definition render (draw : Z * string) : string :=
  (string_of_Z (fst draw) ++ "-" ++ snd draw)%string.

(** A string without the character [-]. *)
Fixpoint dashless (s : string) : bool :=
  match s with
  | EmptyString => true
  | String c rest => negb (Ascii.eqb c "-") && dashless rest
  end.

(** The records that the last query of [bandScenario] returns, and the
    record that [similarScenario] returns. *)
Definition bandRecord (rid : string) (created count accessed : Z)
  : RecallMemory.MemoryRecord :=
  {| RecallMemory.id := rid;
     RecallMemory.timestamp := created;
     RecallMemory.type := RecallMemory.cycle;
     RecallMemory.data := PObject [];
     RecallMemory.tags := [JStr "trading_cycle"; JStr "market_analysis"];
     RecallMemory.importance := 7 # 10;
     RecallMemory.accessCount := count;
     RecallMemory.lastAccessed := accessed |}.

Definition oldest : RecallMemory.MemoryRecord :=
  bandRecord "1700000000000-0" 1700000010000 3 1700000120000.

Definition middle : RecallMemory.MemoryRecord :=
  bandRecord "1700000040000-1" 1700000050000 2 1700000130000.

Definition newest : RecallMemory.MemoryRecord :=
  bandRecord "1700000090000-2" 1700000100000 1 1700000140000.

Definition storedEvent : RecallMemory.MemoryRecord :=
  {| RecallMemory.id := "1700000000000-0";
     RecallMemory.timestamp := 1700000010000;
     RecallMemory.type := RecallMemory.market_event;
     RecallMemory.data := pricedEvent;
     RecallMemory.tags := [JStr "market_event"; JStr "spike"; JStr "PEPE"];
     RecallMemory.importance := 6 # 10;
     RecallMemory.accessCount := 1;
     RecallMemory.lastAccessed := 1700000030000 |}.

(** The memory and the environment after the event has been stored. *)
Definition eventMemory : RecallMemory.t :=
  snd (fst (RecallMemory.recordMarketEvent
              paced (RecallMemory.initialize RecallMemory.new) pricedEvent)).

Definition eventWorld : World :=
  snd (RecallMemory.recordMarketEvent
         paced (RecallMemory.initialize RecallMemory.new) pricedEvent).

Definition eventQuery
  : result (list RecallMemory.MemoryRecord) * RecallMemory.t * World :=
  RecallMemory.recall eventWorld eventMemory
    {| RecallMemory.q_type := Some "market_event";
       RecallMemory.q_tags := None;
       RecallMemory.q_timeRange := None;
       RecallMemory.q_importance := None;
       RecallMemory.q_limit := Some 100%nat |}.

(** A memory restored from a file that holds an old record of low
    importance next to a recent one. *)
Definition staleRecord : RecallMemory.MemoryRecord :=
  {| RecallMemory.id := "1600000000000-a1b2c3d4e";
     RecallMemory.timestamp := 1600000000000;
     RecallMemory.type := RecallMemory.market_event;
     RecallMemory.data := pricedEvent;
     RecallMemory.tags := [JStr "market_event"; JStr "spike"; JStr "PEPE"];
     RecallMemory.importance := 3 # 10;
     RecallMemory.accessCount := 0;
     RecallMemory.lastAccessed := 1600000000000 |}.

Definition restoredMemory : RecallMemory.t :=
  RecallMemory.initialize
    {| RecallMemory.memory := [];
       RecallMemory.index := [];
       RecallMemory.isInitialized := false;
       RecallMemory.disk := Some [staleRecord; storedEvent] |}.

(** A memory restored from a file that holds a record of low importance
    from thirty days and half an hour before 2023-11-14 22:13:20 UTC. *)
Definition borderRecord : RecallMemory.MemoryRecord :=
  {| RecallMemory.id := "1697406200000-a1b2c3d4e";
     RecallMemory.timestamp := 1697406200000;
     RecallMemory.type := RecallMemory.market_event;
     RecallMemory.data := pricedEvent;
     RecallMemory.tags := [JStr "market_event"; JStr "spike"; JStr "PEPE"];
     RecallMemory.importance := 3 # 10;
     RecallMemory.accessCount := 0;
     RecallMemory.lastAccessed := 1697406200000 |}.

Definition borderMemory : RecallMemory.t :=
  RecallMemory.initialize
    {| RecallMemory.memory := [];
       RecallMemory.index := [];
       RecallMemory.isInitialized := false;
       RecallMemory.disk := Some [borderRecord; storedEvent] |}.

(** Two insertions while the clock and the random source are stuck. *)
Definition collidingInserts : list string * RecallMemory.t * World :=
  insertAll stuck (RecallMemory.initialize RecallMemory.new)
            [InsertCycle (PObject [("n", JNum 1)]);
             InsertSignal (PObject [("n", JNum 2)])].

(** An environment in which the mock sample of the first symbol has a
    positive MACD and a price below its moving average. *)
Definition calm : World :=
  {| clock := fun n => (Z.of_nat n + 1700000000000)%Z;
     clock_pos := 0;
     random_value := fun n => match n with
                              | 3%nat | 4%nat => 6 # 10
                              | _ => 1 # 2
                              end;
     random_suffix := fun n => string_of_Z (Z.of_nat n);
     random_pos := 0 |}.

(** The configuration of the examples with meme-token hunting enabled. *)
Definition configHunting : ConfigManager :=
  {| getTradingInterval := 60000;
     getUpdateInterval := 5000;
     getPerformanceMonitoringInterval := 300000;
     getSymbols := ["BTC/USD"];
     getEnabledBlockchains := ["ethereum"];
     getMaxPositionSize := 1000;
     getMaxDailyLoss := 1000;
     getMaxDrawdown := 5 # 100;
     getStopLossPercentage := 2 # 100;
     getTakeProfitPercentage := 4 # 100;
     getMaxOpenPositions := 5;
     retentionDays := 30;
     getMemeTokenHuntingConfig := hunting |}.

(** An agent after a successful [initialize], and after [start]. *)
Definition readyAgent : PumpPandaAgent.t :=
  snd (PumpPandaAgent.initialize true (PumpPandaAgent.new calm)).

Definition startedAgent : PumpPandaAgent.t :=
  snd (PumpPandaAgent.start configHunting readyAgent).

(** A running agent without meme-token hunting, and the samples and the
    classifications of its first tick. *)
Definition runningAgent : PumpPandaAgent.t :=
  snd (PumpPandaAgent.start config1000 readyAgent).

Definition firstSamples : list MarketData :=
  match fst (PumpPandaAgent.fetchAll config1000
               (getEnabledBlockchains config1000) [] runningAgent) with
  | Ok l => l
  | Err _ => []
  end.

Definition firstAnalysis : list MarketAnalysis :=
  match fst (PumpPandaAgent.analyzeMarket firstSamples
               (snd (PumpPandaAgent.fetchAll config1000
                       (getEnabledBlockchains config1000) []
                       runningAgent)))
  with
  | Ok l => l
  | Err _ => []
  end.




(** The started agent after [pause] and one tick of the trading-loop
    timer, and after [shutdown]. *)
Definition pausedThenTicked : PumpPandaAgent.t :=
  snd (PumpPandaAgent.fire configHunting 2
         (snd (PumpPandaAgent.pause startedAgent))).

Definition shutDown : PumpPandaAgent.t :=
  snd (PumpPandaAgent.shutdown startedAgent).

(** Three insertions in the paced environment. *)
Definition threeInserts : list Insertion :=
  [InsertCycle (PObject [("n", JNum 1)]);
   InsertTrade (PObject [("symbol", JStr "PEPE"); ("action", JStr "buy")]);
   InsertSignal (PObject [("symbol", JStr "PEPE");
                          ("strategy", JStr "recall_enhanced")])].


(** For a comparison function [cmp], [y] may stand right after [x]: the
    comparison does not put [x] after [y]. *)
Definition follows {A} (cmp : A -> A -> Q) (y x : A) : Prop :=
  gtb (cmp x y) 0 = false.

(** A record passes the filters that a query carries, as [recall] applies
    them: an empty type string and an empty tag list filter nothing. *)
Definition admits (q : RecallMemory.RecallQuery)
           (r : RecallMemory.MemoryRecord) : Prop :=
  (forall ty, RecallMemory.q_type q = Some ty -> ty <> "" ->
              RecallMemory.type_name (RecallMemory.type r) = ty)
  /\ (forall qtags, RecallMemory.q_tags q = Some qtags -> qtags <> [] ->
                    exists tag, In tag qtags
                                /\ In (JStr tag) (RecallMemory.tags r))
  /\ (forall lo hi, RecallMemory.q_timeRange q = Some (lo, hi) ->
                    (lo <= RecallMemory.timestamp r <= hi)%Z)
  /\ (forall least, RecallMemory.q_importance q = Some least ->
                    least <= RecallMemory.importance r).

(** The number of records a query returns at most. *)
Definition limitOf (q : RecallMemory.RecallQuery) : nat :=
  match RecallMemory.q_limit q with
  | Some (S n) => S n
  | _ => 100%nat
  end.

(** The ids of the records in the map, in insertion order. *)
Definition idsOf (st : RecallMemory.t) : list string :=
  map RecallMemory.id (RecallMemory.memory st).

(** The query for all records of one type. *)
Definition ofType (ty : string) : RecallMemory.RecallQuery :=
  {| RecallMemory.q_type := Some ty;
     RecallMemory.q_tags := None;
     RecallMemory.q_timeRange := None;
     RecallMemory.q_importance := None;
     RecallMemory.q_limit := None |}.

(** The type of record that an insertion stores, and its payload. *)
Definition kindOf (op : Insertion) : RecallMemory.RecordType :=
  match op with
  | InsertCycle _ => RecallMemory.cycle
  | InsertTrade _ => RecallMemory.trade
  | InsertSignal _ => RecallMemory.signal
  | InsertMarketEvent _ => RecallMemory.market_event
  end.

Definition payloadOf (op : Insertion) : Payload :=
  match op with
  | InsertCycle d | InsertTrade d | InsertSignal d | InsertMarketEvent d => d
  end.

(** The candidate ids that [recall] is left with after its filters, and
    the records it then sorts. *)
Definition candidatesOf (st : RecallMemory.t) (q : RecallMemory.RecallQuery)
  : list string :=
  let candidates := idsOf st in
  let candidates :=
    match RecallMemory.q_type q with
    | Some ty => if String.eqb ty "" then candidates
                 else RecallMemory.filterByType st candidates ty
    | None => candidates
    end in
  let candidates :=
    match RecallMemory.q_tags q with
    | Some (tag :: more) =>
        RecallMemory.filterByTags st candidates (tag :: more)
    | _ => candidates
    end in
  let candidates :=
    match RecallMemory.q_timeRange q with
    | Some range => RecallMemory.filterByTimeRange st candidates range
    | None => candidates
    end in
  match RecallMemory.q_importance q with
  | Some least => RecallMemory.filterByImportance st candidates least
  | None => candidates
  end.

Definition recordsOf (st : RecallMemory.t) (q : RecallMemory.RecallQuery)
  : list RecallMemory.MemoryRecord :=
  flat_map (fun rid => match RecallMemory.Map_get rid (RecallMemory.memory st)
                       with
                       | Some r => [r]
                       | None => []
                       end) (candidatesOf st q).

(** Two importances are more than the band apart, as the comparison
    function decides it: the double difference is above the double 0.1. *)
Definition beyondBand (x y : Q) : Prop := fl (1 # 10) < Qabs (fsub x y).

(** The order of a record [a] ahead of a record [b] with that band: the
    higher importance first when the importances are more than the band
    apart; otherwise the more recent first when the timestamps are more
    than 60 s apart; otherwise the access count of the first is not below
    that of the second. *)
Definition rankedAhead (a b : RecallMemory.MemoryRecord) : Prop :=
  let far := beyondBand (RecallMemory.importance a)
                        (RecallMemory.importance b) in
  let apart :=
    Z.abs (RecallMemory.timestamp a - RecallMemory.timestamp b) in
  (far -> RecallMemory.importance b < RecallMemory.importance a)
  /\ (~ far -> (60000 < apart)%Z ->
      (RecallMemory.timestamp b < RecallMemory.timestamp a)%Z)
  /\ (~ far -> (apart <= 60000)%Z ->
      (RecallMemory.accessCount b <= RecallMemory.accessCount a)%Z).

(** The comparison function is consistent on a list of records: whenever
    it does not put [a] behind [b] nor [b] behind [c], it does not put [a]
    behind [c].  The language fixes the result of a sort for such lists
    only. *)
Definition consistentOn (l : list RecallMemory.MemoryRecord) : Prop :=
  forall a b c, In a l -> In b l -> In c l ->
    RecallMemory.relevance a b <= 0 -> RecallMemory.relevance b c <= 0 ->
    RecallMemory.relevance a c <= 0.

Definition consistentOnb (l : list RecallMemory.MemoryRecord) : bool :=
  forallb (fun a =>
    forallb (fun b =>
      forallb (fun c =>
        implb (leb (RecallMemory.relevance a b) 0
               && leb (RecallMemory.relevance b c) 0)
              (leb (RecallMemory.relevance a c) 0)) l) l) l.

(** Every element of a list passes a test with every element after it. *)
Fixpoint pairwiseb {A} (f : A -> A -> bool) (l : list A) : bool :=
  match l with
  | [] => true
  | a :: rest => forallb (f a) rest && pairwiseb f rest
  end.

(** The records of an answer, none if the query threw. *)
Definition answerOf
           (x : result (list RecallMemory.MemoryRecord)
                * RecallMemory.t * World)
  : list RecallMemory.MemoryRecord :=
  match fst (fst x) with
  | Ok l => l
  | Err _ => []
  end.

(** The memory and the environment after the three insertions. *)
Definition rankedStore : RecallMemory.t :=
  snd (fst (insertAll paced (RecallMemory.initialize RecallMemory.new)
                      threeInserts)).

Definition rankedWorld : World :=
  snd (insertAll paced (RecallMemory.initialize RecallMemory.new)
                 threeInserts).

(** An environment whose clock advances a hundred seconds per reading; a
    signal and, three hundred seconds later, a cycle stored in it; and the
    query for both. *)
Definition slow : World :=
  {| clock := fun n => (Z.of_nat n * 100000 + 1700000000000)%Z;
     clock_pos := 0;
     random_value := fun _ => 1 # 2;
     random_suffix := fun n => string_of_Z (Z.of_nat n);
     random_pos := 0 |}.

Definition lateCycle
  : result (list RecallMemory.MemoryRecord) * RecallMemory.t * World :=
  let '(_, st, w) :=
    insertAll slow (RecallMemory.initialize RecallMemory.new)
              [InsertSignal (PObject [("symbol", JStr "PEPE");
                                      ("strategy", JStr "recall_enhanced")]);
               InsertCycle (PObject [("n", JNum 1)])] in
  RecallMemory.recall w st everything.

(** A query that carries all four filters. *)
Definition fullQuery : RecallMemory.RecallQuery :=
  {| RecallMemory.q_type := Some "market_event";
     RecallMemory.q_tags := Some ["DOGE"; "PEPE"];
     RecallMemory.q_timeRange := Some (1700000000000, 1800000000000)%Z;
     RecallMemory.q_importance := Some (5 # 10);
     RecallMemory.q_limit := Some 10%nat |}.

(** A trade to be stored. *)
Definition pepeBuy : Insertion :=
  InsertTrade (PObject [("symbol", JStr "PEPE"); ("action", JStr "buy")]).

(** Two time zones: UTC itself, and one that leaves daylight saving time
    on 2023-11-05 at 06:00 UTC, four hours behind UTC before and five
    hours behind from then on; a local time that occurs twice is taken as
    the earlier instant. *)
Definition utc : TimeZone := fun _ _ => 0%Z.

Definition newYork : TimeZone :=
  fun t isUTC =>
    let change := 1699164000000%Z in
    let before := (-14400000)%Z in
    let after := (-18000000)%Z in
    if isUTC then (if (t <? change)%Z then before else after)
    else (if (t <? change + before)%Z then before else after).

(** The instant before which [cleanup] takes a record to be old. *)
Definition cutoffOf (tz : TimeZone) (cfg : ConfigManager) (w : World) : Z :=
  setDate_back tz (clock w (clock_pos w)) (retentionDays cfg).

(** The score that [recallSimilar] gives a record. *)
Definition scoreOf (sampleData : Payload) (r : RecallMemory.MemoryRecord)
  : Q :=
  RecallMemory.calculateSimilarity sampleData (RecallMemory.data r).

(** The numbers that a payload holds are moderate. *)
Definition moderateNumbers (d : Payload) : Prop :=
  forall key q, prop d key = JNum q -> moderate q.

(** A market event at half the price of [pricedEvent]; a memory that
    holds it and, stored after it, [pricedEvent]; and the environment
    after the two insertions. *)
Definition cheaperEvent : Payload :=
  PObject [("type", JStr "spike"); ("symbol", JStr "PEPE");
           ("price", JNum 50)].

Definition similarStore : RecallMemory.t :=
  snd (fst (insertAll paced (RecallMemory.initialize RecallMemory.new)
                      [InsertMarketEvent cheaperEvent;
                       InsertMarketEvent pricedEvent])).

Definition similarWorld : World :=
  snd (insertAll paced (RecallMemory.initialize RecallMemory.new)
                 [InsertMarketEvent cheaperEvent;
                  InsertMarketEvent pricedEvent]).

(** Two payloads whose one common property has opposite signs. *)
Definition gain : Payload := PObject [("pnl", JNum 1)].
Definition loss : Payload := PObject [("pnl", JNum (-1))].

(** The votes of the three indicators that take part in the trend: the
    RSI below 30, a positive MACD and a price above the moving average
    vote bullish; the RSI above 70, a MACD that is not positive and a
    price that is not above the moving average vote bearish. *)
Definition bullishVotes (data : MarketData) : Z :=
  ((match rsi (indicators data) with
    | Some r => if ltb r 30 then 1 else 0
    | None => 0
    end)
   + (match macd (indicators data) with
      | Some m => if gtb m 0 then 1 else 0
      | None => 0
      end)
   + (match movingAverage (indicators data) with
      | Some avg => if gtb (md_price data) avg then 1 else 0
      | None => 0
      end))%Z.

Definition bearishVotes (data : MarketData) : Z :=
  ((match rsi (indicators data) with
    | Some r => if ltb r 30 then 0 else if gtb r 70 then 1 else 0
    | None => 0
    end)
   + (match macd (indicators data) with
      | Some m => if gtb m 0 then 0 else 1
      | None => 0
      end)
   + (match movingAverage (indicators data) with
      | Some avg => if gtb (md_price data) avg then 0 else 1
      | None => 0
      end))%Z.

(** The volatility of a sample is absent or at most [bound]. *)
Definition volatilityWithin (bound : Q) (data : MarketData) : Prop :=
  match volatility (indicators data) with
  | Some v => v <= bound
  | None => True
  end.

(** A sample with an oversold RSI, a positive MACD and a volatility of
    0.7. *)
Definition wildSample : MarketData :=
  {| md_symbol := "PEPE";
     md_price := 1 # 1000000;
     md_volume := 500000;
     md_timestamp := 1700000000000;
     indicators := {| rsi := Some 25;
                      macd := Some (1 # 2);
                      movingAverage := None;
                      volatility := Some (7 # 10) |} |}.

(** Every draw of the random source lies in [0, 1), as [Math.random]
    promises. *)
Definition unitDraws (w : World) : Prop :=
  forall n, 0 <= random_value w n /\ random_value w n < 1.

(** What can happen to an agent: a call of one of its life-cycle methods,
    or the event loop firing a timer; each under the configuration in
    force at the time. *)
Inductive Command : Type :=
| DoInitialize (chainOk : bool)
| DoStart
| DoPause
| DoResume
| DoShutdown
| DoFire (h : nat).

Definition step (cfg : ConfigManager) (c : Command)
  : PumpPandaAgent.M unit :=
  match c with
  | DoInitialize chainOk => PumpPandaAgent.initialize chainOk
  | DoStart => PumpPandaAgent.start cfg
  | DoPause => PumpPandaAgent.pause
  | DoResume => PumpPandaAgent.resume cfg
  | DoShutdown => PumpPandaAgent.shutdown
  | DoFire h => PumpPandaAgent.fire cfg h
  end.

Fixpoint run (history : list (ConfigManager * Command))
         (s : PumpPandaAgent.t) : PumpPandaAgent.t :=
  match history with
  | [] => s
  | (cfg, c) :: rest => run rest (snd (step cfg c s))
  end.

(** A step of the agent leaves a part of its state as it was. *)
Definition keeps {F A} (proj : PumpPandaAgent.t -> F)
           (c : PumpPandaAgent.M A) : Prop :=
  forall s, proj (snd (c s)) = proj s.

(** The two counters of the risk manager. *)
Definition riskCounters (s : PumpPandaAgent.t) : Q * Q :=
  (RiskManager.dailyLoss (PumpPandaAgent.riskManager s),
   RiskManager.openPositions (PumpPandaAgent.riskManager s)).

(** The limits of a configuration are positive, and its drawdown limit
    and position size are not negative. *)
Definition positiveLimits (cfg : ConfigManager) : Prop :=
  0 < getMaxDailyLoss cfg
  /\ 0 <= getMaxDrawdown cfg
  /\ 0 < getMaxOpenPositions cfg
  /\ 0 <= getMaxPositionSize cfg.

(** An agent that has been initialised and started and has run its first
    trading cycle. *)
Definition firstCycle : list (ConfigManager * Command) :=
  [(config1000, DoInitialize true); (config1000, DoStart);
   (config1000, DoFire 2)].

(** A buy of a million PEPE without a price, of low confidence and
    without stop loss or take profit. *)
Definition pricelessBuy : TradingSignal :=
  {| ts_symbol := "PEPE"; action := buy; quantity := 1000000; price := 0;
     strategy := "recall_enhanced"; ts_confidence := 5 # 10;
     stopLoss := None; takeProfit := None;
     ts_timestamp := 1700000000000 |}.

(** The value of a list of positions at their current prices, and the
    sum of their profits and losses. *)
Definition marketValue (l : list Position) : Q :=
  fold_right (fun x acc => pos_quantity x * currentPrice x + acc) 0 l.

Definition sumPnL (l : list Position) : Q :=
  fold_right (fun x acc => pnl x + acc) 0 l.

(** The environment in which [executeTrade] quotes the price for the
    execution record, and the one in which [executeBuy] and
    [executeSell] then price the trade. *)
Definition quoteWorld (w : World) : World :=
  snd (PortfolioManager.generateTradeId w).

Definition bookingWorld (w : World) (sg : TradingSignal) : World :=
  snd (Date_now (snd (PortfolioManager.priceOf (quoteWorld w) sg))).

(** An initialised portfolio manager with the initial cash and no
    position, and a sale of ten PEPE without a price. *)
Definition freshPortfolio : PortfolioManager.t :=
  snd (PortfolioManager.initialize true PortfolioManager.new).

Definition pricelessSell : TradingSignal :=
  {| ts_symbol := "PEPE"; action := sell; quantity := 10; price := 0;
     strategy := "recall_enhanced"; ts_confidence := 7 # 10;
     stopLoss := Some (2 # 100); takeProfit := Some (- (4 # 100));
     ts_timestamp := 1700000000000 |}.

(** One position per symbol, and none of a negative quantity. *)
Definition soundHoldings (p : PortfolioManager.t) : Prop :=
  NoDup (map pos_symbol (PortfolioManager.held p))
  /\ Forall (fun x => 0 <= pos_quantity x) (PortfolioManager.held p).

(** A buy of ten PEPE without a price, and the portfolio after it. *)
Definition smallBuy : TradingSignal :=
  {| ts_symbol := "PEPE"; action := buy; quantity := 10; price := 0;
     strategy := "recall_enhanced"; ts_confidence := 7 # 10;
     stopLoss := Some (- (2 # 100)); takeProfit := Some (4 # 100);
     ts_timestamp := 1700000000000 |}.

Definition afterSmallBuy : PortfolioManager.t :=
  snd (fst (PortfolioManager.executeTrade config1000 world0 freshPortfolio
                                          smallBuy)).

(** A configuration whose symbols are two of the meme tokens, fetched
    over two chains. *)
Definition configMemes : ConfigManager :=
  {| getTradingInterval := 60000;
     getUpdateInterval := 5000;
     getPerformanceMonitoringInterval := 300000;
     getSymbols := ["PEPE"; "DOGE"];
     getEnabledBlockchains := ["ethereum"; "base"];
     getMaxPositionSize := 1000;
     getMaxDailyLoss := 1000;
     getMaxDrawdown := 5 # 100;
     getStopLossPercentage := 2 # 100;
     getTakeProfitPercentage := 4 # 100;
     getMaxOpenPositions := 5;
     retentionDays := 30;
     getMemeTokenHuntingConfig := hunting |}.

(** An execution is the execution of a signal: it bears its symbol, its
    action and its quantity. *)
Definition executionOf (sg : TradingSignal) (e : TradeExecution) : Prop :=
  te_symbol e = ts_symbol sg
  /\ te_action e = action sg
  /\ te_quantity e = quantity sg.

(** The calls that trading a batch makes: for every signal the call of
    [executeTrade], then the call of [recordTrade] with its execution. *)
Definition tradesOf (pairs : list (TradingSignal * TradeExecution))
  : list PumpPandaAgent.Event :=
  flat_map (fun p => [PumpPandaAgent.ExecuteTrade (fst p);
                      PumpPandaAgent.RecordTrade (snd p)]) pairs.

(** What a signal of the strategy looks like to the agent: no price and
    an action other than hold. *)
Definition tradable (sg : TradingSignal) : Prop :=
  price sg == 0 /\ action sg <> hold.

(* ===================================================================== *)
(** * Properties *)
(* ===================================================================== *)

(** ** Comparisons *)

Lemma leb_spec a b : JS.leb a b = true <-> a <= b.
Proof. apply Qle_bool_iff. Qed.

Lemma geb_spec a b : JS.geb a b = true <-> b <= a.
Proof. apply Qle_bool_iff. Qed.

Lemma gtb_spec a b : JS.gtb a b = true <-> b < a.
Proof.
  unfold JS.gtb. rewrite negb_true_iff. split; intro H.
  - apply Qnot_le_lt. intro Hle. apply Qle_bool_iff in Hle. congruence.
  - destruct (Qle_bool a b) eqn:E; trivial.
    apply Qle_bool_iff in E. exfalso. exact (Qlt_not_le _ _ H E).
Qed.

Lemma ltb_spec a b : JS.ltb a b = true <-> a < b.
Proof. apply (gtb_spec b a). Qed.

Lemma gtb_false a b : JS.gtb a b = false <-> a <= b.
Proof. unfold JS.gtb. rewrite negb_false_iff. apply Qle_bool_iff. Qed.

Lemma ltb_false a b : JS.ltb a b = false <-> b <= a.
Proof. apply (gtb_false b a). Qed.

Lemma RiskLevel_eqb_spec a b : RiskLevel_eqb a b = true <-> a = b.
Proof. destruct a, b; simpl; split; congruence. Qed.

Lemma Trend_eqb_spec a b : Trend_eqb a b = true <-> a = b.
Proof. destruct a, b; simpl; split; congruence. Qed.

(** ** Double arithmetic *)

Module DoubleFacts.

Unset Implicit Arguments.

Lemma pow2_pos e : 0 < 2 ^ e.
Proof. apply Qpower_0_lt. reflexivity. Qed.

Lemma pow2_plus a b : 2 ^ (a + b) == 2 ^ a * 2 ^ b.
Proof. apply Qpower_plus. discriminate. Qed.

Lemma pow2_minus a b : 2 ^ (a - b) == 2 ^ a / 2 ^ b.
Proof. apply Qpower_minus. discriminate. Qed.

Lemma pow2_le a b : (a <= b)%Z -> 2 ^ a <= 2 ^ b.
Proof. intro H. apply Qpower_le_compat_l; [exact H|discriminate]. Qed.

Lemma pow2_Z n : (0 <= n)%Z -> 2 ^ n == inject_Z (2 ^ n).
Proof. intro H. symmetry. apply (Zpower_Qpower 2 n H). Qed.

Lemma pow2_succ a : 2 ^ (a + 1) == 2 * 2 ^ a.
Proof. rewrite pow2_plus. change (2 ^ 1) with 2. ring. Qed.

Lemma div_lt_cross p q r s :
  0 < q -> 0 < s -> p * s < r * q -> p / q < r / s.
Proof.
  intros Hq Hs H.
  apply Qlt_shift_div_r; [exact Hq|].
  assert (E : r / s * q == r * q / s) by (field; lra).
  rewrite E. apply Qlt_shift_div_l; [exact Hs|exact H].
Qed.

(** [ilog2] is the binary logarithm, rounded down. *)
Lemma ilog2_spec a : 0 < a -> 2 ^ ilog2 a <= a /\ a < 2 ^ (ilog2 a + 1).
Proof.
  intro Ha. destruct a as [n d]. unfold ilog2. cbn [Qnum Qden].
  assert (Hn : (0 < n)%Z).
  { unfold Qlt in Ha. simpl in Ha. lia. }
  set (ln := Z.log2 n). set (ld := Z.log2 (Z.pos d)).
  destruct (Z.log2_spec n Hn) as [Hn1 Hn2]. fold ln in Hn1, Hn2.
  destruct (Z.log2_spec (Z.pos d) (eq_refl : (0 < Z.pos d)%Z)) as [Hd1 Hd2].
  fold ld in Hd1, Hd2.
  assert (Hln : (0 <= ln)%Z) by apply Z.log2_nonneg.
  assert (Hld : (0 <= ld)%Z) by apply Z.log2_nonneg.
  assert (Ea : n # d == inject_Z n / inject_Z (Z.pos d)) by apply Qmake_Qdiv.
  assert (Qn1 : 2 ^ ln <= inject_Z n).
  { rewrite pow2_Z by exact Hln. rewrite <- Zle_Qle. exact Hn1. }
  assert (Qn2 : inject_Z n < 2 ^ (ln + 1)).
  { rewrite pow2_Z by lia. rewrite <- Zlt_Qlt. exact Hn2. }
  assert (Qd1 : 2 ^ ld <= inject_Z (Z.pos d)).
  { rewrite pow2_Z by exact Hld. rewrite <- Zle_Qle. exact Hd1. }
  assert (Qd2 : inject_Z (Z.pos d) < 2 ^ (ld + 1)).
  { rewrite pow2_Z by lia. rewrite <- Zlt_Qlt. exact Hd2. }
  assert (Pd : 0 < inject_Z (Z.pos d)) by reflexivity.
  pose proof (pow2_pos ln) as Pln. pose proof (pow2_pos ld) as Pld.
  pose proof (pow2_pos (ln + 1)) as Pln1.
  pose proof (pow2_pos (ld + 1)) as Pld1.
  assert (Hup : n # d < 2 ^ (ln - ld + 1)).
  { rewrite Ea.
    replace (ln - ld + 1)%Z with ((ln + 1) - ld)%Z by lia.
    rewrite pow2_minus. apply div_lt_cross; [exact Pd|exact Pld|].
    nra. }
  assert (Hlow : 2 ^ (ln - ld - 1) < n # d).
  { rewrite Ea.
    replace (ln - ld - 1)%Z with (ln - (ld + 1))%Z by lia.
    rewrite pow2_minus. apply div_lt_cross; [exact Pld1|exact Pd|].
    nra. }
  destruct (Qle_bool (2 ^ (ln - ld)) (n # d)) eqn:E.
  - apply Qle_bool_iff in E. split; [exact E|exact Hup].
  - split; [apply Qlt_le_weak; exact Hlow|].
    replace (ln - ld - 1 + 1)%Z with (ln - ld)%Z by lia.
    apply Qnot_le_lt. intro H. apply Qle_bool_iff in H. congruence.
Qed.

Lemma ilog2_mono a b : 0 < a -> a <= b -> (ilog2 a <= ilog2 b)%Z.
Proof.
  intros Ha Hab.
  destruct (ilog2_spec a Ha) as [A1 A2].
  destruct (ilog2_spec b) as [B1 B2]; [lra|].
  assert (H : (ilog2 a < ilog2 b + 1)%Z).
  { apply (Qpower_lt_compat_l_inv 2); [lra|reflexivity]. }
  lia.
Qed.

Lemma ilog2_comp a b : 0 < a -> a == b -> ilog2 a = ilog2 b.
Proof.
  intros Ha E.
  assert (Hb : 0 < b) by lra.
  pose proof (ilog2_mono a b Ha) as H1.
  pose proof (ilog2_mono b a Hb) as H2.
  assert (a <= b) by lra. assert (b <= a) by lra. intuition lia.
Qed.

Lemma nearest_even_bounds x :
  (Qfloor x <= nearest_even x <= Qfloor x + 1)%Z.
Proof.
  unfold nearest_even.
  destruct (Qcompare (x - inject_Z (Qfloor x)) (1 # 2)); [|lia|lia].
  destruct (Z.even (Qfloor x)); lia.
Qed.

Lemma nearest_even_comp x y : x == y -> nearest_even x = nearest_even y.
Proof.
  intro E. unfold nearest_even.
  rewrite (Qfloor_comp _ _ E).
  assert (E2 : x - inject_Z (Qfloor y) == y - inject_Z (Qfloor y))
    by (rewrite E; reflexivity).
  rewrite (Qcompare_comp _ _ E2 (1 # 2) (1 # 2) (Qeq_refl _)). reflexivity.
Qed.

Lemma nearest_even_Z k : nearest_even (inject_Z k) = k.
Proof.
  unfold nearest_even. rewrite Qfloor_Z.
  assert (E : inject_Z k - inject_Z k == 0) by ring.
  rewrite (Qcompare_comp _ _ E (1 # 2) (1 # 2) (Qeq_refl _)). reflexivity.
Qed.

Lemma nearest_even_mono x y : x <= y -> (nearest_even x <= nearest_even y)%Z.
Proof.
  intro H.
  pose proof (Qfloor_resp_le _ _ H) as Hf.
  pose proof (nearest_even_bounds x) as Bx.
  pose proof (nearest_even_bounds y) as By.
  destruct (Z.eq_dec (Qfloor x) (Qfloor y)) as [E|N]; [|lia].
  unfold nearest_even. rewrite E.
  destruct (Qcompare (x - inject_Z (Qfloor y)) (1 # 2)) eqn:Cx;
    destruct (Qcompare (y - inject_Z (Qfloor y)) (1 # 2)) eqn:Cy;
    try (destruct (Z.even (Qfloor y))); try lia; exfalso;
    try (rewrite <- Qeq_alt in Cx); try (rewrite <- Qlt_alt in Cx);
    try (rewrite <- Qgt_alt in Cx); try (rewrite <- Qeq_alt in Cy);
    try (rewrite <- Qlt_alt in Cy); try (rewrite <- Qgt_alt in Cy); lra.
Qed.

Lemma nearest_even_le_Z x k : x <= inject_Z k -> (nearest_even x <= k)%Z.
Proof.
  intro H. rewrite <- (nearest_even_Z k). apply nearest_even_mono. exact H.
Qed.

Lemma nearest_even_ge_Z x k : inject_Z k <= x -> (k <= nearest_even x)%Z.
Proof.
  intro H. rewrite <- (nearest_even_Z k). apply nearest_even_mono. exact H.
Qed.

Lemma quantum_comp a b : 0 < a -> a == b -> quantum a = quantum b.
Proof.
  intros Ha E. unfold quantum. rewrite (ilog2_comp a b Ha E). reflexivity.
Qed.

Lemma flp_comp a b : 0 < a -> a == b -> flp a == flp b.
Proof.
  intros Ha E. unfold flp, mant. rewrite (quantum_comp a b Ha E).
  assert (E2 : a / 2 ^ quantum b == b / 2 ^ quantum b)
    by (rewrite E; reflexivity).
  rewrite (nearest_even_comp _ _ E2). reflexivity.
Qed.

Lemma fl_zero x : x == 0 -> fl x = 0.
Proof.
  intro E. unfold fl. apply Qeq_bool_iff in E. rewrite E. reflexivity.
Qed.

Lemma fl_pos x : 0 < x -> fl x == flp x.
Proof.
  intro Hx. unfold fl.
  destruct (Qeq_bool x 0) eqn:E0.
  { apply Qeq_bool_iff in E0. lra. }
  assert (Hle : Qle_bool 0 x = true) by (apply Qle_bool_iff; lra).
  rewrite Hle. rewrite Qred_correct.
  assert (Ea : Qabs x == x) by (apply Qabs_pos; lra).
  assert (Pa : 0 < Qabs x) by lra.
  apply (flp_comp (Qabs x) x Pa Ea).
Qed.

Lemma fl_neg x : x < 0 -> fl x == - flp (- x).
Proof.
  intro Hx. unfold fl.
  destruct (Qeq_bool x 0) eqn:E0.
  { apply Qeq_bool_iff in E0. lra. }
  destruct (Qle_bool 0 x) eqn:Hle.
  { apply Qle_bool_iff in Hle. lra. }
  rewrite Qred_correct.
  assert (Ea : Qabs x == - x) by (apply Qabs_neg; lra).
  assert (Pa : 0 < Qabs x) by lra.
  rewrite (flp_comp (Qabs x) (- x) Pa Ea). reflexivity.
Qed.

(** Rounding commutes with the change of sign. *)
Lemma fl_opp x : fl (- x) == - fl x.
Proof.
  destruct (Q_dec x 0) as [[Hn|Hp]|Hz].
  - rewrite (fl_neg x Hn). rewrite fl_pos by lra. ring.
  - rewrite (fl_pos x Hp). rewrite fl_neg by lra.
    rewrite (flp_comp (- - x) x); [reflexivity|lra|ring].
  - rewrite (fl_zero x Hz). rewrite fl_zero; [reflexivity|lra].
Qed.

Lemma fl_comp x y : x == y -> fl x == fl y.
Proof.
  intro E. destruct (Q_dec x 0) as [[Hn|Hp]|Hz].
  - rewrite (fl_neg x Hn). rewrite (fl_neg y) by lra.
    rewrite (flp_comp (- x) (- y)); [reflexivity|lra|lra].
  - rewrite (fl_pos x Hp). rewrite (fl_pos y) by lra.
    apply flp_comp; assumption.
  - rewrite (fl_zero x Hz). rewrite fl_zero; [reflexivity|lra].
Qed.

#[global] Instance fl_Proper : Proper (Qeq ==> Qeq) fl.
Proof. intros x y E. apply fl_comp. exact E. Qed.

Lemma quantum_spec a :
  0 < a ->
  (-1074 <= quantum a)%Z /\ a < 2 ^ (quantum a + 53)
  /\ ((-1074 < quantum a)%Z -> 2 ^ (quantum a + 52) <= a).
Proof.
  intro Ha. destruct (ilog2_spec a Ha) as [L1 L2]. unfold quantum.
  split; [lia|]. split.
  - eapply Qlt_le_trans; [exact L2|]. apply pow2_le. lia.
  - intro H.
    replace (Z.max (ilog2 a - 52) (-1074) + 52)%Z with (ilog2 a) by lia.
    exact L1.
Qed.

Lemma scaled a q k : a <= inject_Z k * 2 ^ q -> a / 2 ^ q <= inject_Z k.
Proof.
  intro H. pose proof (pow2_pos q) as P.
  apply Qle_shift_div_r; [exact P|exact H].
Qed.

Lemma scaled_ge a q k : inject_Z k * 2 ^ q <= a -> inject_Z k <= a / 2 ^ q.
Proof.
  intro H. pose proof (pow2_pos q) as P.
  apply Qle_shift_div_l; [exact P|exact H].
Qed.

Lemma pow2_split e q : (q <= e)%Z -> 2 ^ e == inject_Z (2 ^ (e - q)) * 2 ^ q.
Proof.
  intro H. rewrite <- pow2_Z by lia. rewrite <- pow2_plus.
  replace (e - q + q)%Z with e by lia. reflexivity.
Qed.

Lemma mant_nonneg a : 0 < a -> (0 <= mant a)%Z.
Proof.
  intro Ha. unfold mant. apply nearest_even_ge_Z.
  apply scaled_ge. pose proof (pow2_pos (quantum a)).
  change (inject_Z 0) with 0. lra.
Qed.

Lemma mant_le a : 0 < a -> (mant a <= 2 ^ 53)%Z.
Proof.
  intro Ha. destruct (quantum_spec a Ha) as [_ [H _]].
  unfold mant. apply nearest_even_le_Z. apply scaled.
  rewrite (pow2_split (quantum a + 53) (quantum a)) in H by lia.
  replace (quantum a + 53 - quantum a)%Z with 53%Z in H by lia. lra.
Qed.

Lemma flp_nonneg a : 0 < a -> 0 <= flp a.
Proof.
  intro Ha. unfold flp. pose proof (mant_nonneg a Ha) as H.
  pose proof (pow2_pos (quantum a)) as P.
  apply Qmult_le_0_compat; [|lra].
  change 0 with (inject_Z 0). rewrite <- Zle_Qle. exact H.
Qed.

(** Rounding is monotone on the positive numbers: within a binade through
    the rounding of the significand, across binades through the power of
    two between them. *)
Lemma flp_mono a b : 0 < a -> a <= b -> flp a <= flp b.
Proof.
  intros Ha Hab.
  assert (Hb : 0 < b) by lra.
  assert (Hq : (quantum a <= quantum b)%Z).
  { unfold quantum. pose proof (ilog2_mono a b Ha Hab). lia. }
  destruct (Z.eq_dec (quantum a) (quantum b)) as [E|N].
  - unfold flp, mant. rewrite E.
    pose proof (pow2_pos (quantum b)) as P.
    apply Qmult_le_compat_r; [|lra].
    rewrite <- Zle_Qle. apply nearest_even_mono.
    apply Qmult_le_compat_r; [exact Hab|].
    apply Qlt_le_weak, Qinv_lt_0_compat. exact P.
  - assert (Hlt : (quantum a < quantum b)%Z) by lia.
    destruct (quantum_spec a Ha) as [A1 [A2 _]].
    destruct (quantum_spec b Hb) as [B1 [_ B3]].
    assert (Hb2 : 2 ^ (quantum b + 52) <= b) by (apply B3; lia).
    set (e := (quantum b + 52)%Z) in *.
    apply Qle_trans with (2 ^ e).
    + assert (Hae : a <= 2 ^ e).
      { apply Qlt_le_weak. eapply Qlt_le_trans; [exact A2|].
        apply pow2_le. unfold e. lia. }
      rewrite (pow2_split e (quantum a)) in Hae |- * by (unfold e; lia).
      unfold flp. pose proof (pow2_pos (quantum a)) as P.
      apply Qmult_le_compat_r; [|lra].
      rewrite <- Zle_Qle. unfold mant. apply nearest_even_le_Z.
      apply scaled. exact Hae.
    + rewrite (pow2_split e (quantum b)) in Hb2 |- * by (unfold e; lia).
      unfold flp. pose proof (pow2_pos (quantum b)) as P.
      apply Qmult_le_compat_r; [|lra].
      rewrite <- Zle_Qle. unfold mant. apply nearest_even_ge_Z.
      apply scaled_ge. exact Hb2.
Qed.

Lemma fl_nonneg x : 0 <= x -> 0 <= fl x.
Proof.
  intro H. destruct (Qle_lt_or_eq _ _ H) as [Hp|Hz].
  - rewrite (fl_pos x Hp). apply flp_nonneg. exact Hp.
  - rewrite fl_zero; [lra|lra].
Qed.

Lemma fl_nonpos x : x <= 0 -> fl x <= 0.
Proof.
  intro H. assert (E : x == - - x) by ring.
  rewrite E, fl_opp. pose proof (fl_nonneg (- x)). lra.
Qed.

(** Rounding is monotone. *)
Lemma fl_mono x y : x <= y -> fl x <= fl y.
Proof.
  intro H. destruct (Q_dec x 0) as [[Hn|Hp]|Hz].
  - destruct (Qlt_le_dec y 0) as [Hy|Hy].
    + rewrite (fl_neg x Hn), (fl_neg y Hy).
      assert (M : flp (- y) <= flp (- x)) by (apply flp_mono; lra). lra.
    + pose proof (fl_nonpos x). pose proof (fl_nonneg y Hy). lra.
  - rewrite (fl_pos x Hp), (fl_pos y) by lra. apply flp_mono; assumption.
  - rewrite (fl_zero x Hz). apply fl_nonneg. lra.
Qed.

(** A rounding that is positive is the rounding of a positive number. *)
Lemma fl_pos_inv x : 0 < fl x -> 0 < x.
Proof.
  intro H. apply Qnot_le_lt. intro Hx.
  pose proof (fl_nonpos x Hx). lra.
Qed.

Lemma fl_lt_inv x y : fl x < fl y -> x < y.
Proof.
  intro H. apply Qnot_le_lt. intro Hx.
  pose proof (fl_mono y x Hx). lra.
Qed.

Lemma flp_grid a k : 0 < a -> a == inject_Z k * 2 ^ quantum a -> flp a == a.
Proof.
  intros Ha E. unfold flp, mant.
  assert (E2 : a / 2 ^ quantum a == inject_Z k).
  { pose proof (pow2_pos (quantum a)) as P. rewrite E at 1. field. lra. }
  rewrite (nearest_even_comp _ _ E2), nearest_even_Z. symmetry. exact E.
Qed.

Lemma flp_exact m q :
  (0 < m <= 2 ^ 53)%Z -> (-1074 <= q)%Z ->
  flp (inject_Z m * 2 ^ q) == inject_Z m * 2 ^ q.
Proof.
  intros Hm Hq. set (a := inject_Z m * 2 ^ q).
  pose proof (pow2_pos q) as Pq.
  assert (Hm0 : 0 < inject_Z m).
  { change 0 with (inject_Z 0). rewrite <- Zlt_Qlt. lia. }
  assert (Ha : 0 < a) by (unfold a; apply Qmult_lt_0_compat; assumption).
  destruct (quantum_spec a Ha) as [Q1 [Q2 Q3]].
  destruct (Z_le_gt_dec (quantum a) q) as [Hle|Hgt].
  - apply (flp_grid a (m * 2 ^ (q - quantum a)) Ha).
    pose proof (pow2_split q (quantum a) Hle) as S.
    unfold a at 1. rewrite inject_Z_mult. rewrite S. ring.
  - assert (Q4 : 2 ^ (quantum a + 52) <= a) by (apply Q3; lia).
    assert (Hm53 : inject_Z m <= 2 ^ 53).
    { rewrite pow2_Z by lia. rewrite <- Zle_Qle. lia. }
    assert (Hup : a <= 2 ^ (q + 53)).
    { unfold a. rewrite pow2_plus. rewrite (Qmult_comm (2 ^ q)).
      apply Qmult_le_compat_r; [exact Hm53|lra]. }
    assert (Hqa : quantum a = (q + 1)%Z).
    { assert (H : (quantum a + 52 <= q + 53)%Z).
      { apply (Qpower_le_compat_l_inv 2); [lra|reflexivity]. }
      lia. }
    assert (Ea : a == 2 ^ (q + 53)).
    { apply Qle_antisym; [exact Hup|].
      rewrite Hqa in Q4. replace (q + 1 + 52)%Z with (q + 53)%Z in Q4 by lia.
      exact Q4. }
    apply (flp_grid a (2 ^ 52) Ha). rewrite Hqa, Ea.
    rewrite <- pow2_Z by lia. rewrite <- pow2_plus.
    replace (52 + (q + 1))%Z with (q + 53)%Z by lia. reflexivity.
Qed.

Lemma binary64_opp x : binary64 x -> binary64 (- x).
Proof.
  intros [m [q [Hm [Hq E]]]]. exists (- m)%Z, q.
  split; [lia|]. split; [exact Hq|]. rewrite E, inject_Z_opp. ring.
Qed.

(** A double is its own rounding. *)
Lemma binary64_fl x : binary64 x -> fl x == x.
Proof.
  intros [m [q [Hm [Hq E]]]].
  destruct (Z.lt_trichotomy m 0) as [Hn|[Hz|Hp]].
  - assert (Ex : x == - (inject_Z (- m) * 2 ^ q)).
    { rewrite E, inject_Z_opp. ring. }
    rewrite Ex, fl_opp.
    assert (P : 0 < inject_Z (- m) * 2 ^ q).
    { apply Qmult_lt_0_compat; [|apply pow2_pos].
      change 0 with (inject_Z 0). rewrite <- Zlt_Qlt. lia. }
    rewrite (fl_pos _ P). rewrite flp_exact; [reflexivity|lia|exact Hq].
  - subst m. rewrite fl_zero; rewrite E; change (inject_Z 0) with 0; ring.
  - assert (P : 0 < inject_Z m * 2 ^ q).
    { apply Qmult_lt_0_compat; [|apply pow2_pos].
      change 0 with (inject_Z 0). rewrite <- Zlt_Qlt. lia. }
    rewrite E. rewrite (fl_pos _ P). apply flp_exact; [lia|exact Hq].
Qed.

Lemma flp_binary64 a : 0 < a -> binary64 (flp a).
Proof.
  intro Ha. exists (mant a), (quantum a).
  pose proof (mant_nonneg a Ha). pose proof (mant_le a Ha).
  destruct (quantum_spec a Ha) as [Q1 _].
  split; [lia|]. split; [exact Q1|]. reflexivity.
Qed.

Lemma binary64_comp x y : x == y -> binary64 x -> binary64 y.
Proof.
  intros E [m [q [Hm [Hq Ex]]]]. exists m, q. rewrite <- E. auto.
Qed.

Lemma binary64_Z k : (Z.abs k <= 2 ^ 53)%Z -> binary64 (inject_Z k).
Proof.
  intro H. exists k, 0%Z. split; [exact H|]. split; [lia|].
  change (2 ^ 0) with 1. ring.
Qed.

(** Every rounding is a double. *)
Lemma fl_binary64 x : binary64 (fl x).
Proof.
  destruct (Q_dec x 0) as [[Hn|Hp]|Hz].
  - apply (binary64_comp (- flp (- x))); [symmetry; apply fl_neg; exact Hn|].
    apply binary64_opp, flp_binary64. lra.
  - apply (binary64_comp (flp x)); [symmetry; apply fl_pos; exact Hp|].
    apply flp_binary64. exact Hp.
  - rewrite (fl_zero x Hz). apply (binary64_Z 0). lia.
Qed.

Lemma fl_idempotent x : fl (fl x) == fl x.
Proof. apply binary64_fl, fl_binary64. Qed.

Lemma binary64_double x : binary64 x -> binary64 (2 * x).
Proof.
  intros [m [q [Hm [Hq E]]]]. exists m, (q + 1)%Z.
  split; [exact Hm|]. split; [lia|]. rewrite E, pow2_succ. ring.
Qed.

Lemma binary64_abs x : binary64 x -> binary64 (Qabs x).
Proof.
  intro H. apply Qabs_case; intro; [exact H|apply binary64_opp; exact H].
Qed.

Lemma fl_Z k : (Z.abs k <= 2 ^ 53)%Z -> fl (inject_Z k) == inject_Z k.
Proof. intro H. apply binary64_fl, binary64_Z. exact H. Qed.

(** A rounding stays within bounds that are doubles. *)
Lemma fl_within lo hi x :
  binary64 lo -> binary64 hi -> lo <= x <= hi -> lo <= fl x <= hi.
Proof.
  intros Hlo Hhi [H1 H2].
  pose proof (fl_mono lo x H1). pose proof (fl_mono x hi H2).
  pose proof (binary64_fl lo Hlo). pose proof (binary64_fl hi Hhi). lra.
Qed.

Lemma fl_within_Z k x :
  (0 <= k <= 2 ^ 53)%Z ->
  - inject_Z k <= x <= inject_Z k -> - inject_Z k <= fl x <= inject_Z k.
Proof.
  intros Hk Hx. apply fl_within; [| |exact Hx].
  - apply binary64_opp, binary64_Z. lia.
  - apply binary64_Z. lia.
Qed.

Lemma fl_abs x : Qabs (fl x) == fl (Qabs x).
Proof.
  destruct (Qlt_le_dec x 0) as [Hn|Hp].
  - pose proof (fl_nonpos x) as H.
    rewrite (Qabs_neg (fl x)) by (apply H; lra).
    rewrite (fl_comp (Qabs x) (- x)) by (apply Qabs_neg; lra).
    rewrite fl_opp. reflexivity.
  - rewrite (Qabs_pos (fl x)) by (apply fl_nonneg; exact Hp).
    apply fl_comp. symmetry. apply Qabs_pos. exact Hp.
Qed.

(** The roundings that decide the examples of this file are those of
    the machine. *)
Example fl_agrees_with_the_machine :
  machineValue (machineDecimal 1 10) = Some (fl (1 # 10))
  /\ machineValue (PrimFloat.sub (machineDecimal 8 10) (machineDecimal 7 10))
     = Some (fsub (8 # 10) (7 # 10))
  /\ machineValue (PrimFloat.sub (machineDecimal 9 10) (machineDecimal 8 10))
     = Some (fsub (9 # 10) (8 # 10))
  /\ machineValue (PrimFloat.sub (machineDecimal 9 10)
                                 (machineDecimal 82 100))
     = Some (fsub (9 # 10) (82 # 100))
  /\ machineValue (PrimFloat.add (machineDecimal 7 10) (machineDecimal 1 10))
     = Some (fadd (7 # 10) (1 # 10))
  /\ machineValue
       (PrimFloat.mul
          (PrimFloat.mul (machineDecimal 450 1) (machineDecimal 1 10))
          (PrimFloat.add (machineDecimal 6 10) (machineDecimal 1 10)))
     = Some (fmul (fmul 450 (1 # 10)) (fadd (6 # 10) (1 # 10)))
  /\ machineValue
       (PrimFloat.div
          (PrimFloat.sub (machineDecimal 1 1) (machineDecimal 95 100))
          (machineDecimal 1 1))
     = Some (fdiv (fsub 1 (95 # 100)) 1)
  /\ machineValue
       (PrimFloat.div
          (PrimFloat.add (PrimFloat.add (machineDecimal 1 1)
                                        (machineDecimal 1 1))
                         (PrimFloat.sub
                            (machineDecimal 1 1)
                            (PrimFloat.div (machineDecimal 50 1)
                                           (machineDecimal 100 1))))
          (machineDecimal 3 1))
     = Some (fdiv (fadd (fadd 1 1) (fsub 1 (fdiv 50 100))) 3).
Proof. repeat split; vm_compute; reflexivity. Qed.

Set Implicit Arguments.

End DoubleFacts.

(** ** RiskManager *)

Module RiskManagerFacts.
Import RiskManager.

Lemma anyHigh_spec analysis : anyHigh analysis = true <-> someHigh analysis.
Proof.
  unfold anyHigh, someHigh, JS.some. destruct analysis as [l|].
  - rewrite existsb_exists. split.
    + intros [a [Hin Ha]]. exists l, a. rewrite RiskLevel_eqb_spec in Ha. auto.
    + intros [l' [a [Heq [Hin Ha]]]]. injection Heq as <-.
      exists a. rewrite RiskLevel_eqb_spec. auto.
  - split; [discriminate|]. intros [l [a [Heq _]]]. discriminate.
Qed.

Lemma truthy_false v : truthy v = false <-> absentOrZero v.
Proof.
  destruct v as [q|]; simpl.
  - rewrite negb_false_iff. apply Qeq_bool_iff.
  - tauto.
Qed.

(** The closed form of the score that [assessRisk] accumulates. *)
Lemma assessRisk_initialized cfg rm analysis portfolio :
  isInitialized rm = true ->
  let score :=
    (points (geb (dailyLoss rm) (getMaxDailyLoss cfg)) 50
     + points (gtb (calculateDrawdown portfolio) (fl (getMaxDrawdown cfg)))
              40
     + points (geb (openPositions rm) (getMaxOpenPositions cfg)) 30
     + points (anyHigh analysis) 20)%Z in
  exists a,
    assessRisk cfg rm analysis portfolio = Ok a
    /\ riskScore a = score
    /\ riskLevel a = levelOf score
    /\ isAcceptable a = (score <? 70)%Z.
Proof.
  intros Hinit score. unfold assessRisk. rewrite Hinit. simpl negb. cbv iota.
  eexists. split; [reflexivity|]. cbn [riskScore riskLevel isAcceptable].
  assert (Hs : fst
     (penalise (anyHigh analysis) 20 "High market volatility detected"
        (penalise (geb (openPositions rm) (getMaxOpenPositions cfg)) 30
           "Maximum open positions reached"
           (penalise (gtb (calculateDrawdown portfolio)
                          (fl (getMaxDrawdown cfg)))
              40 "Maximum drawdown exceeded"
              (penalise (geb (dailyLoss rm) (getMaxDailyLoss cfg)) 50
                 "Daily loss limit reached" (0%Z, []))))) = score).
  { subst score. unfold penalise, points.
    destruct (geb (dailyLoss rm) (getMaxDailyLoss cfg)),
      (gtb (calculateDrawdown portfolio) (fl (getMaxDrawdown cfg))),
      (geb (openPositions rm) (getMaxOpenPositions cfg)),
      (anyHigh analysis); reflexivity. }
  rewrite Hs. auto.
Qed.

Lemma Math_max_zero d : 0 <= Math_max 0 d /\ d <= Math_max 0 d.
Proof.
  unfold Math_max. destruct (leb 0 d) eqn:E.
  - apply leb_spec in E. split; lra.
  - assert (H : ~ 0 <= d) by (intro H; apply leb_spec in H; congruence).
    split; lra.
Qed.

Lemma calculateDrawdown_nonneg portfolio : 0 <= calculateDrawdown portfolio.
Proof.
  unfold calculateDrawdown. destruct portfolio as [p|]; [|lra].
  destruct (negb (truthy (initialValue p)) || negb (truthy (currentValue p)));
    [lra|].
  destruct (initialValue p) as [i|], (currentValue p) as [c|]; try lra.
  apply Math_max_zero.
Qed.

Lemma calculateDrawdown_valued p i c :
  initialValue p = Some i -> currentValue p = Some c ->
  ~ i == 0 -> ~ c == 0 ->
  calculateDrawdown (Some p) = Math_max 0 (fdiv (fsub i c) i).
Proof.
  intros Hi Hc Hi0 Hc0. unfold calculateDrawdown. rewrite Hi, Hc.
  cbn [truthy]. unfold JS.eqb.
  destruct (Qeq_bool i 0) eqn:Ei; [apply Qeq_bool_iff in Ei; tauto|].
  destruct (Qeq_bool c 0) eqn:Ec; [apply Qeq_bool_iff in Ec; tauto|].
  reflexivity.
Qed.

(** The drawdown test of [assessRisk], spelled out. *)
Lemma drawdown_test limit portfolio :
  gtb (calculateDrawdown portfolio) (fl limit) = true
  <-> breaches limit portfolio.
Proof.
  rewrite gtb_spec. unfold breaches. split.
  - intro H. destruct (Qlt_le_dec (fl limit) 0) as [Hneg|Hpos]; [left; exact Hneg|].
    right. unfold calculateDrawdown in H.
    destruct portfolio as [p|]; [|lra].
    destruct (initialValue p) as [i|] eqn:Hi; cbn [truthy negb orb] in H;
      [|lra].
    destruct (currentValue p) as [c|] eqn:Hc; cbn [truthy] in H;
      [|rewrite orb_true_r in H; lra].
    unfold JS.eqb in H.
    destruct (Qeq_bool i 0) eqn:Ei; cbn [negb orb] in H; [lra|].
    destruct (Qeq_bool c 0) eqn:Ec; cbn [negb orb] in H; [lra|].
    exists p, i, c. repeat split; auto.
    + intro E. apply Qeq_bool_iff in E. congruence.
    + intro E. apply Qeq_bool_iff in E. congruence.
    + revert H. unfold Math_max. destruct (leb 0 (fdiv (fsub i c) i)); lra.
  - intros [Hneg | [p [i [c [-> [Hi [Hc [Hi0 [Hc0 H]]]]]]]]].
    + pose proof (calculateDrawdown_nonneg portfolio). lra.
    + rewrite (calculateDrawdown_valued p Hi Hc Hi0 Hc0).
      pose proof (Math_max_zero (fdiv (fsub i c) i)). lra.
Qed.

(** C2.  An initialised risk manager returns an assessment whose score is
    the sum of 50 when the daily loss is at or over its limit, 40 when the
    drawdown exceeds its limit, 30 when the open positions are at or over
    their limit and 20 when some classification is of high risk; the risk
    level is high from 70, medium from 30 and low below, and the
    assessment is acceptable exactly when the score is below 70.  The
    drawdown exceeds its limit when the loss of the portfolio, divided by
    its initial value in double arithmetic, is above the limit (or the
    limit is negative).  The daily-loss factor alone gives 50, medium,
    acceptable; together with the drawdown factor it gives 90, high, not
    acceptable.  The numbers are taken to be moderate, so that the
    difference of the two values of the portfolio does not overflow. *)
Theorem assessRisk_additive_score cfg rm analysis portfolio :
  isInitialized rm = true ->
  moderate (getMaxDrawdown cfg) ->
  moderatePortfolio portfolio ->
  exists a (lossHit drawdownHit positionsHit highRisk : bool),
    assessRisk cfg rm analysis portfolio = Ok a
    /\ (lossHit = true <-> getMaxDailyLoss cfg <= dailyLoss rm)
    /\ (drawdownHit = true <-> breaches (getMaxDrawdown cfg) portfolio)
    /\ (positionsHit = true <-> getMaxOpenPositions cfg <= openPositions rm)
    /\ (highRisk = true <-> someHigh analysis)
    /\ riskScore a = (points lossHit 50 + points drawdownHit 40
                      + points positionsHit 30 + points highRisk 20)%Z
    /\ riskLevel a = (if (70 <=? riskScore a)%Z then high
                      else if (30 <=? riskScore a)%Z then medium else low)
    /\ isAcceptable a = (riskScore a <? 70)%Z
    /\ (lossHit = true -> drawdownHit = false -> positionsHit = false ->
        highRisk = false ->
        riskScore a = 50%Z /\ riskLevel a = medium /\ isAcceptable a = true)
    /\ (lossHit = true -> drawdownHit = true -> positionsHit = false ->
        highRisk = false ->
        riskScore a = 90%Z /\ riskLevel a = high /\ isAcceptable a = false).
Proof.
  intros Hinit _ _.
  destruct (@assessRisk_initialized cfg rm analysis portfolio Hinit)
    as [a [Hrun [Hscore [Hlevel Hacc]]]].
  exists a, (geb (dailyLoss rm) (getMaxDailyLoss cfg)),
    (gtb (calculateDrawdown portfolio) (fl (getMaxDrawdown cfg))),
    (geb (openPositions rm) (getMaxOpenPositions cfg)),
    (anyHigh analysis).
  split; [exact Hrun|].
  split; [apply geb_spec|].
  split; [apply drawdown_test|].
  split; [apply geb_spec|].
  split; [apply anyHigh_spec|].
  split; [exact Hscore|].
  split; [rewrite Hlevel, Hscore; reflexivity|].
  split; [rewrite Hacc, Hscore; reflexivity|].
  split; intros H1 H2 H3 H4;
    rewrite Hlevel, Hacc, Hscore, H1, H2, H3, H4; repeat split; reflexivity.
Qed.

(** The two worked cases: the daily loss at its limit with a portfolio
    that has lost nothing, and with one that has lost a tenth against a
    limit of 0.05. *)
Lemma assessRisk_additive_score_witness :
  (exists a,
     assessRisk config1000 lossOnly (Some []) evenPortfolio = Ok a
     /\ riskScore a = 50%Z /\ riskLevel a = medium /\ isAcceptable a = true)
  /\ (exists a,
        assessRisk config1000 lossOnly (Some []) fallen = Ok a
        /\ riskScore a = 90%Z /\ riskLevel a = high
        /\ isAcceptable a = false).
Proof.
  assert (Hlimit : moderate (getMaxDrawdown config1000))
    by (vm_compute; discriminate).
  assert (Hloss : getMaxDailyLoss config1000 <= dailyLoss lossOnly)
    by (vm_compute; discriminate).
  assert (Hopen : ~ getMaxOpenPositions config1000 <= openPositions lossOnly)
    by (intro H; vm_compute in H; apply H; reflexivity).
  assert (Hcalm : ~ someHigh (Some []))
    by (intros [l [x [E [Hin _]]]]; injection E as <-; destruct Hin).
  split.
  - assert (Hvalues : moderatePortfolio evenPortfolio)
      by (split; vm_compute; discriminate).
    destruct (@assessRisk_additive_score config1000 lossOnly (Some [])
                evenPortfolio eq_refl Hlimit Hvalues)
      as [a [l [d [p [h [Ha [Hl [Hd [Hp [Hh [_ [_ [_ [H50 _]]]]]]]]]]]]]].
    exists a. split; [exact Ha|]. apply H50.
    + apply Hl. exact Hloss.
    + destruct d; [|reflexivity]. exfalso.
      destruct (proj1 Hd eq_refl)
        as [H | [q [i [c [E [Hi [Hc [_ [_ H]]]]]]]]].
      * vm_compute in H. discriminate H.
      * injection E as <-. injection Hi as <-. injection Hc as <-.
        vm_compute in H. discriminate H.
    + destruct p; [|reflexivity]. exfalso. apply Hopen, Hp. reflexivity.
    + destruct h; [|reflexivity]. exfalso. apply Hcalm, Hh. reflexivity.
  - assert (Hvalues : moderatePortfolio fallen)
      by (split; vm_compute; discriminate).
    destruct (@assessRisk_additive_score config1000 lossOnly (Some [])
                fallen eq_refl Hlimit Hvalues)
      as [a [l [d [p [h [Ha [Hl [Hd [Hp [Hh [_ [_ [_ [_ H90]]]]]]]]]]]]]].
    exists a. split; [exact Ha|]. apply H90.
    + apply Hl. exact Hloss.
    + apply Hd. right.
      exists {| initialValue := Some 100000; currentValue := Some 90000 |},
        100000, 90000.
      split; [reflexivity|]. split; [reflexivity|]. split; [reflexivity|].
      split; [discriminate|]. split; [discriminate|].
      vm_compute. reflexivity.
    + destruct p; [|reflexivity]. exfalso. apply Hopen, Hp. reflexivity.
    + destruct h; [|reflexivity]. exfalso. apply Hcalm, Hh. reflexivity.
Defined.

(** Where the rounding decides: a portfolio of initial value 1 and
    current value 0.95 has lost the twentieth part, not more; the double
    difference of 1 and 0.95 is above the double 0.05, and the assessment
    counts the drawdown as exceeding the limit of 0.05. *)
Example rounding_decides_the_drawdown :
  ~ 5 # 100 < (1 - (95 # 100)) / 1
  /\ fl (5 # 100) < calculateDrawdown onTheLine
  /\ exists a,
       assessRisk config1000 idleManager (Some []) onTheLine = Ok a
       /\ riskScore a = 40%Z
       /\ warnings a = ["Maximum drawdown exceeded"].
Proof.
  split; [intro H; vm_compute in H; discriminate H|].
  split; [vm_compute; reflexivity|].
  eexists. split; [vm_compute; reflexivity|]. split; reflexivity.
Qed.

End RiskManagerFacts.

Module DrawdownFacts.
Import RiskManager RiskManagerFacts.

Lemma calculateDrawdown_degenerate p :
  absentOrZero (initialValue p) \/ absentOrZero (currentValue p) ->
  calculateDrawdown (Some p) = 0.
Proof.
  intros H. unfold calculateDrawdown.
  destruct H as [H | H]; apply truthy_false in H; rewrite H; simpl.
  - reflexivity.
  - rewrite orb_true_r. reflexivity.
Qed.

(** C10, as amended.  When the portfolio handed to [assessRisk] has no
    initial value, no current value, or a zero in either, the drawdown is
    0; with a drawdown limit that is not negative, the assessment then
    carries no points and no warning for the drawdown: its score is the
    sum of the other three factors.  A portfolio that lost everything is
    such a case. *)
Theorem zero_value_portfolio_has_no_drawdown cfg rm analysis p :
  isInitialized rm = true ->
  0 <= getMaxDrawdown cfg ->
  absentOrZero (initialValue p) \/ absentOrZero (currentValue p) ->
  calculateDrawdown (Some p) = 0
  /\ exists a,
       assessRisk cfg rm analysis (Some p) = Ok a
       /\ riskScore a
          = (points (geb (dailyLoss rm) (getMaxDailyLoss cfg)) 50
             + points (geb (openPositions rm) (getMaxOpenPositions cfg)) 30
             + points (anyHigh analysis) 20)%Z
       /\ ~ In "Maximum drawdown exceeded" (warnings a).
Proof.
  intros Hinit Hmax Hp.
  pose proof (calculateDrawdown_degenerate p Hp) as Hdd.
  split; [exact Hdd|].
  assert (Hno : gtb (calculateDrawdown (Some p)) (fl (getMaxDrawdown cfg))
                = false).
  { rewrite Hdd. apply gtb_false. apply DoubleFacts.fl_nonneg. exact Hmax. }
  unfold assessRisk. rewrite Hinit. simpl negb. cbv iota.
  eexists. split; [reflexivity|]. cbn [riskScore warnings].
  rewrite Hno. unfold penalise, points.
  destruct (geb (dailyLoss rm) (getMaxDailyLoss cfg)),
    (geb (openPositions rm) (getMaxOpenPositions cfg)),
    (anyHigh analysis); simpl; split; try reflexivity;
    intro H; repeat (destruct H as [H | H]; [discriminate H|]); exact H.
Qed.

Lemma zero_value_portfolio_has_no_drawdown_witness :
  calculateDrawdown (Some wipedOut) = 0
  /\ exists a,
       assessRisk config1000 lossOnly (Some []) (Some wipedOut) = Ok a
       /\ riskScore a
          = (points (geb (dailyLoss lossOnly) (getMaxDailyLoss config1000)) 50
             + points (geb (openPositions lossOnly)
                           (getMaxOpenPositions config1000)) 30
             + points (anyHigh (Some [])) 20)%Z
       /\ ~ In "Maximum drawdown exceeded" (warnings a).
Proof.
  apply (@zero_value_portfolio_has_no_drawdown config1000 lossOnly (Some [])
                                               wipedOut).
  - reflexivity.
  - simpl. discriminate.
  - right. simpl. reflexivity.
Defined.

(** C10, as stated, fails.  Under a configuration whose drawdown limit is
    negative, a portfolio that lost everything has the drawdown 0, and 0
    exceeds the limit: the assessment of a risk manager without losses or
    positions carries the 40 points and the warning of the drawdown. *)
Lemma zero_drawdown_exceeds_negative_limit :
  currentValue wipedOut = Some 0
  /\ calculateDrawdown (Some wipedOut) = 0
  /\ getMaxDrawdown negativeLimit == - (1 # 100)
  /\ assessRisk negativeLimit idleManager (Some []) (Some wipedOut)
     = Ok {| isAcceptable := true;
             riskLevel := medium;
             riskScore := 40;
             warnings := ["Maximum drawdown exceeded"];
             maxPositionSize := 1000 * (6 # 10) |}.
Proof. repeat split. Qed.

End DrawdownFacts.

(** ** TradingStrategy *)

Module TradingStrategyFacts.
Import TradingStrategy.

Lemma some_includes (sub : string) (l : list string) :
  JS.some (fun s => includes s sub) l = true
  <-> exists s, In s l /\ includes s sub = true.
Proof. unfold JS.some. apply existsb_exists. Qed.

(** What [generateSignalForSymbol] returns for a classification that
    selects an action. *)
Lemma generateSignalForSymbol_selected cfg w analysis ra act :
  selects analysis ra act ->
  generateSignalForSymbol cfg w analysis ra
  = (Some {| ts_symbol := ma_symbol analysis;
             action := act;
             quantity :=
               inject_Z (Math_round
                           (fmul (fmul (getMaxPositionSize cfg) (1 # 10))
                                 (fadd (confidence analysis) (1 # 10))));
             price := 0;
             strategy := "recall_enhanced";
             ts_confidence :=
               Math_min (95 # 100) (fadd (confidence analysis) (1 # 10));
             stopLoss := Some (match act with
                               | buy => - getStopLossPercentage cfg
                               | _ => getStopLossPercentage cfg
                               end);
             takeProfit := Some (match act with
                                 | buy => getTakeProfitPercentage cfg
                                 | _ => - getTakeProfitPercentage cfg
                                 end);
             ts_timestamp := fst (Date_now w) |},
     snd (Date_now w)).
Proof.
  intros [Hrisk [Hconf Hact]]. unfold generateSignalForSymbol.
  assert (H1 : RiskLevel_eqb (ma_riskLevel analysis) high
               && RiskLevel_eqb (riskLevel ra) high = false).
  { apply not_true_is_false. intro H. apply andb_prop in H.
    destruct H as [Ha Hb]. apply RiskLevel_eqb_spec in Ha, Hb. tauto. }
  rewrite H1.
  assert (H2 : ltb (confidence analysis) (4 # 10) = false)
    by (apply ltb_false; exact Hconf).
  rewrite H2.
  destruct Hact as [[-> [Ht Hs]] | [-> [Ht Hs]]].
  - apply some_includes in Hs. rewrite Ht, Hs. reflexivity.
  - apply some_includes in Hs. rewrite Ht, Hs. reflexivity.
Qed.

(** C1, as amended.  A classification that passes the rejection rules and
    selects buy or sell yields a signal whose quantity is the rounding to
    an integer of the double product (maxPositionSize x 0.1) x
    (confidence + 0.1), where confidence is that of the classification:
    the sizing uses the boosted confidence, before the cap at 0.95 that
    the signal's own confidence field gets, and each of the three
    operations rounds to a double.  The two numbers are taken to be
    moderate, so that no product overflows. *)
Theorem quantity_uses_boosted_confidence cfg w analysis ra act :
  selects analysis ra act ->
  moderate (getMaxPositionSize cfg) ->
  moderate (confidence analysis) ->
  exists sg w',
    generateSignalForSymbol cfg w analysis ra = (Some sg, w')
    /\ action sg = act
    /\ quantity sg
       = inject_Z (Math_round
                     (fmul (fmul (getMaxPositionSize cfg) (1 # 10))
                           (fadd (confidence analysis) (1 # 10)))).
Proof.
  intros Hsel _ _. rewrite (generateSignalForSymbol_selected cfg w Hsel).
  eexists. eexists. split; [reflexivity|]. split; reflexivity.
Qed.

(** With a maximum position of 1000, a classification of confidence 0.7
    is boosted to 0.7999999999999999 and sized at 80. *)
Lemma quantity_uses_boosted_confidence_witness :
  (exists sg w',
     generateSignalForSymbol config1000 world0 (bullishAt (7 # 10))
                             (assessmentOf low 0 1000) = (Some sg, w')
     /\ action sg = buy
     /\ quantity sg
        = inject_Z (Math_round
                      (fmul (fmul (getMaxPositionSize config1000) (1 # 10))
                            (fadd (confidence (bullishAt (7 # 10)))
                                  (1 # 10)))))
  /\ Math_round (fmul (fmul (getMaxPositionSize config1000) (1 # 10))
                      (fadd (confidence (bullishAt (7 # 10))) (1 # 10)))
     = 80%Z.
Proof.
  split; [|vm_compute; reflexivity].
  apply (@quantity_uses_boosted_confidence config1000 world0
           (bullishAt (7 # 10)) (assessmentOf low 0 1000) buy).
  - unfold selects. split; [|split].
    + intros [H _]. discriminate H.
    + simpl. discriminate.
    + left. split; [reflexivity|]. split; [reflexivity|].
      exists "macd_bullish". split; [simpl; auto|reflexivity].
  - vm_compute. discriminate.
  - vm_compute. discriminate.
Defined.

(** Where the rounding decides: with a maximum position of 450 and a
    classification of confidence 0.6, the exact product 45 x 0.7 is 31.5
    and would be sized at 32; the double product is
    31.499999999999996, and the signal is sized at 31. *)
Example rounding_decides_the_quantity :
  Math_round (450 * (1 # 10) * ((6 # 10) + (1 # 10))) = 32%Z
  /\ exists sg w',
       generateSignalForSymbol (configSized 450) world0 (bullishAt (6 # 10))
                               (assessmentOf low 0 450) = (Some sg, w')
       /\ quantity sg == 31.
Proof.
  split; [reflexivity|].
  eexists. eexists. split; [vm_compute; reflexivity|]. reflexivity.
Qed.

(** C1, as stated, fails.  With a maximum position of 1000, a bullish
    classification of confidence 0.8 is sized at 90, not at
    round(1000 x 0.1 x 0.8) = 80; and a classification of confidence 0.9,
    whose signal carries the capped confidence 0.95, is sized at 100,
    which is neither round(100 x 0.9) nor round(100 x 0.95). *)
Lemma quantity_is_not_round_of_confidence :
  (exists sg w',
     generateSignalForSymbol config1000 world0 (bullishAt (8 # 10))
                             (assessmentOf low 0 1000) = (Some sg, w')
     /\ action sg = buy
     /\ quantity sg == 90
     /\ Math_round ((1 # 10) * 1000 * (8 # 10)) = 80%Z
     /\ ~ quantity sg
          == inject_Z (Math_round ((1 # 10) * getMaxPositionSize config1000
                                   * confidence (bullishAt (8 # 10)))))
  /\ (exists sg w',
        generateSignalForSymbol config1000 world0 (bullishAt (9 # 10))
                                (assessmentOf low 0 1000) = (Some sg, w')
        /\ quantity sg == 100
        /\ ts_confidence sg == 95 # 100
        /\ ~ quantity sg
             == inject_Z (Math_round ((1 # 10)
                                      * getMaxPositionSize config1000
                                      * confidence (bullishAt (9 # 10))))
        /\ ~ quantity sg
             == inject_Z (Math_round ((1 # 10)
                                      * getMaxPositionSize config1000
                                      * ts_confidence sg))).
Proof.
  split.
  - eexists. eexists. split; [reflexivity|].
    split; [reflexivity|]. split; [reflexivity|]. split; [reflexivity|].
    intro H. vm_compute in H. discriminate H.
  - eexists. eexists. split; [reflexivity|].
    split; [reflexivity|]. split; [reflexivity|].
    split; intro H; vm_compute in H; discriminate H.
Qed.

Lemma generateEach_riskLevel_only cfg analysis :
  forall w ra1 ra2,
    riskLevel ra1 = riskLevel ra2 ->
    generateEach cfg w analysis ra1 = generateEach cfg w analysis ra2.
Proof.
  induction analysis as [|a rest IH]; intros w ra1 ra2 H; [reflexivity|].
  cbn [generateEach].
  assert (Hone : generateSignalForSymbol cfg w a ra1
                 = generateSignalForSymbol cfg w a ra2)
    by (unfold generateSignalForSymbol; rewrite H; reflexivity).
  rewrite Hone.
  destruct (generateSignalForSymbol cfg w a ra2) as [sg w1].
  rewrite (IH w1 ra1 ra2 H). reflexivity.
Qed.

(** C9.  [generateSignals] reads the risk assessment through its
    [riskLevel] only: two assessments of the same risk level, whatever
    their scores, warnings, acceptability and position-size ceilings, give
    the same batch of signals. *)
Theorem generateSignals_reads_riskLevel_only cfg s w analysis ra1 ra2 :
  riskLevel ra1 = riskLevel ra2 ->
  generateSignals cfg s w analysis ra1 = generateSignals cfg s w analysis ra2.
Proof.
  intro H. unfold generateSignals.
  rewrite (generateEach_riskLevel_only cfg analysis w ra1 ra2 H).
  reflexivity.
Qed.

Lemma generateSignals_reads_riskLevel_only_witness :
  generateSignals config1000 (initialize new) world0
                  [bullishAt (7 # 10); bullishAt (8 # 10)]
                  (assessmentOf medium 30 600)
  = generateSignals config1000 (initialize new) world0
                    [bullishAt (7 # 10); bullishAt (8 # 10)]
                    {| isAcceptable := false;
                       riskLevel := medium;
                       riskScore := 65;
                       warnings := ["Daily loss limit reached"];
                       maxPositionSize := 1 |}.
Proof.
  apply (@generateSignals_reads_riskLevel_only config1000 (initialize new)
           world0 [bullishAt (7 # 10); bullishAt (8 # 10)]).
  reflexivity.
Defined.

End TradingStrategyFacts.

(** ** Array.prototype.sort *)

Module SortFacts.

Section Insertion.
Context {A : Type}.
Variable cmp : A -> A -> Q.

Hypothesis cmp_antisym :
  forall x y, gtb (cmp y x) 0 = true -> gtb (cmp x y) 0 = false.

Lemma insert_back_HdRel x y r :
  HdRel (follows cmp) y r -> follows cmp y x ->
  HdRel (follows cmp) y (insert_back cmp x r).
Proof.
  intros Hr Hx. destruct r as [|z r]; simpl.
  - constructor. exact Hx.
  - destruct (gtb (cmp z x) 0); constructor.
    + inversion Hr; assumption.
    + exact Hx.
Qed.

Lemma insert_back_Sorted x r :
  Sorted (follows cmp) r -> Sorted (follows cmp) (insert_back cmp x r).
Proof.
  induction r as [|y r IH]; intro Hs; simpl.
  - repeat constructor.
  - destruct (gtb (cmp y x) 0) eqn:E.
    + inversion Hs as [|? ? Hs' Hhd]; subst. constructor.
      * apply IH. exact Hs'.
      * apply insert_back_HdRel; [exact Hhd|].
        unfold follows. apply cmp_antisym. exact E.
    + constructor; [exact Hs|]. constructor. exact E.
Qed.

Lemma fold_insert_Sorted l :
  forall r,
    Sorted (follows cmp) r ->
    Sorted (follows cmp)
           (fold_left (fun rprefix x => insert_back cmp x rprefix) l r).
Proof.
  induction l as [|x l IH]; intros r Hr; simpl; [exact Hr|].
  apply IH. apply insert_back_Sorted. exact Hr.
Qed.

End Insertion.

Section Snoc.
Context {A : Type}.
Variable R : A -> A -> Prop.

Lemma Sorted_snoc l x :
  Sorted R l -> (forall l' y, l = l' ++ [y] -> R y x) -> Sorted R (l ++ [x]).
Proof.
  induction l as [|a l IH]; intros Hs Hlast; simpl.
  - repeat constructor.
  - inversion Hs as [|? ? Hs' Hhd]; subst. constructor.
    + apply IH; [exact Hs'|]. intros l' y ->. apply (Hlast (a :: l') y).
      reflexivity.
    + destruct l as [|b l]; simpl.
      * constructor. apply (Hlast [] a). reflexivity.
      * constructor. inversion Hhd; assumption.
Qed.

End Snoc.

Section Reverse.
Context {A : Type}.
Variable R : A -> A -> Prop.

Lemma Sorted_rev l :
  Sorted R l -> Sorted (fun x y => R y x) (rev l).
Proof.
  induction l as [|a l IH]; intro Hs; simpl; [constructor|].
  inversion Hs as [|? ? Hs' Hhd]; subst.
  apply Sorted_snoc; [apply IH; exact Hs'|].
  intros l' y Heq. destruct l as [|b l]; simpl in Heq.
  - destruct l'; discriminate Heq.
  - apply app_inj_tail in Heq. destruct Heq as [_ ->].
    inversion Hhd; assumption.
Qed.

Lemma Sorted_firstn n :
  forall l, Sorted R l -> Sorted R (firstn n l).
Proof.
  induction n as [|n IH]; intros l Hs; simpl; [constructor|].
  destruct l as [|a l]; [constructor|].
  inversion Hs as [|? ? Hs' Hhd]; subst. constructor.
  - apply IH. exact Hs'.
  - destruct n; simpl; [constructor|].
    destruct l; constructor. inversion Hhd; assumption.
Qed.

End Reverse.

(** Neighbours in the output of [sort] are in order, for a comparator
    that never puts two elements each ahead of the other. *)
Lemma sort_Sorted {A} (cmp : A -> A -> Q) l :
  (forall x y, gtb (cmp y x) 0 = true -> gtb (cmp x y) 0 = false) ->
  Sorted (fun a b => gtb (cmp a b) 0 = false) (JS.sort cmp l).
Proof.
  intro Hanti. unfold JS.sort.
  apply (Sorted_rev (R := fun y x => gtb (cmp x y) 0 = false)).
  apply fold_insert_Sorted; [exact Hanti|constructor].
Qed.

(** A list that the comparator has nothing to say about is left as it
    is. *)
Lemma fold_insert_indifferent {A} (cmp : A -> A -> Q) (S : A -> Prop) :
  (forall x y, S x -> S y -> gtb (cmp y x) 0 = false) ->
  forall todo done,
    Forall S todo -> Forall S done ->
    fold_left (fun rprefix x => insert_back cmp x rprefix) todo done
    = rev todo ++ done.
Proof.
  intros Hcmp. induction todo as [|x todo IH]; intros done Ht Hd; simpl.
  - reflexivity.
  - inversion Ht as [|? ? Hx Ht']; subst.
    assert (Hins : insert_back cmp x done = x :: done).
    { destruct done as [|y done]; simpl; [reflexivity|].
      inversion Hd; subst. rewrite Hcmp; auto. }
    rewrite Hins, IH; auto.
    rewrite <- app_assoc. reflexivity.
Qed.

Lemma sort_indifferent {A} (cmp : A -> A -> Q) l :
  (forall x y, In x l -> In y l -> gtb (cmp y x) 0 = false) ->
  JS.sort cmp l = l.
Proof.
  intro Hcmp. unfold JS.sort.
  rewrite (@fold_insert_indifferent A cmp (fun x => In x l)); auto.
  - rewrite app_nil_r. apply rev_involutive.
  - apply Forall_forall. auto.
Qed.

End SortFacts.

(** ** RecallMemory *)

Module RecallMemoryFacts.
Import RecallMemory.

Lemma inject_Z_pos z : 0 < inject_Z z <-> (0 < z)%Z.
Proof. unfold Qlt, inject_Z. simpl. lia. Qed.

Lemma fsub_opp a b : fsub a b == - fsub b a.
Proof.
  unfold fsub. rewrite <- DoubleFacts.fl_opp. apply DoubleFacts.fl_comp.
  ring.
Qed.

Lemma gap_sym x y : Qabs (fsub x y) == Qabs (fsub y x).
Proof. rewrite (fsub_opp x y). apply Qabs_opp. Qed.

(** Swapping the two records changes the sign of the comparison. *)
Lemma relevance_opp a b : relevance b a == - relevance a b.
Proof.
  unfold relevance, Math_abs.
  assert (E : gtb (Qabs (fsub (importance b) (importance a))) (fl (1 # 10))
              = gtb (Qabs (fsub (importance a) (importance b)))
                    (fl (1 # 10))).
  { unfold gtb. rewrite (gap_sym (importance b) (importance a)).
    reflexivity. }
  rewrite E.
  replace (timestamp a - timestamp b)%Z
    with (- (timestamp b - timestamp a))%Z by lia.
  rewrite Z.abs_opp.
  destruct (gtb (Qabs (fsub (importance a) (importance b))) (fl (1 # 10))).
  - apply fsub_opp.
  - destruct (60000 <? Z.abs (timestamp b - timestamp a))%Z.
    + rewrite inject_Z_opp. reflexivity.
    + replace (accessCount a - accessCount b)%Z
        with (- (accessCount b - accessCount a))%Z by lia.
      rewrite inject_Z_opp. reflexivity.
Qed.

Lemma relevance_antisym x y :
  gtb (relevance y x) 0 = true -> gtb (relevance x y) 0 = false.
Proof.
  rewrite gtb_spec, gtb_false. pose proof (relevance_opp y x). lra.
Qed.

Lemma relevance_refl a : relevance a a == 0.
Proof. pose proof (relevance_opp a a). lra. Qed.

(** What the comparison function means by not putting [a] behind [b]. *)
Lemma relevance_rankedAhead a b : relevance a b <= 0 -> rankedAhead a b.
Proof.
  unfold relevance, rankedAhead, beyondBand, Math_abs. cbv zeta.
  replace (timestamp b - timestamp a)%Z
    with (- (timestamp a - timestamp b))%Z by lia.
  rewrite Z.abs_opp.
  destruct (gtb (Qabs (fsub (importance a) (importance b))) (fl (1 # 10)))
    eqn:Egap.
  - apply gtb_spec in Egap. intro H.
    split; [|split; intros Hnear; contradiction].
    intros _.
    pose proof (DoubleFacts.fl_nonneg (1 # 10)) as Hband.
    pose proof (fsub_opp (importance a) (importance b)) as Hopp.
    assert (Hpos : 0 < fsub (importance a) (importance b)).
    { revert Egap. apply Qabs_case; intros; lra. }
    unfold fsub in Hpos. apply DoubleFacts.fl_pos_inv in Hpos.
    apply DoubleFacts.fl_lt_inv. lra.
  - apply gtb_false in Egap.
    assert (Hnear : ~ fl (1 # 10)
                      < Qabs (fsub (importance a) (importance b))) by lra.
    destruct (60000 <? Z.abs (timestamp a - timestamp b))%Z eqn:Eapart.
    + apply Z.ltb_lt in Eapart. intro H.
      assert (Hz : ~ (0 < - (timestamp a - timestamp b))%Z).
      { intro Hz. apply inject_Z_pos in Hz. lra. }
      split; [intro; contradiction|]. split; intros; lia.
    + apply Z.ltb_ge in Eapart. intro H.
      assert (Hz : ~ (0 < accessCount b - accessCount a)%Z).
      { intro Hz. apply inject_Z_pos in Hz. lra. }
      split; [intro; contradiction|]. split; intros; lia.
Qed.

Lemma rankedAhead_touch a b n m :
  rankedAhead a b -> rankedAhead (touch n a) (touch m b).
Proof.
  unfold rankedAhead, touch. simpl. intros [H1 [H2 H3]].
  repeat split; auto. intros Hg Ha. specialize (H3 Hg Ha). lia.
Qed.

Lemma rankedBeforeb_complete a b :
  rankedBefore a b -> rankedBeforeb a b = true.
Proof.
  unfold rankedBefore, rankedBeforeb. cbv zeta. intros [H1 [H2 H3]].
  destruct (gtb (Qabs (importance a - importance b)) (1 # 10)) eqn:Egap.
  - apply gtb_spec in Egap. apply ltb_spec. auto.
  - apply gtb_false in Egap.
    destruct (60000 <? Z.abs (timestamp a - timestamp b))%Z eqn:Eapart.
    + apply Z.ltb_lt in Eapart. apply Z.ltb_lt. auto.
    + apply Z.ltb_ge in Eapart. apply Z.leb_le. auto.
Qed.

(** The records that [touch_all] returns are the records it was given,
    each touched once. *)
Lemma touch_all_touches result :
  forall w m,
    Forall2 (fun r r' => exists now, r' = touch now r) result
            (fst (fst (touch_all w m result))).
Proof.
  induction result as [|r rest IH]; intros w m; simpl; [constructor|].
  match goal with
  | |- context [touch_all ?w1 ?m1 rest] =>
      specialize (IH w1 m1); destruct (touch_all w1 m1 rest) as [[rs m2] w2]
  end.
  simpl in *. constructor; [eexists; reflexivity|exact IH].
Qed.

Lemma StronglySorted_touched (R R' : MemoryRecord -> MemoryRecord -> Prop) l :
  (forall a b n m, R a b -> R' (touch n a) (touch m b)) ->
  forall l',
    Forall2 (fun r r' => exists now, r' = touch now r) l l' ->
    StronglySorted R l -> StronglySorted R' l'.
Proof.
  intro Hstep. induction l as [|a l IH]; intros l' HF Hs; inversion HF; subst.
  - constructor.
  - inversion Hs as [|? ? Hs' Hall]; subst. constructor.
    + apply IH; assumption.
    + match goal with
      | H : exists _, _ = touch _ a |- _ => destruct H as [n ->]
      end.
      match goal with
      | H : Forall2 _ l ?t |- Forall _ ?t =>
          clear - H Hall Hstep; induction H as [|x x' ? ? [m ->] _ IHF];
          constructor
      end.
      * apply Hstep. inversion Hall; assumption.
      * apply IHF. inversion Hall; assumption.
Qed.

(** No arrangement of three records can satisfy the stated order when
    the first must precede the second, the second the third, and the
    third the first. *)
Lemma permutation_of_three {A} (a b c : A) l :
  Permutation [a; b; c] l ->
  l = [a; b; c] \/ l = [a; c; b] \/ l = [b; a; c] \/ l = [b; c; a]
  \/ l = [c; a; b] \/ l = [c; b; a].
Proof.
  intro HP.
  assert (Hlen : List.length l = 3%nat)
    by (rewrite <- (Permutation_length HP); reflexivity).
  destruct l as [|x [|y [|z [|]]]]; try discriminate Hlen.
  assert (Hx : In x [a; b; c])
    by (apply (Permutation_in x (Permutation_sym HP)); left; reflexivity).
  simpl in Hx. destruct Hx as [<- | [<- | [<- | []]]].
  - apply Permutation_cons_inv, Permutation_length_2_inv in HP.
    destruct HP as [H | H]; injection H as <- <-; auto.
  - assert (HP' : Permutation (b :: [a; c]) (b :: [y; z]))
      by (eapply perm_trans; [apply perm_swap|exact HP]).
    apply Permutation_cons_inv, Permutation_length_2_inv in HP'.
    destruct HP' as [H | H]; injection H as <- <-; auto 6.
  - assert (HP' : Permutation (c :: [a; b]) (c :: [y; z])).
    { eapply perm_trans; [|exact HP].
      eapply perm_trans; [apply perm_swap|].
      apply perm_skip. apply perm_swap. }
    apply Permutation_cons_inv, Permutation_length_2_inv in HP'.
    destruct HP' as [H | H]; injection H as <- <-; auto 7.
Qed.

Lemma StronglySorted_pair {A} (R : A -> A -> Prop) l1 a l2 b l3 :
  StronglySorted R (l1 ++ a :: l2 ++ b :: l3) -> R a b.
Proof.
  induction l1 as [|x l1 IH]; simpl; intro H.
  - apply StronglySorted_inv in H. destruct H as [_ H].
    rewrite Forall_forall in H. apply H. apply in_or_app. right. left.
    reflexivity.
  - apply StronglySorted_inv in H. destruct H as [H _]. auto.
Qed.

(** C3, as stated, fails.  Three cycle records of equal importance are
    stored 40 s and 50 s apart and have been returned 2, 1 and 0 times
    before.  The query returns them oldest first; the oldest and the
    newest are 90 s apart, so the stated order wants the newest ahead of
    the oldest.  No other arrangement of the three satisfies the stated
    order either. *)
Lemma recall_order_not_pairwise :
  fst (fst bandScenario) = Ok [oldest; middle; newest]
  /\ ~ StronglySorted rankedBefore [oldest; middle; newest]
  /\ forall l, Permutation [oldest; middle; newest] l ->
               ~ StronglySorted rankedBefore l.
Proof.
  split; [vm_compute; reflexivity|].
  assert (Hac : ~ rankedBefore oldest newest).
  { intro H. apply rankedBeforeb_complete in H. revert H.
    vm_compute. discriminate. }
  assert (Hba : ~ rankedBefore middle oldest).
  { intro H. apply rankedBeforeb_complete in H. revert H.
    vm_compute. discriminate. }
  assert (Hcb : ~ rankedBefore newest middle).
  { intro H. apply rankedBeforeb_complete in H. revert H.
    vm_compute. discriminate. }
  assert (Hall : forall l, Permutation [oldest; middle; newest] l ->
                           ~ StronglySorted rankedBefore l).
  { intros l HP HS. apply permutation_of_three in HP.
    destruct HP as [-> | [-> | [-> | [-> | [-> | ->]]]]].
    - apply Hac. exact (StronglySorted_pair [] oldest [middle] newest [] HS).
    - apply Hac. exact (StronglySorted_pair [] oldest [] newest [middle] HS).
    - apply Hba. exact (StronglySorted_pair [] middle [] oldest [newest] HS).
    - apply Hba. exact (StronglySorted_pair [] middle [newest] oldest [] HS).
    - apply Hcb. exact (StronglySorted_pair [] newest [oldest] middle [] HS).
    - apply Hcb. exact (StronglySorted_pair [] newest [] middle [oldest] HS). }
  split; [apply Hall; apply Permutation_refl|exact Hall].
Qed.

End RecallMemoryFacts.

Module RecallSimilarFacts.
Import RecallMemory.

Lemma mem_false key l : ~ In key l -> JS.mem key l = false.
Proof.
  intro H. unfold JS.mem. apply not_true_is_false. intro E.
  apply existsb_exists in E. destruct E as [k [Hin Hk]].
  apply String.eqb_eq in Hk. subst. auto.
Qed.

Lemma calculateSimilarity_disjoint sampleData r :
  disjointFields sampleData r ->
  calculateSimilarity sampleData (data r) = 0.
Proof.
  intro Hd. unfold calculateSimilarity.
  assert (H : filter (fun key => JS.mem key (keys (data r)))
                     (keys sampleData) = []).
  { unfold disjointFields in Hd. revert Hd.
    induction (keys sampleData) as [|k ks IH]; intro Hd; simpl.
    - reflexivity.
    - rewrite mem_false by (apply Hd; left; reflexivity).
      apply IH. intros key Hk. apply Hd. right. exact Hk. }
  rewrite H. reflexivity.
Qed.

(** C4, as amended.  When the sample shares no property name with any
    record that the query for the kind returns, every score is 0, the
    sort by score changes nothing, and [recallSimilar] returns those
    records in the order of the query, cut at [limit] -- not the empty
    list, unless the query returned nothing or [limit] is 0. *)
Theorem recallSimilar_without_overlap w st sampleData ty limit
        records st' w' :
  recall w st {| q_type := Some ty; q_tags := None; q_timeRange := None;
                 q_importance := None; q_limit := Some 100%nat |}
  = (Ok records, st', w') ->
  (forall r, In r records -> disjointFields sampleData r) ->
  recallSimilar w st sampleData ty limit
  = (Ok (firstn limit records), st', w').
Proof.
  intros Hrecall Hdisjoint. unfold recallSimilar. rewrite Hrecall.
  assert (Hscored :
            map (fun r => (r, calculateSimilarity sampleData (data r)))
                records
            = map (fun r => (r, 0)) records).
  { apply map_ext_in. intros r Hr.
    rewrite (calculateSimilarity_disjoint (Hdisjoint r Hr)). reflexivity. }
  rewrite Hscored.
  rewrite SortFacts.sort_indifferent.
  - unfold slice0. rewrite firstn_map, map_map. simpl.
    rewrite map_id. reflexivity.
  - intros x y Hx Hy. apply in_map_iff in Hx, Hy.
    destruct Hx as [rx [<- _]]. destruct Hy as [ry [<- _]]. reflexivity.
Qed.

(** C4, as stated, fails.  A market event with the properties type,
    symbol and price is stored; the sample has the single property
    volume.  No property name is shared, the score is 0, and
    [recallSimilar] returns the stored record. *)
Lemma recallSimilar_returns_unrelated_records :
  fst (fst similarScenario) = Ok [storedEvent]
  /\ disjointFields volumeSample storedEvent
  /\ calculateSimilarity volumeSample (data storedEvent) = 0.
Proof.
  split; [vm_compute; reflexivity|]. split; [|reflexivity].
  intros key Hk Hin. simpl in Hk, Hin.
  destruct Hk as [<- | []].
  repeat (destruct Hin as [Hin | Hin]; [discriminate Hin|]). exact Hin.
Qed.

Lemma recallSimilar_without_overlap_witness :
  recallSimilar eventWorld eventMemory volumeSample "market_event" 10
  = (Ok (firstn 10 [storedEvent]), snd (fst eventQuery), snd eventQuery).
Proof.
  apply (@recallSimilar_without_overlap eventWorld eventMemory volumeSample
           "market_event" 10 [storedEvent] (snd (fst eventQuery))
           (snd eventQuery)).
  - vm_compute. reflexivity.
  - intros r [<- | []] key Hk Hin. simpl in Hk, Hin.
    destruct Hk as [<- | []].
    repeat (destruct Hin as [Hin | Hin]; [discriminate Hin|]). exact Hin.
Defined.

End RecallSimilarFacts.

Module CleanupFacts.
Import RecallMemory.

Lemma delete_all ids :
  forall m,
    fold_left (fun m rid => Map_delete rid m) ids m
    = filter (fun x => negb (JS.mem (id x) ids)) m.
Proof.
  induction ids as [|k ids IH]; intro m; simpl.
  - symmetry. apply forallb_filter_id. apply forallb_forall. reflexivity.
  - rewrite IH. unfold Map_delete.
    induction m as [|x m IHm]; simpl; [reflexivity|].
    destruct (String.eqb (id x) k); simpl.
    + exact IHm.
    + destruct (JS.mem (id x) ids); simpl; [exact IHm|].
      f_equal. exact IHm.
Qed.

Lemma mem_true key l : In key l -> JS.mem key l = true.
Proof.
  intro H. unfold JS.mem. apply existsb_exists. exists key.
  split; [exact H|apply String.eqb_refl].
Qed.

(** After a clean-up nothing is left that the same clean-up would
    delete. *)
Lemma nothing_expired_left cutoff m :
  filter (expired cutoff)
         (filter (fun x => negb (JS.mem (id x)
                                        (map id (filter (expired cutoff) m))))
                 m) = [].
Proof.
  set (doomed := map id (filter (expired cutoff) m)).
  assert (H : forall x, In x m -> expired cutoff x = true ->
                        JS.mem (id x) doomed = true).
  { intros x Hx He. apply mem_true. subst doomed. apply in_map.
    apply filter_In. auto. }
  clearbody doomed. induction m as [|x m IH]; simpl; [reflexivity|].
  destruct (JS.mem (id x) doomed) eqn:Em; simpl.
  - apply IH. intros y Hy. apply H. right. exact Hy.
  - destruct (expired cutoff x) eqn:Ee.
    + rewrite (H x) in Em; [discriminate Em|left; reflexivity|exact Ee].
    + apply IH. intros y Hy. apply H. right. exact Hy.
Qed.

Lemma cleanup_unfold tz cfg w st :
  fst (cleanup tz cfg w st)
  = rebuildIndexes
      {| memory :=
           filter (fun x =>
                     negb (JS.mem (id x)
                             (map id
                                (filter
                                   (expired (cutoffOf tz cfg w))
                                   (memory st)))))
                  (memory st);
         index := index st;
         isInitialized := isInitialized st;
         disk := disk st |}.
Proof. unfold cleanup, cutoffOf. simpl. rewrite delete_all. reflexivity. Qed.

(** C8.  Running [cleanup] again at the same clock reading leaves the
    store as the first run left it: the second run deletes nothing.  This
    holds in every time zone. *)
Theorem cleanup_idempotent tz cfg w1 w2 st :
  clock w1 (clock_pos w1) = clock w2 (clock_pos w2) ->
  fst (cleanup tz cfg w2 (fst (cleanup tz cfg w1 st)))
  = fst (cleanup tz cfg w1 st)
  /\ List.length
       (memory (fst (cleanup tz cfg w2 (fst (cleanup tz cfg w1 st)))))
     = List.length (memory (fst (cleanup tz cfg w1 st))).
Proof.
  intro Hclock.
  assert (Hcut : cutoffOf tz cfg w2 = cutoffOf tz cfg w1)
    by (unfold cutoffOf; rewrite Hclock; reflexivity).
  assert (H : fst (cleanup tz cfg w2 (fst (cleanup tz cfg w1 st)))
              = fst (cleanup tz cfg w1 st)).
  { rewrite (cleanup_unfold tz cfg w2), Hcut.
    rewrite (cleanup_unfold tz cfg w1). unfold rebuildIndexes. simpl.
    rewrite nothing_expired_left. simpl.
    assert (Hid : forall m : list MemoryRecord,
               filter (fun _ => true) m = m)
      by (intro m; apply forallb_filter_id, forallb_forall; reflexivity).
    rewrite Hid. reflexivity. }
  split; [exact H|]. rewrite H. reflexivity.
Qed.

(** The restored memory holds a record from 2020 of importance 0.3; the
    first clean-up deletes it and the second changes nothing. *)
Lemma cleanup_idempotent_witness :
  fst (cleanup utc config1000 stuck
               (fst (cleanup utc config1000 paced restoredMemory)))
  = fst (cleanup utc config1000 paced restoredMemory)
  /\ List.length
       (memory (fst (cleanup utc config1000 stuck
                             (fst (cleanup utc config1000 paced
                                           restoredMemory)))))
     = List.length
         (memory (fst (cleanup utc config1000 paced restoredMemory))).
Proof.
  apply (@cleanup_idempotent utc config1000 paced stuck restoredMemory).
  vm_compute. reflexivity.
Defined.

Example cleanup_deletes_stale_record :
  map id (memory restoredMemory) = [id staleRecord; id storedEvent]
  /\ map id (memory (fst (cleanup utc config1000 paced restoredMemory)))
     = [id storedEvent].
Proof. split; vm_compute; reflexivity. Qed.

End CleanupFacts.

Module IdFacts.
Import RecallMemory.

(** *** The rendering of an id is injective *)

Lemma dashless_digits d : dashless (NilEmpty.string_of_uint d) = true.
Proof. induction d; simpl; auto. Qed.

Lemma dashless_numeral d : dashless (NilZero.string_of_uint d) = true.
Proof. destruct d; try apply dashless_digits. reflexivity. Qed.

Lemma numeral_not_empty d : NilZero.string_of_uint d <> EmptyString.
Proof. destruct d; discriminate. Qed.

Lemma split_at_dash u :
  forall v s1 s2,
    dashless u = true -> dashless v = true ->
    (u ++ String "-" s1 = v ++ String "-" s2)%string ->
    u = v /\ s1 = s2.
Proof.
  induction u as [|c u IH]; intros [|c' v] s1 s2 Hu Hv Heq; simpl in *.
  - injection Heq as ->. auto.
  - injection Heq as <- _. apply andb_prop in Hv. destruct Hv as [Hv _].
    discriminate Hv.
  - injection Heq as -> _. apply andb_prop in Hu. destruct Hu as [Hu _].
    discriminate Hu.
  - injection Heq as -> Heq.
    apply andb_prop in Hu, Hv. destruct Hu as [_ Hu]. destruct Hv as [_ Hv].
    destruct (IH v s1 s2 Hu Hv Heq) as [-> ->]. auto.
Qed.

Lemma string_of_Z_inj a b : string_of_Z a = string_of_Z b -> a = b.
Proof.
  unfold string_of_Z. intro H. apply DecimalZ.to_int_inj.
  assert (Hnn : forall z, Z.to_int z <> Decimal.Pos Decimal.Nil
                          /\ Z.to_int z <> Decimal.Neg Decimal.Nil).
  { intros [|p|p]; simpl; split; try discriminate;
      intro E; injection E as E; revert E;
      apply DecimalPos.Unsigned.to_uint_nonnil. }
  pose proof (@NilZero.isi (Z.to_int a) (proj1 (Hnn a)) (proj2 (Hnn a)))
    as Ha.
  pose proof (@NilZero.isi (Z.to_int b) (proj1 (Hnn b)) (proj2 (Hnn b)))
    as Hb.
  rewrite H in Ha. rewrite Ha in Hb. injection Hb as ->. reflexivity.
Qed.

Lemma render_inj d1 d2 : render d1 = render d2 -> d1 = d2.
Proof.
  destruct d1 as [a s1], d2 as [b s2]. unfold render, string_of_Z. simpl.
  intro H.
  assert (Hab : NilZero.string_of_int (Z.to_int a)
                = NilZero.string_of_int (Z.to_int b) /\ s1 = s2).
  { destruct (Z.to_int a) as [u|u], (Z.to_int b) as [v|v]; simpl in *.
    - apply split_at_dash; auto using dashless_numeral.
    - pose proof (dashless_numeral u) as Hu.
      destruct (NilZero.string_of_uint u) as [|c r] eqn:E;
        [exact (False_ind _ (numeral_not_empty u E))|].
      simpl in H. injection H as -> _. simpl in Hu. discriminate Hu.
    - pose proof (dashless_numeral v) as Hv.
      destruct (NilZero.string_of_uint v) as [|c r] eqn:E;
        [exact (False_ind _ (numeral_not_empty v E))|].
      simpl in H. injection H as <- _. simpl in Hv. discriminate Hv.
    - injection H as H.
      destruct (split_at_dash _ _ _ _ (dashless_numeral u)
                              (dashless_numeral v) H) as [-> ->]. auto. }
  destruct Hab as [Hab ->]. f_equal. apply string_of_Z_inj. exact Hab.
Qed.

(** *** One insertion *)

Lemma Map_set_fresh r m :
  ~ In (id r) (map id m) -> Map_set r m = m ++ [r].
Proof.
  induction m as [|x m IH]; simpl; intro H; [reflexivity|].
  destruct (String.eqb (id x) (id r)) eqn:E.
  - apply String.eqb_eq in E. exfalso. apply H. left. exact E.
  - rewrite IH; [reflexivity|]. intro Hin. apply H. right. exact Hin.
Qed.

Lemma Map_set_ids r m :
  In (id r) (map id m) -> map id (Map_set r m) = map id m.
Proof.
  induction m as [|x m IH]; simpl; intro H; [contradiction|].
  destruct (String.eqb (id x) (id r)) eqn:E; simpl.
  - apply String.eqb_eq in E. rewrite E. reflexivity.
  - f_equal. apply IH. destruct H as [H | H]; [|exact H].
    apply String.eqb_neq in E. contradiction.
Qed.

Lemma Map_set_In r m : In r (Map_set r m).
Proof.
  induction m as [|x m IH]; simpl; [auto|].
  destruct (String.eqb (id x) (id r)); simpl; auto.
Qed.

Lemma storeRecord_memory st r :
  memory (storeRecord st r) = Map_set r (memory st).
Proof.
  unfold storeRecord. simpl.
  destruct (Z.of_nat (List.length (Map_set r (memory st))) mod 100 =? 0)%Z;
    reflexivity.
Qed.

(** An insertion gives the record the id rendered from the clock reading
    and the random suffix at hand, and puts it into the map under that
    id. *)
Lemma insert_spec w st op :
  exists r,
    insert w st op
    = (nextId w, storeRecord st r, afterInsert w)
    /\ id r = nextId w.
Proof.
  destruct op; simpl; unfold recordCycle, recordTrade, recordSignal,
    recordMarketEvent, record, generateId, nextId, afterInsert; simpl;
    eexists; split; reflexivity.
Qed.

Lemma nextId_render w :
  nextId w = render (clock w (clock_pos w), random_suffix w (random_pos w)).
Proof. reflexivity. Qed.

(** *** A run of insertions *)

Lemma insertAll_ids ops :
  forall w st,
    fst (fst (insertAll w st ops)) = map render (draws w (List.length ops)).
Proof.
  induction ops as [|op ops IH]; intros w st; simpl; [reflexivity|].
  destruct (insert_spec w st op) as [r [Hins _]]. rewrite Hins.
  specialize (IH (afterInsert w) (storeRecord st r)).
  destruct (insertAll (afterInsert w) (storeRecord st r) ops)
    as [[ids st'] w'].
  simpl in *. rewrite IH, nextId_render. reflexivity.
Qed.

Lemma insertAll_grows ops :
  forall w st,
    NoDup (map id (memory st) ++ map render (draws w (List.length ops))) ->
    exists added,
      memory (snd (fst (insertAll w st ops))) = memory st ++ added
      /\ map id added = map render (draws w (List.length ops)).
Proof.
  induction ops as [|op ops IH]; intros w st Hnd; simpl.
  - exists []. rewrite app_nil_r. auto.
  - destruct (insert_spec w st op) as [r [Hins Hid]]. rewrite Hins.
    simpl in Hnd. rewrite <- nextId_render in Hnd.
    assert (Hfresh : ~ In (id r) (map id (memory st))).
    { rewrite Hid. intro Hin. apply NoDup_remove_2 in Hnd. apply Hnd.
      apply in_or_app. left. exact Hin. }
    assert (Hmem : memory (storeRecord st r) = memory st ++ [r])
      by (rewrite storeRecord_memory; apply Map_set_fresh; exact Hfresh).
    specialize (IH (afterInsert w) (storeRecord st r)).
    destruct (insertAll (afterInsert w) (storeRecord st r) ops)
      as [[ids st'] w'].
    simpl in *. destruct IH as [added [Hm Hids]].
    + rewrite Hmem, map_app. simpl. rewrite Hid, <- app_assoc. simpl.
      apply NoDup_Add with (a := nextId w)
                           (l := map id (memory st)
                                 ++ map render
                                        (draws (afterInsert w)
                                               (List.length ops))).
      * apply Add_app.
      * split.
        -- exact (NoDup_remove_1 _ _ _ Hnd).
        -- exact (NoDup_remove_2 _ _ _ Hnd).
    + exists (r :: added). rewrite Hm, Hmem, <- app_assoc. simpl.
      rewrite Hids, Hid, nextId_render. auto.
Qed.

(** C7, as amended.  The ids that a run of insertions assigns are the
    renderings of the pairs (clock reading, random suffix) drawn for them.
    When those pairs are pairwise distinct, and none of the ids is already
    in the store, the ids are pairwise distinct and no insertion replaces
    a record: the store keeps its records and gains one record per
    insertion, under the ids assigned.  Nothing in the class keeps two
    insertions from drawing the same pair. *)
Theorem ids_distinct_when_draws_distinct w st ops :
  NoDup (draws w (List.length ops)) ->
  NoDup (map id (memory st)) ->
  (forall d r, In d (draws w (List.length ops)) -> In r (memory st) ->
               id r <> render d) ->
  exists ids st' w' added,
    insertAll w st ops = (ids, st', w')
    /\ NoDup ids
    /\ List.length ids = List.length ops
    /\ memory st' = memory st ++ added
    /\ map id added = ids.
Proof.
  intros Hdraws Hstore Hfresh.
  pose proof (insertAll_ids ops w st) as Hids.
  assert (Hnd : NoDup (map render (draws w (List.length ops)))).
  { apply Finite.Injective_map_NoDup; [|exact Hdraws].
    intros x y. apply render_inj. }
  assert (Hall : NoDup (map id (memory st)
                        ++ map render (draws w (List.length ops)))).
  { apply NoDup_app; [exact Hstore|exact Hnd|].
    intros x Hx Hy. apply in_map_iff in Hx, Hy.
    destruct Hx as [r [<- Hr]]. destruct Hy as [d [Hd Hin]].
    exact (Hfresh d r Hin Hr (eq_sym Hd)). }
  pose proof (insertAll_grows ops w st Hall) as [added [Hm Ha]].
  destruct (insertAll w st ops) as [[ids st'] w']. simpl in *.
  exists ids, st', w', added. subst ids.
  repeat split; auto.
  rewrite length_map. clear. generalize w.
  induction (List.length ops); intro w0; simpl; auto.
Qed.

(** C7, as stated, fails.  While the clock shows the same millisecond and
    the random source yields the same suffix, a cycle and a signal are
    inserted: both get the same id, and the store holds one record, the
    signal; the cycle record has been replaced. *)
Lemma colliding_ids_replace_record :
  fst (fst collidingInserts)
  = ["1700000000000-k3j9x0q2z"; "1700000000000-k3j9x0q2z"]
  /\ map (fun r => (id r, type r, data r))
         (memory (snd (fst collidingInserts)))
     = [("1700000000000-k3j9x0q2z", signal, PObject [("n", JNum 2)])].
Proof. split; vm_compute; reflexivity. Qed.

Lemma ids_distinct_when_draws_distinct_witness :
  exists ids st' w' added,
    insertAll paced (initialize new) threeInserts = (ids, st', w')
    /\ NoDup ids
    /\ List.length ids = List.length threeInserts
    /\ memory st' = memory (initialize new) ++ added
    /\ map id added = ids.
Proof.
  apply (@ids_distinct_when_draws_distinct paced (initialize new)
                                          threeInserts).
  - vm_compute. repeat constructor; simpl; intuition discriminate.
  - vm_compute. constructor.
  - intros d r _ Hr. vm_compute in Hr. contradiction.
Defined.

End IdFacts.

(** ** PumpPandaAgent *)

Module AgentFacts.
Import PumpPandaAgent.







Lemma initialize_establishes chainOk s :
  fst (initialize chainOk s) = Ok tt ->
  Initialized (snd (initialize chainOk s)).
Proof.
  unfold initialize, bind, update, PortfolioManager.initialize.
  destruct chainOk; simpl; [|discriminate].
  intros _. unfold Initialized. simpl. repeat split.
Qed.

Lemma generateSignalForSymbol_neutral cfg w a ra :
  trend a = neutral ->
  TradingStrategy.generateSignalForSymbol cfg w a ra = (None, w).
Proof.
  intro H. unfold TradingStrategy.generateSignalForSymbol. rewrite H.
  destruct (RiskLevel_eqb (ma_riskLevel a) high
            && RiskLevel_eqb (riskLevel ra) high); [reflexivity|].
  destruct (ltb (confidence a) (4 # 10)); reflexivity.
Qed.

Lemma generateEach_neutral cfg ra analysis :
  forall w,
    Forall (fun a => trend a = neutral) analysis ->
    TradingStrategy.generateEach cfg w analysis ra = ([], w).
Proof.
  induction analysis as [|a rest IH]; intros w H; simpl; [reflexivity|].
  inversion H as [|? ? Ha Hrest]; subst.
  rewrite (@generateSignalForSymbol_neutral cfg w a ra Ha).
  rewrite (IH w Hrest). reflexivity.
Qed.


Example first_tick_is_neutral :
  isRunning runningAgent = true
  /\ map md_symbol firstSamples = ["BTC/USD"]
  /\ map trend firstAnalysis = [neutral]
  /\ map signals firstAnalysis
     = [["macd_bullish"; "price_below_ma"; "low_volatility"]].
Proof. repeat split; vm_compute; reflexivity. Qed.


(** C6.  The code at the input of the defect.  After [start] with
    meme-token hunting enabled the two timers are armed under the handles
    2 and 3, but [tradingInterval] holds the handle of the meme-token
    timer and the handle of the trading-loop timer is held nowhere.
    After [pause], the tick of the trading-loop timer clears the
    meme-token timer and stays armed itself; and [shutdown] leaves the
    trading-loop timer armed. *)
Lemma meme_timer_overwrites_trading_handle :
  Timers.handlesOf Timers.TradingLoop (timers startedAgent) = [2%nat]
  /\ Timers.handlesOf Timers.MemeTokenHunting (timers startedAgent)
     = [3%nat]
  /\ tradingInterval startedAgent = Some 3%nat
  /\ performanceInterval startedAgent = Some 4%nat
  /\ Timers.handlesOf Timers.MemeTokenHunting (timers pausedThenTicked) = []
  /\ Timers.handlesOf Timers.TradingLoop (timers pausedThenTicked)
     = [2%nat]
  /\ tradingInterval pausedThenTicked = None
  /\ Timers.handlesOf Timers.TradingLoop (timers shutDown) = [2%nat]
  /\ Timers.handlesOf Timers.MemeTokenHunting (timers shutDown) = [].
Proof. repeat split; vm_compute; reflexivity. Qed.

End AgentFacts.

(* ===================================================================== *)
(** * Further properties of the components *)
(* ===================================================================== *)

(** ** Array.prototype.sort rearranges *)

Module SortPermutation.

Lemma insert_back_Permutation {A} (cmp : A -> A -> Q) x r :
  Permutation (insert_back cmp x r) (x :: r).
Proof.
  induction r as [|y r IH]; simpl; [apply Permutation_refl|].
  destruct (gtb (cmp y x) 0); [|apply Permutation_refl].
  eapply perm_trans; [apply perm_skip; exact IH|apply perm_swap].
Qed.

Lemma fold_insert_Permutation {A} (cmp : A -> A -> Q) l :
  forall r,
    Permutation (fold_left (fun rprefix x => insert_back cmp x rprefix) l r)
                (l ++ r).
Proof.
  induction l as [|x l IH]; intro r; simpl; [apply Permutation_refl|].
  eapply perm_trans; [apply IH|].
  eapply perm_trans;
    [apply Permutation_app_head; apply insert_back_Permutation|].
  apply Permutation_sym. apply Permutation_middle.
Qed.

Lemma sort_Permutation {A} (cmp : A -> A -> Q) l :
  Permutation (JS.sort cmp l) l.
Proof.
  unfold JS.sort. eapply perm_trans; [apply Permutation_sym, Permutation_rev|].
  eapply perm_trans; [apply fold_insert_Permutation|].
  rewrite app_nil_r. apply Permutation_refl.
Qed.

(** A sort by descending key puts no element before one of a higher
    key. *)
Lemma sort_descending {A} (key : A -> Q) (l : list A) :
  StronglySorted (fun a b => key b <= key a)
                 (JS.sort (fun a b => key b - key a) l).
Proof.
  apply Sorted_StronglySorted.
  - intros x y z Hxy Hyz. apply (Qle_trans _ (key y)); assumption.
  - assert (Hanti : forall x y : A,
               gtb (key x - key y) 0 = true -> gtb (key y - key x) 0 = false).
    { intros x y. rewrite gtb_spec, gtb_false. lra. }
    pose proof (@SortFacts.sort_Sorted _ (fun a b => key b - key a) l Hanti)
      as H.
    remember (JS.sort (fun a b => key b - key a) l) as sorted eqn:E.
    clear E. induction H as [|a rest Hs IH Hhd]; constructor.
    + exact IH.
    + destruct Hhd as [|b rest' Hab]; constructor.
      apply gtb_false in Hab. lra.
Qed.

End SortPermutation.

(** ** Lists *)

Module ListFacts.

Lemma In_firstn {A} (x : A) n : forall l, In x (firstn n l) -> In x l.
Proof.
  induction n as [|n IH]; intros [|a l]; simpl; try tauto.
  intros [H | H]; auto.
Qed.

Lemma NoDup_firstn {A} n : forall l : list A, NoDup l -> NoDup (firstn n l).
Proof.
  induction n as [|n IH]; intros [|a l] H; simpl; try constructor.
  - inversion H; subst. intro Hin. apply In_firstn in Hin. contradiction.
  - inversion H; subst. auto.
Qed.

Lemma NoDup_map_inj {A B} (f : A -> B) (l : list A) :
  NoDup (map f l) ->
  forall x y, In x l -> In y l -> f x = f y -> x = y.
Proof.
  induction l as [|a l IH]; simpl; intros Hnd x y Hx Hy Hf; [contradiction|].
  inversion Hnd as [|? ? Hnot Hnd']; subst.
  destruct Hx as [<- | Hx], Hy as [<- | Hy]; auto.
  - exfalso. apply Hnot. rewrite Hf. apply in_map. exact Hy.
  - exfalso. apply Hnot. rewrite <- Hf. apply in_map. exact Hx.
Qed.

Lemma NoDup_map_filter {A B} (f : A -> B) (g : A -> bool) (l : list A) :
  NoDup (map f l) -> NoDup (map f (filter g l)).
Proof.
  induction l as [|a l IH]; simpl; intro Hnd; [constructor|].
  inversion Hnd as [|? ? Hnot Hnd']; subst.
  destruct (g a); simpl; [|auto]. constructor; [|auto].
  intro Hin. apply Hnot. apply in_map_iff in Hin.
  destruct Hin as [x [Hx Hin]]. apply filter_In in Hin.
  rewrite <- Hx. apply in_map. tauto.
Qed.

Lemma StronglySorted_firstn {A} (R : A -> A -> Prop) n :
  forall l, StronglySorted R l -> StronglySorted R (firstn n l).
Proof.
  induction n as [|n IH]; intros [|a l] H; simpl; try constructor.
  - apply IH. inversion H; assumption.
  - inversion H as [|? ? _ Hall]; subst.
    apply Forall_forall. intros x Hx. apply In_firstn in Hx.
    rewrite Forall_forall in Hall. auto.
Qed.

Lemma StronglySorted_pairwiseb {A} (f : A -> A -> bool)
      (R : A -> A -> Prop) (l : list A) :
  (forall a b, R a b -> f a b = true) ->
  StronglySorted R l -> pairwiseb f l = true.
Proof.
  intros Hf Hs. induction Hs as [|a l Hs IH Hall]; simpl; [reflexivity|].
  rewrite IH, andb_true_r. apply forallb_forall. intros x Hx.
  rewrite Forall_forall in Hall. auto.
Qed.

Lemma Sorted_StronglySorted_on {A} (R : A -> A -> Prop) (l : list A) :
  (forall a b c, In a l -> In b l -> In c l -> R a b -> R b c -> R a c) ->
  Sorted R l -> StronglySorted R l.
Proof.
  induction l as [|a l IH]; intros Htrans Hs; [constructor|].
  inversion Hs as [|? ? Hs' Hhd]; subst.
  assert (HSS : StronglySorted R l).
  { apply IH; [|exact Hs']. intros x y z Hx Hy Hz.
    apply Htrans; right; assumption. }
  constructor; [exact HSS|].
  destruct l as [|b l']; [constructor|].
  inversion Hhd as [|? ? Hab]; subst.
  inversion HSS as [|? ? _ Hall]; subst.
  constructor; [exact Hab|].
  rewrite Forall_forall in Hall |- *. intros x Hx.
  apply (Htrans a b x); simpl; auto.
Qed.

End ListFacts.

(** ** RecallMemory: queries *)

Module RecallQueryFacts.
Import RecallMemory.

Lemma Map_get_Some k m x : Map_get k m = Some x -> In x m /\ id x = k.
Proof.
  unfold Map_get. intro H. apply find_some in H. destruct H as [Hin Hk].
  apply String.eqb_eq in Hk. auto.
Qed.

Lemma filterBy_In keep st c rid :
  In rid (filterBy keep st c) ->
  In rid c /\ forall x, Map_get rid (memory st) = Some x -> keep x = true.
Proof.
  unfold filterBy. intro H. apply filter_In in H. destruct H as [Hin Hk].
  split; [exact Hin|]. intros x Hx. rewrite Hx in Hk. exact Hk.
Qed.

(** The query as a composition of its stages. *)
Lemma recall_stages w st q :
  isInitialized st = true ->
  recall w st q
  = (let '(res, m, w') :=
       touch_all w (memory st)
                 (firstn (limitOf q) (sortByRelevance (recordsOf st q))) in
     (Ok res,
      {| memory := m; index := index st; isInitialized := isInitialized st;
         disk := disk st |},
      w')).
Proof. intro H. unfold recall. rewrite H. reflexivity. Qed.

Lemma strict_eq_JStr tag v : strict_eq (JStr tag) v = true -> v = JStr tag.
Proof.
  destruct v; simpl; try discriminate. intro H.
  apply String.eqb_eq in H. subst. reflexivity.
Qed.

Lemma candidatesOf_admitted st q rid x :
  In rid (candidatesOf st q) ->
  Map_get rid (memory st) = Some x ->
  admits q x.
Proof.
  unfold candidatesOf, admits. intros Hin Hget.
  destruct (q_importance q) as [least|] eqn:Ei.
  2: revert Hin.
  1: apply filterBy_In in Hin; destruct Hin as [Hin Himp];
     specialize (Himp x Hget); revert Hin.
  all: destruct (q_timeRange q) as [[lo hi]|] eqn:Et; intro Hin.
  all: try (apply filterBy_In in Hin; destruct Hin as [Hin Htime];
            specialize (Htime x Hget); simpl in Htime;
            apply andb_prop in Htime; destruct Htime as [Hlo Hhi];
            apply Z.leb_le in Hlo, Hhi).
  all: revert Hin; destruct (q_tags q) as [[|tag more]|] eqn:Eg; intro Hin.
  all: try (apply filterBy_In in Hin; destruct Hin as [Hin Htag];
            specialize (Htag x Hget)).
  all: revert Hin; destruct (q_type q) as [ty|] eqn:Ey;
    [destruct (String.eqb ty "") eqn:Ee|]; intro Hin.
  all: try (apply filterBy_In in Hin; destruct Hin as [Hin Hty];
            specialize (Hty x Hget); apply String.eqb_eq in Hty).
  all: repeat split.
  all: try (intros ? [= <-]); try (intros ? ? [= <- <-]);
    try discriminate; intros.
  all: try (apply String.eqb_eq in Ee; congruence).
  all: try congruence; try lia; try (apply geb_spec; assumption).
  all: try (unfold JS.some in Htag; apply existsb_exists in Htag;
            destruct Htag as [t [Ht Hany]]; apply existsb_exists in Hany;
            destruct Hany as [v [Hv Heq]]; apply strict_eq_JStr in Heq;
            subst v; exists t; split; assumption).
Qed.

Lemma recordsOf_spec st q r :
  In r (recordsOf st q) ->
  In r (memory st) /\ admits q r /\ In (id r) (candidatesOf st q).
Proof.
  unfold recordsOf. intro H. apply in_flat_map in H.
  destruct H as [rid [Hrid Hr]].
  destruct (Map_get rid (memory st)) as [x|] eqn:E; [|contradiction].
  destruct Hr as [<- | []].
  destruct (Map_get_Some _ _ E) as [Hin Hid].
  split; [exact Hin|]. split.
  - eapply candidatesOf_admitted; eauto.
  - rewrite Hid. exact Hrid.
Qed.

Lemma touch_all_In result :
  forall w m r',
    In r' (fst (fst (touch_all w m result))) ->
    exists r now, In r result /\ r' = touch now r.
Proof.
  intros w m r' H.
  pose proof (RecallMemoryFacts.touch_all_touches result w m) as HF.
  revert H. induction HF as [|a b la lb [now ->] _ IH]; simpl; intro H.
  - contradiction.
  - destruct H as [<- | H].
    + exists a, now. auto.
    + destruct (IH H) as [r [n [Hr ->]]]. exists r, n. auto.
Qed.

Lemma touch_all_length result :
  forall w m,
    List.length (fst (fst (touch_all w m result))) = List.length result.
Proof.
  intros w m.
  exact (eq_sym (Forall2_length
                   (RecallMemoryFacts.touch_all_touches result w m))).
Qed.

Lemma admits_touch q r now : admits q r -> admits q (touch now r).
Proof. unfold admits, touch. simpl. auto. Qed.

(** X1.  Every record that a query returns passes every filter that the
    query carries: its type is the type asked for, it has one of the
    tags asked for, its timestamp lies within the range, bounds
    included, and its importance is at least the one asked for. *)
Theorem recall_returns_only_matching w st q res st' w' :
  recall w st q = (Ok res, st', w') ->
  forall r, In r res -> admits q r.
Proof.
  intros Hrun r Hr.
  destruct (isInitialized st) eqn:Hinit;
    [|unfold recall in Hrun; rewrite Hinit in Hrun; discriminate Hrun].
  rewrite (recall_stages w st q Hinit) in Hrun.
  remember (firstn (limitOf q) (sortByRelevance (recordsOf st q))) as cut.
  pose proof (touch_all_In cut w (memory st) r) as HT.
  destruct (touch_all w (memory st) cut) as [[res0 m] w0].
  injection Hrun as <- _ _. simpl in HT.
  destruct (HT Hr) as [r0 [now [Hcut ->]]]. apply admits_touch.
  subst cut. apply ListFacts.In_firstn in Hcut.
  apply (Permutation_in _ (SortPermutation.sort_Permutation relevance _))
    in Hcut.
  apply recordsOf_spec in Hcut. tauto.
Qed.

Lemma recall_returns_only_matching_witness :
  admits fullQuery (touch 1700000000000 storedEvent).
Proof.
  apply (@recall_returns_only_matching
           paced restoredMemory fullQuery
           [touch 1700000000000 storedEvent]
           (snd (fst (recall paced restoredMemory fullQuery)))
           (snd (recall paced restoredMemory fullQuery))).
  - vm_compute. reflexivity.
  - left. reflexivity.
Defined.

(** X2.  A query returns at most as many records as its limit says, and
    at most 100 when it has no limit or the limit 0. *)
Theorem recall_respects_limit w st q :
  isInitialized st = true ->
  exists res st' w',
    recall w st q = (Ok res, st', w')
    /\ (List.length res <= limitOf q)%nat.
Proof.
  intro Hinit. rewrite (recall_stages w st q Hinit).
  remember (firstn (limitOf q) (sortByRelevance (recordsOf st q))) as cut.
  pose proof (touch_all_length cut w (memory st)) as HL.
  destruct (touch_all w (memory st) cut) as [[res m] w0]. simpl in HL.
  eexists; eexists; eexists. split; [reflexivity|].
  rewrite HL. subst cut. rewrite length_firstn. apply Nat.le_min_l.
Qed.

Lemma recall_respects_limit_witness :
  exists res st' w',
    recall paced restoredMemory everything = (Ok res, st', w')
    /\ (List.length res <= limitOf everything)%nat.
Proof.
  apply (@recall_respects_limit paced restoredMemory everything).
  reflexivity.
Defined.

(** *** The records of the map and their ids *)

Lemma same_id_same_record (m : list MemoryRecord) :
  NoDup (map id m) ->
  forall x y, In x m -> In y m -> id x = id y -> x = y.
Proof.
  induction m as [|a m IH]; simpl; intros Hnd x y Hx Hy Hid; [contradiction|].
  inversion Hnd as [|? ? Hnot Hnd']; subst.
  destruct Hx as [<- | Hx], Hy as [<- | Hy]; auto.
  - exfalso. apply Hnot. rewrite Hid. apply in_map. exact Hy.
  - exfalso. apply Hnot. rewrite <- Hid. apply in_map. exact Hx.
Qed.

Lemma Map_get_stored (m : list MemoryRecord) r :
  NoDup (map id m) -> In r m -> Map_get (id r) m = Some r.
Proof.
  intros Hnd Hin. unfold Map_get.
  destruct (find (fun x => String.eqb (id x) (id r)) m) as [x|] eqn:E.
  - apply find_some in E. destruct E as [Hx Hid].
    apply String.eqb_eq in Hid.
    rewrite (@same_id_same_record m Hnd x r Hx Hin Hid). reflexivity.
  - exfalso. pose proof (find_none _ _ E r Hin) as Hno. simpl in Hno.
    rewrite String.eqb_refl in Hno. discriminate Hno.
Qed.

Lemma filterBy_NoDup keep st c : NoDup c -> NoDup (filterBy keep st c).
Proof. apply NoDup_filter. Qed.

Lemma filterBy_length keep st c :
  (List.length (filterBy keep st c) <= List.length c)%nat.
Proof. apply filter_length_le. Qed.

Lemma candidatesOf_NoDup st q : NoDup (idsOf st) -> NoDup (candidatesOf st q).
Proof.
  intro H. unfold candidatesOf, filterByType, filterByTags,
             filterByTimeRange, filterByImportance.
  destruct (q_importance q), (q_timeRange q), (q_tags q) as [[|? ?]|],
    (q_type q) as [ty|]; try destruct (String.eqb ty "");
    repeat apply filterBy_NoDup; exact H.
Qed.

Lemma candidatesOf_length st q :
  (List.length (candidatesOf st q) <= List.length (memory st))%nat.
Proof.
  assert (Hids : (List.length (idsOf st) <= List.length (memory st))%nat)
    by (unfold idsOf; rewrite length_map; apply Nat.le_refl).
  unfold candidatesOf, filterByType, filterByTags,
    filterByTimeRange, filterByImportance.
  destruct (q_importance q), (q_timeRange q), (q_tags q) as [[|? ?]|],
    (q_type q) as [ty|]; try destruct (String.eqb ty "");
    repeat (eapply Nat.le_trans; [apply filterBy_length|]); exact Hids.
Qed.

Lemma recordsOf_ids (st : t) :
  forall c,
    NoDup c ->
    NoDup (map id (flat_map (fun rid => match Map_get rid (memory st) with
                                        | Some r => [r]
                                        | None => []
                                        end) c))
    /\ (forall r, In r (flat_map (fun rid =>
                                    match Map_get rid (memory st) with
                                    | Some r => [r]
                                    | None => []
                                    end) c) -> In (id r) c)
    /\ (List.length (flat_map (fun rid =>
                                 match Map_get rid (memory st) with
                                 | Some r => [r]
                                 | None => []
                                 end) c) <= List.length c)%nat.
Proof.
  induction c as [|a c IH]; intro Hnd; simpl.
  - repeat split; [constructor|tauto|apply Nat.le_refl].
  - inversion Hnd as [|? ? Hnot Hnd']; subst.
    destruct (IH Hnd') as [IH1 [IH2 IH3]].
    destruct (Map_get a (memory st)) as [x|] eqn:E; simpl.
    + destruct (Map_get_Some _ _ E) as [_ Hid]. repeat split.
      * constructor; [|exact IH1]. intro Hin. apply in_map_iff in Hin.
        destruct Hin as [y [Hy Hin]]. apply IH2 in Hin.
        apply Hnot. congruence.
      * intros r [<- | Hr]; [left; symmetry; exact Hid|right; auto].
      * apply le_n_S. exact IH3.
    + repeat split; auto.
Qed.

Lemma recordsOf_NoDup st q :
  NoDup (idsOf st) -> NoDup (map id (recordsOf st q)).
Proof.
  intro H. apply (@recordsOf_ids st _ (@candidatesOf_NoDup st q H)).
Qed.

Lemma recordsOf_length st q :
  (List.length (recordsOf st q) <= List.length (memory st))%nat.
Proof.
  unfold recordsOf.
  assert (H : forall c,
             (List.length
                (flat_map (fun rid => match Map_get rid (memory st) with
                                      | Some r => [r]
                                      | None => []
                                      end) c) <= List.length c)%nat).
  { induction c as [|a c IH]; simpl; [apply Nat.le_refl|].
    destruct (Map_get a (memory st)); simpl; [apply le_n_S|apply le_S];
      exact IH. }
  eapply Nat.le_trans; [apply H|apply candidatesOf_length].
Qed.

(** The records that are handed to [touch_all]. *)
Lemma cut_spec st q :
  NoDup (idsOf st) ->
  NoDup (map id (firstn (limitOf q) (sortByRelevance (recordsOf st q))))
  /\ forall r, In r (firstn (limitOf q) (sortByRelevance (recordsOf st q)))
               -> In r (memory st).
Proof.
  intro Hnd. split.
  - rewrite <- firstn_map. apply ListFacts.NoDup_firstn.
    apply (Permutation_NoDup
             (Permutation_map id
                (Permutation_sym
                   (SortPermutation.sort_Permutation relevance
                                                     (recordsOf st q))))).
    apply recordsOf_NoDup. exact Hnd.
  - intros r Hr. apply ListFacts.In_firstn in Hr.
    apply (Permutation_in _ (SortPermutation.sort_Permutation relevance _))
      in Hr.
    apply recordsOf_spec in Hr. tauto.
Qed.

(** What [touch_all] does to the map: the ids stay, the records it
    returns are the ones now in the map, and a record it was not given
    stays as it was. *)
Lemma touch_all_store result :
  forall w m,
    NoDup (map id result) ->
    (forall r, In r result -> In r m) ->
    map id (snd (fst (touch_all w m result))) = map id m
    /\ (forall r', In r' (fst (fst (touch_all w m result))) ->
                   In r' (snd (fst (touch_all w m result))))
    /\ (forall x, In x m -> ~ In (id x) (map id result) ->
                  In x (snd (fst (touch_all w m result)))).
Proof.
  induction result as [|r rest IH]; intros w m Hnd Hin; simpl.
  - repeat split; tauto.
  - inversion Hnd as [|? ? Hnot Hnd']; subst.
    match goal with
    | |- context [touch_all ?w1 ?m1 rest] =>
        specialize (IH w1 m1 Hnd'); remember m1 as m' eqn:Em;
        destruct (touch_all w1 m' rest) as [[rs m2] w2] eqn:Et
    end.
    simpl in *.
    assert (Hkeep : forall x, In x m -> id x <> id r -> In x m').
    { intros x Hx Hne. subst m'. apply in_map_iff. exists x.
      apply String.eqb_neq in Hne. rewrite Hne. auto. }
    assert (Hhead : In (touch (clock w (clock_pos w)) r) m').
    { subst m'. apply in_map_iff. exists r.
      rewrite String.eqb_refl. auto. }
    assert (Hids : map id m' = map id m).
    { subst m'. rewrite map_map. apply map_ext. intro x.
      destruct (String.eqb (id x) (id r)) eqn:E; [|reflexivity].
      apply String.eqb_eq in E. simpl. symmetry. exact E. }
    destruct IH as [IH1 [IH2 IH3]].
    { intros x Hx. apply Hkeep; [auto|]. intro Heq. apply Hnot.
      rewrite <- Heq. apply in_map. exact Hx. }
    repeat split.
    + rewrite IH1. exact Hids.
    + intros r' [<- | Hr']; [|auto]. apply IH3; [exact Hhead|exact Hnot].
    + intros x Hx Hno. apply IH3.
      * apply Hkeep; [exact Hx|]. intro Heq. apply Hno. left.
        symmetry. exact Heq.
      * intro Hrest. apply Hno. right. exact Hrest.
Qed.

(** X3.  A query changes nothing in the map but the access statistics of
    the records it returns: the ids stay as they were, every returned
    record is a record that was in the map, with its access count one
    higher, and is in the map in that form afterwards; a record that is
    not returned stays as it was. *)
Theorem recall_counts_each_access w st q :
  isInitialized st = true ->
  NoDup (idsOf st) ->
  exists res st' w',
    recall w st q = (Ok res, st', w')
    /\ idsOf st' = idsOf st
    /\ (forall r', In r' res ->
                   In r' (memory st')
                   /\ exists r now, In r (memory st) /\ r' = touch now r)
    /\ (forall r, In r (memory st) -> ~ In (id r) (map id res) ->
                  In r (memory st')).
Proof.
  intros Hinit Hnd. rewrite (recall_stages w st q Hinit).
  destruct (@cut_spec st q Hnd) as [Hcut1 Hcut2].
  remember (firstn (limitOf q) (sortByRelevance (recordsOf st q))) as cut.
  destruct (@touch_all_store cut w (memory st) Hcut1 Hcut2) as [H1 [H2 H3]].
  pose proof (touch_all_In cut w (memory st)) as H4.
  pose proof (RecallMemoryFacts.touch_all_touches cut w (memory st)) as H5.
  destruct (touch_all w (memory st) cut) as [[res m] w0]. simpl in *.
  exists res. eexists. eexists. split; [reflexivity|]. simpl.
  split; [exact H1|]. split.
  - intros r' Hr'. split; [auto|].
    destruct (H4 r' Hr') as [r [now [Hr ->]]]. exists r, now. auto.
  - intros r Hr Hno. apply H3; [exact Hr|]. intro Hin. apply Hno.
    clear - H5 Hin. induction H5 as [|a b la lb [now ->] _ IH]; simpl in *;
      [contradiction|]. destruct Hin as [Hin | Hin]; auto.
Qed.

Lemma recall_counts_each_access_witness :
  exists res st' w',
    recall paced restoredMemory fullQuery = (Ok res, st', w')
    /\ idsOf st' = idsOf restoredMemory
    /\ (forall r', In r' res ->
                   In r' (memory st')
                   /\ exists r now,
                        In r (memory restoredMemory) /\ r' = touch now r)
    /\ (forall r, In r (memory restoredMemory) ->
                  ~ In (id r) (map id res) -> In r (memory st')).
Proof.
  apply (@recall_counts_each_access paced restoredMemory fullQuery).
  - reflexivity.
  - vm_compute. repeat constructor; simpl; intuition discriminate.
Defined.

(** *** What a query finds *)

Lemma filterBy_keep keep st c rid x :
  In rid c -> Map_get rid (memory st) = Some x -> keep x = true ->
  In rid (filterBy keep st c).
Proof.
  intros Hin Hget Hkeep. unfold filterBy. apply filter_In.
  split; [exact Hin|]. rewrite Hget. exact Hkeep.
Qed.

Lemma candidatesOf_complete st q r :
  NoDup (idsOf st) -> In r (memory st) -> admits q r ->
  In (id r) (candidatesOf st q).
Proof.
  intros Hnd Hin [Hty [Htag [Htime Himp]]].
  pose proof (@Map_get_stored (memory st) r Hnd Hin) as Hget.
  assert (Hids : In (id r) (idsOf st)) by (apply in_map; exact Hin).
  unfold candidatesOf, filterByType, filterByTags, filterByTimeRange,
    filterByImportance.
  destruct (q_importance q) as [least|];
    [apply (@filterBy_keep _ st _ (id r) r); [|exact Hget|
       apply geb_spec; apply Himp; reflexivity]|].
  all: destruct (q_timeRange q) as [[lo hi]|];
    [apply (@filterBy_keep _ st _ (id r) r); [|exact Hget|
       simpl; specialize (Htime lo hi eq_refl);
       apply andb_true_intro; split; apply Z.leb_le; lia]|].
  all: destruct (q_tags q) as [[|tag more]|];
    [|apply (@filterBy_keep _ st _ (id r) r); [|exact Hget|
        destruct (Htag (tag :: more) eq_refl) as [t [Ht Hr]];
        [discriminate|];
        unfold JS.some; apply existsb_exists; exists t;
        split; [exact Ht|]; apply existsb_exists; exists (JStr t);
        split; [exact Hr|]; simpl; apply String.eqb_refl]|].
  all: destruct (q_type q) as [ty|]; [destruct (String.eqb ty "") eqn:Ee|];
    try exact Hids.
  all: apply (@filterBy_keep _ st _ (id r) r); [exact Hids|exact Hget|];
    apply String.eqb_eq; apply Hty; [reflexivity|];
    intros ->; discriminate Ee.
Qed.

Lemma recordsOf_complete st q r :
  NoDup (idsOf st) -> In r (memory st) -> admits q r ->
  In r (recordsOf st q).
Proof.
  intros Hnd Hin Hq. unfold recordsOf. apply in_flat_map.
  exists (id r). split; [apply candidatesOf_complete; assumption|].
  rewrite (@Map_get_stored (memory st) r Hnd Hin). left. reflexivity.
Qed.

Lemma touched_member result :
  forall w m r,
    In r result ->
    exists now, In (touch now r) (fst (fst (touch_all w m result))).
Proof.
  intros w m r Hin.
  pose proof (RecallMemoryFacts.touch_all_touches result w m) as HF.
  induction HF as [|a b la lb [now ->] _ IH]; simpl in *; [contradiction|].
  destruct Hin as [<- | Hin].
  - exists now. left. reflexivity.
  - destruct (IH Hin) as [n Hn]. exists n. right. exact Hn.
Qed.

Lemma recall_finds w st q r :
  isInitialized st = true ->
  NoDup (idsOf st) ->
  (List.length (memory st) <= limitOf q)%nat ->
  In r (memory st) ->
  admits q r ->
  exists res st' w' now,
    recall w st q = (Ok res, st', w') /\ In (touch now r) res.
Proof.
  intros Hinit Hnd Hlen Hin Hq. rewrite (recall_stages w st q Hinit).
  assert (Hcut : In r (firstn (limitOf q)
                              (sortByRelevance (recordsOf st q)))).
  { unfold sortByRelevance. rewrite firstn_all2.
    - apply (Permutation_in _ (Permutation_sym
                                 (SortPermutation.sort_Permutation
                                    relevance (recordsOf st q)))).
      apply recordsOf_complete; assumption.
    - rewrite (Permutation_length
                 (SortPermutation.sort_Permutation relevance
                                                   (recordsOf st q))).
      eapply Nat.le_trans; [apply recordsOf_length|exact Hlen]. }
  destruct (@touched_member _ w (memory st) r Hcut) as [now Hnow].
  destruct (touch_all w (memory st)
                      (firstn (limitOf q)
                              (sortByRelevance (recordsOf st q))))
    as [[res m] w0].
  exists res. eexists. eexists. exists now. split; [reflexivity|exact Hnow].
Qed.

(** X4.  A query returns every stored record that passes its filters, as
    long as the map holds no more records than the limit of the query:
    nothing that matches is left out. *)
Theorem recall_returns_every_match w st q r :
  isInitialized st = true ->
  NoDup (idsOf st) ->
  (List.length (memory st) <= limitOf q)%nat ->
  In r (memory st) ->
  admits q r ->
  exists res st' w' now,
    recall w st q = (Ok res, st', w') /\ In (touch now r) res.
Proof. apply recall_finds. Qed.

Lemma recall_returns_every_match_witness :
  exists res st' w' now,
    recall paced restoredMemory fullQuery = (Ok res, st', w')
    /\ In (touch now storedEvent) res.
Proof.
  apply (@recall_returns_every_match paced restoredMemory fullQuery
           storedEvent).
  - reflexivity.
  - vm_compute. repeat constructor; simpl; intuition discriminate.
  - vm_compute. repeat constructor.
  - vm_compute. auto.
  - unfold admits, fullQuery. simpl. repeat split.
    + intros ty [= <-] _. reflexivity.
    + intros qtags [= <-] _. exists "PEPE". simpl. auto.
    + injection H as <- <-. vm_compute. discriminate.
    + injection H as <- <-. vm_compute. discriminate.
    + intros least [= <-]. vm_compute. discriminate.
Defined.

(** *** Insertion, then query *)

Lemma Map_set_NoDup r m : NoDup (map id m) -> NoDup (map id (Map_set r m)).
Proof.
  intro Hnd. destruct (in_dec string_dec (id r) (map id m)) as [Hin | Hno].
  - rewrite (IdFacts.Map_set_ids r m Hin). exact Hnd.
  - rewrite (IdFacts.Map_set_fresh r m Hno), map_app. simpl.
    apply NoDup_app; [exact Hnd|repeat constructor; simpl; tauto|].
    intros x Hx [<- | []]. contradiction.
Qed.

Lemma Map_set_length r m :
  (List.length (Map_set r m) <= S (List.length m))%nat.
Proof.
  induction m as [|x m IH]; simpl; [lia|].
  destruct (String.eqb (id x) (id r)); simpl; lia.
Qed.

Lemma storeRecord_isInitialized st r :
  isInitialized (storeRecord st r) = isInitialized st.
Proof.
  unfold storeRecord. simpl.
  destruct (Z.of_nat (List.length (Map_set r (memory st))) mod 100 =? 0)%Z;
    reflexivity.
Qed.

(** The record that an insertion stores. *)
Lemma insert_record w st op :
  exists r,
    insert w st op = (nextId w, storeRecord st r, afterInsert w)
    /\ id r = nextId w
    /\ type r = kindOf op
    /\ data r = payloadOf op
    /\ accessCount r = 0%Z
    /\ 6 # 10 <= importance r.
Proof.
  destruct op; simpl; unfold recordCycle, recordTrade, recordSignal,
    recordMarketEvent, record, generateId, nextId, afterInsert; simpl;
    eexists; (split; [reflexivity|]); simpl; repeat split;
    vm_compute; discriminate.
Qed.

(** X5.  What has just been stored is found: after any of the four
    insertions into an initialised memory of fewer than 100 records, the
    query for the records of that type returns a record with the id that
    the insertion returned, with the payload as given and the access
    count 1. *)
Theorem stored_record_is_recalled w st op :
  isInitialized st = true ->
  NoDup (idsOf st) ->
  (List.length (memory st) < 100)%nat ->
  exists rid st1 w1 res st2 w2 r,
    insert w st op = (rid, st1, w1)
    /\ recall w1 st1 (ofType (type_name (kindOf op))) = (Ok res, st2, w2)
    /\ In r res
    /\ id r = rid
    /\ type r = kindOf op
    /\ data r = payloadOf op
    /\ accessCount r = 1%Z.
Proof.
  intros Hinit Hnd Hlen.
  destruct (insert_record w st op) as [r [Hins [Hid [Hty [Hdata [Hacc _]]]]]].
  destruct (@recall_finds (afterInsert w) (storeRecord st r)
              (ofType (type_name (kindOf op))) r)
    as [res [st2 [w2 [now [Hrecall Hin]]]]].
  - rewrite storeRecord_isInitialized. exact Hinit.
  - unfold idsOf. rewrite IdFacts.storeRecord_memory.
    apply Map_set_NoDup. exact Hnd.
  - rewrite IdFacts.storeRecord_memory.
    pose proof (Map_set_length r (memory st)).
    change (limitOf (ofType (type_name (kindOf op)))) with 100%nat. lia.
  - rewrite IdFacts.storeRecord_memory. apply IdFacts.Map_set_In.
  - unfold admits, ofType. simpl. repeat split; try discriminate.
    intros ty [= <-] _. rewrite Hty. reflexivity.
  - exists (nextId w), (storeRecord st r), (afterInsert w), res, st2, w2,
      (touch now r).
    repeat split; simpl; auto. rewrite Hacc. reflexivity.
Qed.

Lemma stored_record_is_recalled_witness :
  exists rid st1 w1 res st2 w2 r,
    insert paced restoredMemory pepeBuy = (rid, st1, w1)
    /\ recall w1 st1 (ofType (type_name (kindOf pepeBuy)))
       = (Ok res, st2, w2)
    /\ In r res
    /\ id r = rid
    /\ type r = kindOf pepeBuy
    /\ data r = payloadOf pepeBuy
    /\ accessCount r = 1%Z.
Proof.
  apply (@stored_record_is_recalled paced restoredMemory pepeBuy).
  - reflexivity.
  - vm_compute. repeat constructor; simpl; intuition discriminate.
  - vm_compute. repeat constructor.
Defined.

End RecallQueryFacts.

Module RankingFacts.
Import RecallMemory RecallMemoryFacts RecallQueryFacts.

(** On records that the comparison function orders consistently, the
    sort leaves every record ahead of all that follow it. *)
Lemma sortByRelevance_StronglySorted records :
  consistentOn records ->
  StronglySorted (fun a b => relevance a b <= 0) (sortByRelevance records).
Proof.
  intro Hcons. unfold sortByRelevance.
  pose proof (SortPermutation.sort_Permutation relevance records) as HP.
  apply ListFacts.Sorted_StronglySorted_on.
  - intros a b c Ha Hb Hc. apply Hcons; apply (Permutation_in _ HP);
      assumption.
  - pose proof (@SortFacts.sort_Sorted _ relevance records relevance_antisym)
      as H.
    remember (JS.sort relevance records) as sorted eqn:E. clear E HP.
    induction H as [|a rest Hs IH Hhd]; constructor; [exact IH|].
    destruct Hhd as [|b rest' Hab]; constructor.
    apply gtb_false in Hab. exact Hab.
Qed.

(** At most two records are always ordered consistently. *)
Lemma short_consistent l : (List.length l <= 2)%nat -> consistentOn l.
Proof.
  intros Hlen a b c Ha Hb Hc Hab Hbc.
  pose proof (relevance_refl a) as Haa.
  destruct l as [|x [|y [|z l]]]; simpl in Hlen, Ha, Hb, Hc; try lia;
    try contradiction.
  - destruct Ha as [<-|[]], Hc as [<-|[]]. lra.
  - destruct Ha as [<-|[<-|[]]], Hb as [<-|[<-|[]]], Hc as [<-|[<-|[]]];
      try lra; try assumption.
Qed.

Lemma consistentOnb_spec l : consistentOnb l = true -> consistentOn l.
Proof.
  unfold consistentOnb, consistentOn. rewrite forallb_forall.
  intros H a b c Ha Hb Hc Hab Hbc.
  specialize (H a Ha). rewrite forallb_forall in H.
  specialize (H b Hb). rewrite forallb_forall in H.
  specialize (H c Hc).
  apply leb_spec in Hab, Hbc. rewrite Hab, Hbc in H. simpl in H.
  apply leb_spec. exact H.
Qed.

(** C3, as amended.  When the comparison function orders the matching
    records consistently, as it always does when at most two records
    match, a query on an initialised memory returns them so that every
    record is in the stated order with every record after it: the higher
    importance first when the importances are more than the band apart;
    otherwise the more recent first when the timestamps differ by more
    than 60 s; otherwise the access count of the first is not below that
    of the second.  The band is that of the double difference of the
    importances with the double 0.1: 0.9 and 0.5 are apart, 0.9 and 0.82
    are not, and 0.8 and 0.7 are apart although they differ by 0.1. *)
Theorem recall_ranked_when_consistent w st query :
  isInitialized st = true ->
  (List.length (recordsOf st query) <= 2)%nat
  \/ consistentOn (recordsOf st query) ->
  exists res st' w',
    recall w st query = (Ok res, st', w')
    /\ StronglySorted rankedAhead res.
Proof.
  intros Hinit Hcons.
  assert (Hc : consistentOn (recordsOf st query)).
  { destruct Hcons as [H | H]; [apply short_consistent; exact H|exact H]. }
  rewrite (@recall_stages w st query Hinit).
  pose proof (sortByRelevance_StronglySorted Hc) as Hsorted.
  apply (@ListFacts.StronglySorted_firstn _ _ (limitOf query)) in Hsorted.
  pose proof (touch_all_touches
                (firstn (limitOf query)
                        (sortByRelevance (recordsOf st query)))
                w (memory st)) as HT.
  destruct (touch_all w (memory st)
                      (firstn (limitOf query)
                              (sortByRelevance (recordsOf st query))))
    as [[res m] w'].
  simpl in HT. eexists. eexists. eexists. split; [reflexivity|].
  apply (@StronglySorted_touched (fun a b => relevance a b <= 0) rankedAhead
           (firstn (limitOf query) (sortByRelevance (recordsOf st query))));
    [|exact HT|exact Hsorted].
  intros a b t1 t2 Hab. apply rankedAhead_touch, relevance_rankedAhead.
  exact Hab.
Qed.

(** A cycle, a trade and a signal stored thirty seconds apart come back
    as trade, signal, cycle: the signal is ahead of the cycle by
    importance, the trade and the signal are within the band and within
    the minute. *)
Lemma recall_ranked_when_consistent_witness :
  (exists res st' w',
     recall rankedWorld rankedStore everything = (Ok res, st', w')
     /\ StronglySorted rankedAhead res)
  /\ map type (answerOf (recall rankedWorld rankedStore everything))
     = [trade; signal; cycle]
  /\ map type (memory rankedStore) = [cycle; trade; signal].
Proof.
  split; [|split; vm_compute; reflexivity].
  apply (@recall_ranked_when_consistent rankedWorld rankedStore everything).
  - reflexivity.
  - right. apply consistentOnb_spec. vm_compute. reflexivity.
Defined.

(** The bands of the statement, as the doubles decide them. *)
Example importance_bands :
  beyondBand (9 # 10) (5 # 10)
  /\ ~ beyondBand (9 # 10) (82 # 100)
  /\ beyondBand (8 # 10) (7 # 10)
  /\ ~ beyondBand (9 # 10) (8 # 10).
Proof.
  unfold beyondBand. repeat split;
    try (vm_compute; reflexivity); intro H; vm_compute in H; discriminate H.
Qed.

(** Where the rounding decides: a signal, of importance 0.8, and a cycle
    stored 300 s later, of importance 0.7, differ by 0.1 and not more, so
    that the stated order with an exact band wants the more recent cycle
    ahead; the double difference is above the double 0.1, and the query
    returns the signal ahead of the cycle. *)
Example rounding_decides_the_ranking :
  map type (answerOf lateCycle) = [signal; cycle]
  /\ map timestamp (answerOf lateCycle) = [1700000100000; 1700000400000]%Z
  /\ map importance (answerOf lateCycle) = [8 # 10; 7 # 10]
  /\ ~ StronglySorted rankedBefore (answerOf lateCycle).
Proof.
  split; [vm_compute; reflexivity|].
  split; [vm_compute; reflexivity|].
  split; [vm_compute; reflexivity|].
  intro H.
  apply (ListFacts.StronglySorted_pairwiseb rankedBeforeb) in H;
    [|apply rankedBeforeb_complete].
  vm_compute in H. discriminate H.
Qed.

End RankingFacts.

(** ** RecallMemory: retention *)

Module RetentionFacts.
Import RecallMemory.

Lemma cleanup_memory tz cfg w st :
  NoDup (idsOf st) ->
  memory (fst (cleanup tz cfg w st))
  = filter (fun r => negb (expired (cutoffOf tz cfg w) r)) (memory st).
Proof.
  intro Hnd. rewrite CleanupFacts.cleanup_unfold. simpl.
  apply filter_ext_in. intros x Hx. f_equal.
  destruct (expired (cutoffOf tz cfg w) x) eqn:E.
  - apply CleanupFacts.mem_true. apply in_map. apply filter_In. auto.
  - apply RecallSimilarFacts.mem_false. intro Hin.
    apply in_map_iff in Hin. destruct Hin as [y [Hid Hy]].
    apply filter_In in Hy. destruct Hy as [Hy Hexp].
    rewrite (@RecallQueryFacts.same_id_same_record (memory st) Hnd y x
               Hy Hx Hid) in Hexp.
    congruence.
Qed.

Lemma expired_spec cutoff r :
  expired cutoff r = true
  <-> (timestamp r < cutoff)%Z /\ importance r < 5 # 10.
Proof.
  unfold expired. rewrite andb_true_iff, Z.ltb_lt, ltb_spec. tauto.
Qed.

Lemma kept_spec cutoff r :
  negb (expired cutoff r) = true
  <-> (cutoff <= timestamp r)%Z \/ 5 # 10 <= importance r.
Proof.
  rewrite negb_true_iff. unfold expired. rewrite andb_false_iff.
  rewrite Z.ltb_ge, ltb_false. tauto.
Qed.

(** X7.  The clean-up removes the records that are both older than the
    cutoff and of importance below 0.5, and no other: a record is in the
    map afterwards exactly when it was there before and is recent enough
    or important enough.  The cutoff is the clock reading moved back by
    the retention period in days of the local calendar, whatever the time
    zone.  Neither the flag of initialisation nor the file is touched. *)
Theorem cleanup_removes_exactly_expired tz cfg w st :
  NoDup (idsOf st) ->
  (forall r, In r (memory (fst (cleanup tz cfg w st)))
             <-> In r (memory st)
                 /\ ((setDate_back tz (clock w (clock_pos w))
                                   (retentionDays cfg) <= timestamp r)%Z
                     \/ 5 # 10 <= importance r))
  /\ isInitialized (fst (cleanup tz cfg w st)) = isInitialized st
  /\ disk (fst (cleanup tz cfg w st)) = disk st.
Proof.
  intro Hnd. split.
  - intro r. rewrite (@cleanup_memory tz cfg w st Hnd), filter_In, kept_spec.
    unfold cutoffOf. tauto.
  - rewrite CleanupFacts.cleanup_unfold. split; reflexivity.
Qed.

(** A clean-up on 2023-11-14 in the zone that left daylight saving time
    nine days before, with a retention of thirty days. *)
Lemma cleanup_removes_exactly_expired_witness :
  (forall r, In r (memory (fst (cleanup newYork config1000 world0
                                        borderMemory)))
             <-> In r (memory borderMemory)
                 /\ ((setDate_back newYork (clock world0 (clock_pos world0))
                                   (retentionDays config1000)
                      <= timestamp r)%Z
                     \/ 5 # 10 <= importance r))
  /\ isInitialized (fst (cleanup newYork config1000 world0 borderMemory))
     = isInitialized borderMemory
  /\ disk (fst (cleanup newYork config1000 world0 borderMemory))
     = disk borderMemory.
Proof.
  apply (@cleanup_removes_exactly_expired newYork config1000 world0
           borderMemory).
  vm_compute. repeat constructor; simpl; intuition discriminate.
Defined.

(** Where the calendar decides: thirty calendar days before the reading
    lie thirty days and one hour back, since the zone has left daylight
    saving time in between.  A record of low importance that is thirty
    days and half an hour old is kept in that zone, and deleted in
    UTC. *)
Example calendar_days_across_daylight_saving :
  setDate_back newYork 1700000000000 30
  = (1700000000000 - 30 * 86400000 - 3600000)%Z
  /\ setDate_back utc 1700000000000 30 = (1700000000000 - 30 * 86400000)%Z
  /\ map id (memory borderMemory) = [id borderRecord; id storedEvent]
  /\ map id (memory (fst (cleanup newYork config1000 world0 borderMemory)))
     = [id borderRecord; id storedEvent]
  /\ map id (memory (fst (cleanup utc config1000 world0 borderMemory)))
     = [id storedEvent].
Proof. repeat split; vm_compute; reflexivity. Qed.

(** X8.  The clean-up never removes what the agent has recorded: the
    four insertions give their records the importance 0.7, 0.9, 0.8 and
    0.6, so the record of an insertion is still in the map after a
    clean-up, whatever the retention period and however late the
    clean-up runs. *)
Theorem recorded_data_outlives_cleanup w st op tz cfg w' :
  NoDup (idsOf st) ->
  exists rid st1 w1 r,
    insert w st op = (rid, st1, w1)
    /\ id r = rid
    /\ data r = payloadOf op
    /\ In r (memory st1)
    /\ In r (memory (fst (cleanup tz cfg w' st1))).
Proof.
  intro Hnd.
  destruct (RecallQueryFacts.insert_record w st op)
    as [r [Hins [Hid [_ [Hdata [_ Himp]]]]]].
  assert (Hin : In r (memory (storeRecord st r))).
  { rewrite IdFacts.storeRecord_memory. apply IdFacts.Map_set_In. }
  exists (nextId w), (storeRecord st r), (afterInsert w), r.
  repeat split; auto.
  rewrite cleanup_memory.
  - apply filter_In. split; [exact Hin|]. apply kept_spec. right.
    apply (Qle_trans _ (6 # 10)); [discriminate|exact Himp].
  - unfold idsOf. rewrite IdFacts.storeRecord_memory.
    apply RecallQueryFacts.Map_set_NoDup. exact Hnd.
Qed.

Lemma recorded_data_outlives_cleanup_witness :
  exists rid st1 w1 r,
    insert paced restoredMemory pepeBuy = (rid, st1, w1)
    /\ id r = rid
    /\ data r = payloadOf pepeBuy
    /\ In r (memory st1)
    /\ In r (memory (fst (cleanup utc config1000 world0 st1))).
Proof.
  apply (@recorded_data_outlives_cleanup paced restoredMemory pepeBuy
           utc config1000 world0).
  vm_compute. repeat constructor; simpl; intuition discriminate.
Defined.

End RetentionFacts.

(** ** RecallMemory: similarity *)

Module SimilarityFacts.
Import RecallMemory.

Lemma Math_max_bounds a b :
  a <= Math_max a b /\ b <= Math_max a b
  /\ (Math_max a b = a \/ Math_max a b = b).
Proof.
  unfold Math_max. destruct (JS.leb a b) eqn:L.
  - apply leb_spec in L. repeat split; [exact L|apply Qle_refl|auto].
  - assert (H : ~ a <= b) by (intro H; apply leb_spec in H; congruence).
    repeat split; [apply Qle_refl|lra|auto].
Qed.

Lemma fieldScore_bounds v1 v2 : -1 <= fieldScore v1 v2 <= 1.
Proof.
  unfold fieldScore. destruct (strict_eq v1 v2); [split; discriminate|].
  destruct v1 as [| |a| |]; try (split; discriminate).
  destruct v2 as [| |b| |]; try (split; discriminate).
  destruct (gtb (Math_max (Math_abs (fl a)) (Math_abs (fl b))) 0) eqn:E;
    [|split; discriminate].
  apply gtb_spec in E. unfold Math_abs in *.
  set (hi := Math_max (Qabs (fl a)) (Qabs (fl b))) in *.
  destruct (Math_max_bounds (Qabs (fl a)) (Qabs (fl b)))
    as [Ha [Hb Hwhich]]. fold hi in Ha, Hb, Hwhich.
  assert (Bhi : binary64 hi).
  { destruct Hwhich as [-> | ->];
      apply DoubleFacts.binary64_abs, DoubleFacts.fl_binary64. }
  pose proof (DoubleFacts.binary64_fl hi Bhi) as Ehi.
  apply Qabs_Qle_condition in Ha, Hb.
  assert (Hd : - (2 * hi) <= fsub a b <= 2 * hi).
  { unfold fsub. apply DoubleFacts.fl_within.
    - apply DoubleFacts.binary64_opp, DoubleFacts.binary64_double. exact Bhi.
    - apply DoubleFacts.binary64_double. exact Bhi.
    - lra. }
  assert (Hdiff : 0 <= Qabs (fsub a b) <= 2 * hi).
  { split; [apply Qabs_nonneg|]. apply Qabs_Qle_condition. exact Hd. }
  assert (Hfd : 0 <= fl (Qabs (fsub a b)) <= 2 * hi).
  { apply DoubleFacts.fl_within; [apply (DoubleFacts.binary64_Z 0); lia| |].
    - apply DoubleFacts.binary64_double. exact Bhi.
    - exact Hdiff. }
  assert (Hq : 0 <= fl (Qabs (fsub a b)) / fl hi <= 2).
  { split.
    - apply Qle_shift_div_l; lra.
    - apply Qle_shift_div_r; lra. }
  assert (Hquot : 0 <= fdiv (Qabs (fsub a b)) hi <= 2).
  { unfold fdiv. apply DoubleFacts.fl_within; [| |exact Hq].
    - apply (DoubleFacts.binary64_Z 0). lia.
    - apply (DoubleFacts.binary64_Z 2). lia. }
  assert (Hq2 : 0 <= fl (fdiv (Qabs (fsub a b)) hi) <= 2).
  { apply DoubleFacts.fl_within; [| |exact Hquot].
    - apply (DoubleFacts.binary64_Z 0). lia.
    - apply (DoubleFacts.binary64_Z 2). lia. }
  pose proof (DoubleFacts.fl_Z 1) as E1. change (inject_Z 1) with 1 in E1.
  unfold fsub at 1 3. apply (DoubleFacts.fl_within_Z 1); [lia|].
  change (inject_Z 1) with 1. rewrite E1 by lia. lra.
Qed.

(** Adding a score to a sum that is within [k] leaves it within [k + 1];
    from [2 ^ 53] on the sum does not grow any more. *)
Lemma fadd_step acc x k :
  (0 <= k)%Z ->
  - inject_Z (Z.min k (2 ^ 53)) <= acc <= inject_Z (Z.min k (2 ^ 53)) ->
  -1 <= x <= 1 ->
  - inject_Z (Z.min (k + 1) (2 ^ 53)) <= fadd acc x
  <= inject_Z (Z.min (k + 1) (2 ^ 53)).
Proof.
  intros Hk Hacc Hx. unfold fadd.
  assert (Ha : - inject_Z (Z.min k (2 ^ 53)) <= fl acc
               <= inject_Z (Z.min k (2 ^ 53)))
    by (apply DoubleFacts.fl_within_Z; [lia|exact Hacc]).
  assert (Hfx : -1 <= fl x <= 1).
  { apply (DoubleFacts.fl_within_Z 1); [lia|exact Hx]. }
  destruct (Z_lt_le_dec k (2 ^ 53)) as [Hsmall|Hbig].
  - rewrite Z.min_l in Ha by lia. rewrite Z.min_l by lia.
    apply DoubleFacts.fl_within_Z; [lia|].
    rewrite inject_Z_plus. change (inject_Z 1) with 1. lra.
  - rewrite Z.min_r in Ha by lia. rewrite Z.min_r by lia.
    assert (Etop : fl (inject_Z (2 ^ 53) + 1) == inject_Z (2 ^ 53))
      by (vm_compute; reflexivity).
    assert (Ebot : fl (- (inject_Z (2 ^ 53) + 1)) == - inject_Z (2 ^ 53))
      by (rewrite DoubleFacts.fl_opp, Etop; reflexivity).
    pose proof (DoubleFacts.fl_mono (fl acc + fl x) (inject_Z (2 ^ 53) + 1))
      as Hup.
    pose proof (DoubleFacts.fl_mono (- (inject_Z (2 ^ 53) + 1))
                                    (fl acc + fl x)) as Hlow.
    split; [rewrite <- Ebot; apply Hlow; lra|rewrite <- Etop; apply Hup; lra].
Qed.

Lemma sum_bounds (f : string -> Q) l :
  (forall key, -1 <= f key <= 1) ->
  forall acc k,
    (0 <= k)%Z ->
    - inject_Z (Z.min k (2 ^ 53)) <= acc <= inject_Z (Z.min k (2 ^ 53)) ->
    - inject_Z (Z.min (k + Z.of_nat (List.length l)) (2 ^ 53))
    <= fold_left (fun similarity key => fadd similarity (f key)) l acc
    <= inject_Z (Z.min (k + Z.of_nat (List.length l)) (2 ^ 53)).
Proof.
  intro Hf.
  induction l as [|key l IH]; intros acc k Hk Hacc;
    simpl List.length; simpl fold_left.
  - rewrite Z.add_0_r. exact Hacc.
  - rewrite Nat2Z.inj_succ.
    replace (k + Z.succ (Z.of_nat (List.length l)))%Z
      with ((k + 1) + Z.of_nat (List.length l))%Z by lia.
    apply IH; [lia|]. apply fadd_step; auto.
Qed.

Lemma calculateSimilarity_bounds d1 d2 :
  -1 <= calculateSimilarity d1 d2 <= 1.
Proof.
  unfold calculateSimilarity.
  destruct (filter (fun key => JS.mem key (keys d2)) (keys d1))
    as [|key l] eqn:E; [split; discriminate|].
  set (n := Z.of_nat (List.length (key :: l))).
  assert (Hn : (1 <= n)%Z) by (unfold n; simpl List.length; lia).
  pose proof (@sum_bounds
                (fun key => fieldScore (prop d1 key) (prop d2 key))
                (key :: l)
                (fun key => fieldScore_bounds (prop d1 key) (prop d2 key))
                0 0%Z (Z.le_refl 0)) as Hsum.
  change (0 + Z.of_nat (List.length (key :: l)))%Z with n in Hsum.
  set (total := fold_left
                  (fun similarity key0 =>
                     fadd similarity
                          (fieldScore (prop d1 key0) (prop d2 key0)))
                  (key :: l) 0) in *.
  set (b := Z.min n (2 ^ 53)) in *.
  assert (Htotal : - inject_Z b <= total <= inject_Z b).
  { apply Hsum. change (inject_Z (Z.min 0 (2 ^ 53))) with 0. lra. }
  assert (Hb : (1 <= b <= 2 ^ 53)%Z) by (unfold b; lia).
  assert (Hfs : - inject_Z b <= fl total <= inject_Z b)
    by (apply DoubleFacts.fl_within_Z; [lia|exact Htotal]).
  assert (Hfn : inject_Z b <= fl (inject_Z n)).
  { rewrite <- (DoubleFacts.fl_Z b) by lia. apply DoubleFacts.fl_mono.
    rewrite <- Zle_Qle. unfold b. lia. }
  assert (Hb1 : 1 <= inject_Z b).
  { change 1 with (inject_Z 1). rewrite <- Zle_Qle. lia. }
  unfold fdiv. apply (DoubleFacts.fl_within_Z 1); [lia|].
  change (inject_Z 1) with 1. split.
  - apply Qle_shift_div_l; lra.
  - apply Qle_shift_div_r; lra.
Qed.

(** X9.  For two payloads whose numbers are moderate, so that no
    difference of two of them overflows, the similarity lies between -1
    and 1.  The lower bound is reached: two payloads whose one common
    property holds 1 in the one and -1 in the other have the similarity
    -1, below the 0 of two payloads that have nothing in common. *)
Theorem similarity_between_minus_one_and_one d1 d2 :
  moderateNumbers d1 -> moderateNumbers d2 ->
  -1 <= calculateSimilarity d1 d2 <= 1.
Proof. intros _ _. apply calculateSimilarity_bounds. Qed.

Lemma similarity_between_minus_one_and_one_witness :
  -1 <= calculateSimilarity gain loss <= 1
  /\ calculateSimilarity gain loss == -1
  /\ calculateSimilarity gain volumeSample == 0.
Proof.
  split; [|split; vm_compute; reflexivity].
  apply (@similarity_between_minus_one_and_one gain loss).
  - intros key q H. unfold gain in H. cbn [prop lookup] in H.
    destruct (String.eqb "pnl" key); [|discriminate H].
    injection H as <-. vm_compute. discriminate.
  - intros key q H. unfold loss in H. cbn [prop lookup] in H.
    destruct (String.eqb "pnl" key); [|discriminate H].
    injection H as <-. vm_compute. discriminate.
Defined.

(** *** The order of [recallSimilar] *)

Lemma scored_StronglySorted (score : MemoryRecord -> Q) l :
  StronglySorted (fun a b : MemoryRecord * Q => snd b <= snd a) l ->
  Forall (fun p => snd p = score (fst p)) l ->
  StronglySorted (fun a b => score b <= score a) (map fst l).
Proof.
  induction 1 as [|a l Hs IH Hall]; intro HF; simpl; constructor.
  - apply IH. inversion HF; assumption.
  - inversion HF as [|? ? Ha HF']; subst.
    apply Forall_forall. intros x Hx. apply in_map_iff in Hx.
    destruct Hx as [p [<- Hp]].
    rewrite Forall_forall in Hall, HF'.
    rewrite <- (HF' p Hp), <- Ha. auto.
Qed.

(** X10.  [recallSimilar] returns at most [limit] records, in the order
    of their score: no record stands before a record of a higher
    similarity to the sample. *)
Theorem recallSimilar_ranks_by_score w st sampleData ty limit :
  isInitialized st = true ->
  exists res st' w',
    recallSimilar w st sampleData ty limit = (Ok res, st', w')
    /\ StronglySorted (fun a b => scoreOf sampleData b <= scoreOf sampleData a)
                      res
    /\ (List.length res <= limit)%nat.
Proof.
  intro Hinit. unfold recallSimilar.
  rewrite (RecallQueryFacts.recall_stages w st _ Hinit).
  match goal with
  | |- context [touch_all w (memory st) ?c] =>
      destruct (touch_all w (memory st) c) as [[records m] w0]
  end.
  eexists; eexists; eexists. split; [reflexivity|].
  set (scored := map (fun r => (r, calculateSimilarity sampleData (data r)))
                     records).
  set (cmp := fun a b : MemoryRecord * Q => snd b - snd a).
  assert (Hsorted : StronglySorted
                      (fun a b : MemoryRecord * Q => snd b <= snd a)
                      (JS.sort cmp scored)).
  { exact (@SortPermutation.sort_descending _ snd scored). }
  assert (Hscores : Forall (fun p => snd p = scoreOf sampleData (fst p))
                           (JS.sort cmp scored)).
  { apply Forall_forall. intros p Hp.
    apply (Permutation_in _ (SortPermutation.sort_Permutation cmp scored))
      in Hp.
    unfold scored in Hp. apply in_map_iff in Hp.
    destruct Hp as [r [<- _]]. reflexivity. }
  split.
  - unfold slice0. apply scored_StronglySorted.
    + apply ListFacts.StronglySorted_firstn. exact Hsorted.
    + apply Forall_forall. intros p Hp. apply ListFacts.In_firstn in Hp.
      rewrite Forall_forall in Hscores. auto.
  - unfold slice0. rewrite length_map, length_firstn. apply Nat.le_min_l.
Qed.

(** The memory holds the event at 50 and, stored after it, the event at
    100; for the sample at 100 the second scores 1 and the first less,
    and the answer has the second ahead of the first. *)
Lemma recallSimilar_ranks_by_score_witness :
  (exists res st' w',
     recallSimilar similarWorld similarStore pricedEvent "market_event" 5
     = (Ok res, st', w')
     /\ StronglySorted (fun a b => scoreOf pricedEvent b
                                   <= scoreOf pricedEvent a) res
     /\ (List.length res <= 5)%nat)
  /\ map data (memory similarStore) = [cheaperEvent; pricedEvent]
  /\ map data (answerOf (recallSimilar similarWorld similarStore pricedEvent
                                       "market_event" 5))
     = [pricedEvent; cheaperEvent]
  /\ calculateSimilarity pricedEvent cheaperEvent
     < calculateSimilarity pricedEvent pricedEvent.
Proof.
  split; [|split; [|split]; vm_compute; reflexivity].
  apply (@recallSimilar_ranks_by_score similarWorld similarStore pricedEvent
           "market_event" 5%nat).
  reflexivity.
Defined.

End SimilarityFacts.

(** ** TradingStrategy: the classification *)

Module StrategyFacts.
Import TradingStrategy.

Lemma Math_min_cases a b :
  (Math_min a b = a /\ a <= b) \/ (Math_min a b = b /\ b <= a).
Proof.
  unfold Math_min. destruct (JS.leb a b) eqn:E.
  - left. split; [reflexivity|apply leb_spec; exact E].
  - right. split; [reflexivity|]. apply Qlt_le_weak, Qnot_le_lt.
    intro H. apply leb_spec in H. congruence.
Qed.

Lemma Math_max_cases a b :
  (Math_max a b = b /\ a <= b) \/ (Math_max a b = a /\ b <= a).
Proof.
  unfold Math_max. destruct (JS.leb a b) eqn:E.
  - left. split; [reflexivity|apply leb_spec; exact E].
  - right. split; [reflexivity|]. apply Qlt_le_weak, Qnot_le_lt.
    intro H. apply leb_spec in H. congruence.
Qed.

Lemma count_nonneg {A} (l : list A) : 0 <= inject_Z (Z.of_nat (List.length l)).
Proof. rewrite <- (Zle_Qle 0). lia. Qed.

Lemma calculateConfidence_bounds technicalSignals patternSignals :
  5 # 10 <= calculateConfidence technicalSignals patternSignals
  /\ calculateConfidence technicalSignals patternSignals <= 95 # 100.
Proof.
  unfold calculateConfidence.
  pose proof (count_nonneg technicalSignals) as Ht.
  pose proof (count_nonneg patternSignals) as Hp.
  destruct (Math_min_cases
              (95 # 100)
              ((5 # 10)
               + inject_Z (Z.of_nat (List.length technicalSignals))
                 * (5 # 100)
               + inject_Z (Z.of_nat (List.length patternSignals))
                 * (3 # 100))) as [[-> H] | [-> H]]; split; lra.
Qed.

(** The tags of the technical indicators carry neither of the words that
    [calculateTrendStrength] looks for, so the strength of a
    classification is the base 0.5 plus half the volatility, clamped to
    [0, 1]. *)
Lemma technical_strength data :
  calculateTrendStrength data (analyzeTechnicalIndicators data)
  = Math_max 0 (Math_min 1 (match volatility (indicators data) with
                            | Some v => (5 # 10) + v * (5 # 10)
                            | None => 5 # 10
                            end)).
Proof.
  unfold calculateTrendStrength, analyzeTechnicalIndicators.
  destruct (rsi (indicators data)) as [r|];
    [destruct (ltb r 30); [|destruct (gtb r 70)]|];
    (destruct (macd (indicators data)) as [m|];
     [destruct (gtb m 0)|]);
    (destruct (movingAverage (indicators data)) as [avg|];
     [destruct (gtb (md_price data) avg)|]);
    (destruct (volatility (indicators data)) as [v|];
     [destruct (gtb v (5 # 100))|]); reflexivity.
Qed.

Lemma technical_trend data :
  determineTrend data (analyzeTechnicalIndicators data)
  = if (bearishVotes data + 1 <? bullishVotes data)%Z then bullish
    else if (bullishVotes data + 1 <? bearishVotes data)%Z then bearish
    else neutral.
Proof.
  unfold determineTrend, analyzeTechnicalIndicators, bullishVotes,
    bearishVotes.
  destruct (rsi (indicators data)) as [r|];
    [destruct (ltb r 30); [|destruct (gtb r 70)]|];
    (destruct (macd (indicators data)) as [m|];
     [destruct (gtb m 0)|]);
    (destruct (movingAverage (indicators data)) as [avg|];
     [destruct (gtb (md_price data) avg)|]);
    (destruct (volatility (indicators data)) as [v|];
     [destruct (gtb v (5 # 100))|]); reflexivity.
Qed.

Lemma strength_bounds x : 0 <= Math_max 0 (Math_min 1 x) <= 1.
Proof.
  destruct (Math_max_cases 0 (Math_min 1 x)) as [[-> H] | [-> H]];
    destruct (Math_min_cases 1 x) as [[E H'] | [E H']];
    rewrite ?E in *; lra.
Qed.

(** X11.  Whatever the sample and the history, the classification of a
    symbol has a confidence between 0.5 and 0.95 and a strength between
    0 and 1, and bears the symbol of the sample. *)
Theorem analyzeSymbol_ranges data historicalData :
  5 # 10 <= confidence (analyzeSymbol data historicalData)
  /\ confidence (analyzeSymbol data historicalData) <= 95 # 100
  /\ 0 <= strength (analyzeSymbol data historicalData)
  /\ strength (analyzeSymbol data historicalData) <= 1
  /\ ma_symbol (analyzeSymbol data historicalData) = md_symbol data.
Proof.
  unfold analyzeSymbol. cbn [confidence strength ma_symbol].
  destruct (calculateConfidence_bounds
              (analyzeTechnicalIndicators data)
              (recognizePatterns data historicalData)) as [Hlo Hhi].
  rewrite technical_strength.
  destruct (strength_bounds
              (match volatility (indicators data) with
               | Some v => (5 # 10) + v * (5 # 10)
               | None => 5 # 10
               end)) as [Hs0 Hs1].
  repeat split; assumption.
Qed.

Lemma analyzeSymbol_riskLevel data historicalData :
  ma_riskLevel (analyzeSymbol data historicalData)
  = match volatility (indicators data) with
    | Some v => if gtb v (6 # 10) then high
                else if gtb v (1 # 10) then medium else low
    | None => low
    end.
Proof.
  unfold analyzeSymbol. cbn [ma_riskLevel]. unfold assessRiskLevel.
  destruct (calculateConfidence_bounds
              (analyzeTechnicalIndicators data)
              (recognizePatterns data historicalData)) as [Hlo _].
  assert (Hc : ltb (calculateConfidence
                      (analyzeTechnicalIndicators data)
                      (recognizePatterns data historicalData)) (4 # 10)
               = false) by (apply ltb_false; lra).
  rewrite Hc, technical_strength.
  destruct (volatility (indicators data)) as [v|].
  - destruct (Math_max_cases 0 (Math_min 1 ((5 # 10) + v * (5 # 10))))
      as [[-> H] | [-> H]];
      destruct (Math_min_cases 1 ((5 # 10) + v * (5 # 10)))
        as [[E H'] | [E H']]; rewrite ?E in *;
      destruct (gtb v (6 # 10)) eqn:E6;
      destruct (gtb v (1 # 10)) eqn:E1;
      try (apply gtb_spec in E6); try (apply gtb_false in E6);
      try (apply gtb_spec in E1); try (apply gtb_false in E1);
      try lra;
      match goal with
      | |- context [gtb ?x (8 # 10)] =>
          destruct (gtb x (8 # 10)) eqn:E8;
          try (apply gtb_spec in E8); try (apply gtb_false in E8)
      end; try lra; reflexivity.
  - destruct (Math_max_cases 0 (Math_min 1 (5 # 10))) as [[-> H] | [-> H]];
      reflexivity.
Qed.

(** X12.  The risk level of a classification is a function of the
    volatility of the sample alone: low when the volatility is absent or
    at most 0.1, high when it is above 0.6, medium in between. Neither
    the confidence, which is never below 0.5, nor the history take part. *)
Theorem risk_level_follows_volatility data historicalData :
  (ma_riskLevel (analyzeSymbol data historicalData) = low
   <-> volatilityWithin (1 # 10) data)
  /\ (ma_riskLevel (analyzeSymbol data historicalData) = high
      <-> ~ volatilityWithin (6 # 10) data).
Proof.
  rewrite analyzeSymbol_riskLevel. unfold volatilityWithin.
  destruct (volatility (indicators data)) as [v|].
  - destruct (gtb v (6 # 10)) eqn:E6; destruct (gtb v (1 # 10)) eqn:E1;
      try (apply gtb_spec in E6); try (apply gtb_false in E6);
      try (apply gtb_spec in E1); try (apply gtb_false in E1);
      split; split; intro H; try discriminate H; try reflexivity;
      try lra; try (exfalso; lra); try (intro; lra);
      exfalso; apply H; lra.
  - split; split; intro H; try discriminate H; try reflexivity; tauto.
Qed.

Lemma risk_level_follows_volatility_example :
  ma_riskLevel (analyzeSymbol wildSample []) = high.
Proof. reflexivity. Qed.

(** *** From the classification to the signal *)

(** A signal is returned only for a classification that the rules
    select, and has the shape that [generateSignalForSymbol] gives it. *)
Lemma generateSignalForSymbol_Some cfg w analysis ra sg w' :
  generateSignalForSymbol cfg w analysis ra = (Some sg, w') ->
  selects analysis ra (action sg)
  /\ price sg = 0
  /\ ts_symbol sg = ma_symbol analysis
  /\ ts_confidence sg
     = Math_min (95 # 100) (fadd (confidence analysis) (1 # 10))
  /\ w' = snd (Date_now w).
Proof.
  unfold generateSignalForSymbol, selects.
  destruct (RiskLevel_eqb (ma_riskLevel analysis) high
            && RiskLevel_eqb (riskLevel ra) high) eqn:Eh;
    [discriminate|].
  destruct (ltb (confidence analysis) (4 # 10)) eqn:Ec; [discriminate|].
  apply ltb_false in Ec.
  assert (Hnot : ~ (ma_riskLevel analysis = high /\ riskLevel ra = high)).
  { intros [H1 H2]. rewrite H1, H2 in Eh. discriminate Eh. }
  destruct (Trend_eqb (trend analysis) bullish
            && JS.some (fun s => includes s "bullish") (signals analysis))
    eqn:Eb.
  - intros [= <- <-]. apply andb_prop in Eb. destruct Eb as [Et Es].
    apply Trend_eqb_spec in Et.
    apply TradingStrategyFacts.some_includes in Es.
    cbn [action price ts_symbol ts_confidence]. repeat split; auto.
  - destruct (Trend_eqb (trend analysis) bearish
              && JS.some (fun s => includes s "bearish") (signals analysis))
      eqn:Er; [|discriminate].
    intros [= <- <-]. apply andb_prop in Er. destruct Er as [Et Es].
    apply Trend_eqb_spec in Et.
    apply TradingStrategyFacts.some_includes in Es.
    cbn [action price ts_symbol ts_confidence]. repeat split; auto.
Qed.

(** X13.  No signal without a majority among the indicators: when the
    strategy turns the classification of a sample into a signal, it is a
    buy with at least two more bullish than bearish votes among RSI,
    MACD and moving average, or a sell with at least two more bearish
    than bullish votes. The volatility and the patterns found in the
    history do not vote. *)
Theorem signal_needs_majority_of_indicators
        cfg w data historicalData ra sg w' :
  generateSignalForSymbol cfg w (analyzeSymbol data historicalData) ra
  = (Some sg, w') ->
  (action sg = buy /\ (bearishVotes data + 2 <= bullishVotes data)%Z)
  \/ (action sg = sell /\ (bullishVotes data + 2 <= bearishVotes data)%Z).
Proof.
  intro H. apply generateSignalForSymbol_Some in H.
  destruct H as [[_ [_ Hsel]] _].
  assert (Ht : trend (analyzeSymbol data historicalData)
               = determineTrend data (analyzeTechnicalIndicators data))
    by reflexivity.
  rewrite technical_trend in Ht.
  destruct Hsel as [[Ha [Hb _]] | [Ha [Hb _]]]; rewrite Hb in Ht;
    [left|right]; (split; [exact Ha|]);
    destruct (bearishVotes data + 1 <? bullishVotes data)%Z eqn:E1;
    try discriminate Ht;
    destruct (bullishVotes data + 1 <? bearishVotes data)%Z eqn:E2;
    try discriminate Ht;
    try (apply Z.ltb_lt in E1); try (apply Z.ltb_lt in E2); lia.
Qed.

Lemma signal_needs_majority_of_indicators_witness :
  exists sg w',
    generateSignalForSymbol config1000 world0 (analyzeSymbol wildSample [])
                            (assessmentOf low 0 1000) = (Some sg, w')
    /\ ((action sg = buy
         /\ (bearishVotes wildSample + 2 <= bullishVotes wildSample)%Z)
        \/ (action sg = sell
            /\ (bullishVotes wildSample + 2 <= bearishVotes wildSample)%Z)).
Proof.
  eexists. eexists. split.
  - vm_compute. reflexivity.
  - apply (@signal_needs_majority_of_indicators
             config1000 world0 wildSample [] (assessmentOf low 0 1000) _
             (snd (Date_now world0))).
    vm_compute. reflexivity.
Defined.

(** *** The batch of signals *)

Lemma generateEach_spec cfg ra analysis :
  forall w,
    (List.length (fst (generateEach cfg w analysis ra))
     <= List.length analysis)%nat
    /\ forall sg, In sg (fst (generateEach cfg w analysis ra)) ->
                  exists a w1 w2,
                    In a analysis
                    /\ generateSignalForSymbol cfg w1 a ra = (Some sg, w2).
Proof.
  induction analysis as [|a rest IH]; intro w; simpl.
  - split; [lia|tauto].
  - destruct (generateSignalForSymbol cfg w a ra) as [signal w1] eqn:E.
    specialize (IH w1).
    destruct (generateEach cfg w1 rest ra) as [sigs w2]. simpl in *.
    destruct IH as [IHlen IHin].
    assert (Hrest : forall sg, In sg sigs ->
                               exists a0 w3 w4,
                                 (a = a0 \/ In a0 rest)
                                 /\ generateSignalForSymbol cfg w3 a0 ra
                                    = (Some sg, w4)).
    { intros sg Hsg. destruct (IHin sg Hsg) as [a0 [w3 [w4 [Ha0 Hg]]]].
      exists a0, w3, w4. auto. }
    destruct signal as [sg0|]; [destruct (action sg0) eqn:Ea|]; simpl;
      split; try lia; try exact Hrest;
      intros sg [<- | Hsg]; try (apply Hrest; exact Hsg);
      exists a, w, w1; auto.
Qed.

(** X14.  The batch of signals comes in the order of confidence, the
    most confident first; it holds at most one signal per
    classification, no hold, and every signal has the price 0 and a
    confidence of at most 0.95. *)
Theorem generateSignals_most_confident_first cfg s w analysis ra :
  isInitialized s = true ->
  exists sigs w',
    generateSignals cfg s w analysis ra = (Ok sigs, w')
    /\ StronglySorted (fun a b => ts_confidence b <= ts_confidence a) sigs
    /\ (List.length sigs <= List.length analysis)%nat
    /\ Forall (fun sg => action sg <> hold
                         /\ price sg = 0
                         /\ ts_confidence sg <= 95 # 100) sigs.
Proof.
  intro Hinit. unfold generateSignals. rewrite Hinit. simpl negb. cbv iota.
  destruct (generateEach_spec cfg ra analysis w) as [Hlen Hin].
  destruct (generateEach cfg w analysis ra) as [sigs w']. simpl in *.
  set (cmp := fun a b : TradingSignal => ts_confidence b - ts_confidence a).
  pose proof (SortPermutation.sort_Permutation cmp sigs) as Hperm.
  eexists; eexists. split; [reflexivity|]. split; [|split].
  - exact (@SortPermutation.sort_descending _ ts_confidence sigs).
  - rewrite (Permutation_length Hperm). exact Hlen.
  - apply Forall_forall. intros sg Hsg.
    apply (Permutation_in _ Hperm) in Hsg.
    destruct (Hin sg Hsg) as [a [w1 [w2 [_ Hg]]]].
    apply generateSignalForSymbol_Some in Hg.
    destruct Hg as [[_ [_ Hsel]] [Hp [_ [Hc _]]]].
    split; [|split; [exact Hp|]].
    + destruct Hsel as [[-> _] | [-> _]]; discriminate.
    + rewrite Hc.
      destruct (Math_min_cases (95 # 100) (fadd (confidence a) (1 # 10)))
        as [[-> H] | [-> H]]; lra.
Qed.

Lemma generateSignals_most_confident_first_witness :
  exists sigs w',
    generateSignals config1000 (initialize new) world0
                    [bullishAt (7 # 10); bullishAt (8 # 10)]
                    (assessmentOf low 0 1000) = (Ok sigs, w')
    /\ StronglySorted (fun a b => ts_confidence b <= ts_confidence a) sigs
    /\ (List.length sigs
        <= List.length [bullishAt (7 # 10); bullishAt (8 # 10)])%nat
    /\ Forall (fun sg => action sg <> hold
                         /\ price sg = 0
                         /\ ts_confidence sg <= 95 # 100) sigs.
Proof.
  apply (@generateSignals_most_confident_first
           config1000 (initialize new) world0
           [bullishAt (7 # 10); bullishAt (8 # 10)]
           (assessmentOf low 0 1000)).
  reflexivity.
Defined.

(** *** The batch of classifications *)

Lemma analyzeEach_spec marketData :
  forall w memory,
    map ma_symbol (fst (fst (analyzeEach w memory marketData)))
    = map md_symbol marketData
    /\ Forall (fun a => 3 # 10 <= confidence a /\ confidence a <= 95 # 100)
              (fst (fst (analyzeEach w memory marketData))).
Proof.
  induction marketData as [|data rest IH]; intros w memory; simpl.
  - split; [reflexivity|constructor].
  - destruct (RecallMemory.recall w memory _) as [[res memory1] w1].
    specialize (IH w1 memory1).
    destruct (analyzeEach w1 memory1 rest) as [[analyses memory2] w2].
    simpl in *. destruct IH as [IHs IHc]. split.
    + f_equal; [|exact IHs]. destruct res; reflexivity.
    + constructor; [|exact IHc]. destruct res as [historicalData|msg].
      * destruct (analyzeSymbol_ranges data historicalData)
          as [Hlo [Hhi _]]. split; lra.
      * simpl. split; lra.
Qed.

(** X15.  [analyzeMarket] classifies every sample: an initialised
    strategy returns one classification per sample, in the order of the
    samples and under their symbols, whether the memory answers or
    throws; every confidence lies between 0.3 and 0.95. *)
Theorem analyzeMarket_classifies_every_sample s w memory marketData :
  isInitialized s = true ->
  exists analyses memory' w',
    analyzeMarket s w memory marketData = (Ok analyses, memory', w')
    /\ map ma_symbol analyses = map md_symbol marketData
    /\ Forall (fun a => 3 # 10 <= confidence a /\ confidence a <= 95 # 100)
              analyses.
Proof.
  intro Hinit. unfold analyzeMarket. rewrite Hinit. simpl negb. cbv iota.
  destruct (analyzeEach_spec marketData w memory) as [Hs Hc].
  destruct (analyzeEach w memory marketData) as [[analyses memory'] w'].
  exists analyses, memory', w'. auto.
Qed.

Lemma analyzeMarket_classifies_every_sample_witness :
  exists analyses memory' w',
    analyzeMarket (initialize new) paced restoredMemory [wildSample]
    = (Ok analyses, memory', w')
    /\ map ma_symbol analyses = map md_symbol [wildSample]
    /\ Forall (fun a => 3 # 10 <= confidence a /\ confidence a <= 95 # 100)
              analyses.
Proof.
  apply (@analyzeMarket_classifies_every_sample
           (initialize new) paced restoredMemory [wildSample]).
  reflexivity.
Defined.

Lemma analyzeEach_without_memory marketData :
  forall w memory,
    RecallMemory.isInitialized memory = false ->
    analyzeEach w memory marketData
    = (map fallbackAnalysis marketData, memory, w).
Proof.
  induction marketData as [|data rest IH]; intros w memory Hm; simpl;
    [reflexivity|].
  unfold RecallMemory.recall. rewrite Hm. simpl.
  rewrite (IH w memory Hm). reflexivity.
Qed.

Lemma generateEach_fallback cfg ra marketData w :
  generateEach cfg w (map fallbackAnalysis marketData) ra = ([], w).
Proof.
  apply AgentFacts.generateEach_neutral. apply Forall_forall.
  intros a Ha. apply in_map_iff in Ha. destruct Ha as [d [<- _]].
  reflexivity.
Qed.

(** X16.  Without the memory there is no trading: when the recall memory
    is not initialised, every query of [analyzeMarket] throws, every
    sample gets the fallback classification, the memory and the clock
    are left alone, and [generateSignals] makes no signal of the result. *)
Theorem no_signal_without_memory cfg s w memory marketData ra :
  isInitialized s = true ->
  RecallMemory.isInitialized memory = false ->
  analyzeMarket s w memory marketData
  = (Ok (map fallbackAnalysis marketData), memory, w)
  /\ forall w2,
       generateSignals cfg s w2 (map fallbackAnalysis marketData) ra
       = (Ok [], w2).
Proof.
  intros Hinit Hm. split.
  - unfold analyzeMarket. rewrite Hinit. simpl negb. cbv iota.
    rewrite (analyzeEach_without_memory marketData w memory Hm).
    reflexivity.
  - intro w2. unfold generateSignals. rewrite Hinit. simpl negb. cbv iota.
    rewrite generateEach_fallback. reflexivity.
Qed.

Lemma no_signal_without_memory_witness :
  analyzeMarket (initialize new) world0 RecallMemory.new [wildSample]
  = (Ok (map fallbackAnalysis [wildSample]), RecallMemory.new, world0)
  /\ forall w2,
       generateSignals config1000 (initialize new) w2
                       (map fallbackAnalysis [wildSample])
                       (assessmentOf low 0 1000)
       = (Ok [], w2).
Proof.
  apply (@no_signal_without_memory config1000 (initialize new) world0
           RecallMemory.new [wildSample] (assessmentOf low 0 1000)).
  - reflexivity.
  - reflexivity.
Defined.

End StrategyFacts.

(** ** The agent and its risk manager *)

Module AgentRiskFacts.
Import PumpPandaAgent.

Section Keeps.
Context {F : Type}.
Variable proj : t -> F.

(** The projection does not depend on the parts of the state that the
    calls into the other components replace. *)
Hypothesis proj_world : forall x s, proj (set_world x s) = proj s.
Hypothesis proj_memory : forall x s, proj (set_memory x s) = proj s.
Hypothesis proj_portfolio : forall x s, proj (set_portfolio x s) = proj s.
Hypothesis proj_timers : forall x s, proj (set_timers x s) = proj s.
Hypothesis proj_marketData : forall x s, proj (set_marketData x s) = proj s.
Hypothesis proj_isRunning : forall x s, proj (set_isRunning x s) = proj s.
Hypothesis proj_tradingInterval :
  forall x s, proj (set_tradingInterval x s) = proj s.
Hypothesis proj_performanceInterval :
  forall x s, proj (set_performanceInterval x s) = proj s.
Hypothesis proj_log : forall e s, proj (snd (log e s)) = proj s.

Lemma keeps_ret {A} (a : A) : keeps proj (ret a).
Proof. intro s. reflexivity. Qed.

Lemma keeps_throw {A} msg : keeps proj (@throw A msg).
Proof. intro s. reflexivity. Qed.

Lemma keeps_liftResult {A} (r : result A) : keeps proj (liftResult r).
Proof. destruct r; [apply keeps_ret|apply keeps_throw]. Qed.

Lemma keeps_bind {A B} (c : M A) (k : A -> M B) :
  keeps proj c -> (forall a, keeps proj (k a)) -> keeps proj (bind c k).
Proof.
  intros Hc Hk s. unfold bind. specialize (Hc s).
  destruct (c s) as [[a|msg] s']; simpl in *; [|exact Hc].
  rewrite Hk. exact Hc.
Qed.

Lemma keeps_try c : keeps proj c -> keeps proj (try_ c).
Proof.
  intros Hc s. unfold try_. specialize (Hc s).
  destruct (c s) as [[a|msg] s']; exact Hc.
Qed.

Lemma keeps_when b c : keeps proj c -> keeps proj (when b c).
Proof. intro Hc. destruct b; [exact Hc|apply keeps_ret]. Qed.

Lemma keeps_forEach {A} (l : list A) body :
  (forall x, keeps proj (body x)) -> keeps proj (forEach l body).
Proof.
  intro Hb. induction l as [|x rest IH]; simpl; [apply keeps_ret|].
  apply keeps_bind; [apply Hb|intros _; exact IH].
Qed.

Lemma keeps_get : keeps proj get.
Proof. intro s. reflexivity. Qed.

Lemma keeps_log e : keeps proj (log e).
Proof. intro s. apply proj_log. Qed.

Lemma keeps_newDate : keeps proj newDate.
Proof.
  intro s. unfold newDate. destruct (Date_now (world s)). apply proj_world.
Qed.

Lemma keeps_getCurrentData cfg : keeps proj (getCurrentData cfg).
Proof.
  intro s. unfold getCurrentData.
  destruct (MarketDataManager.getCurrentData cfg (marketData s) (world s))
    as [r w].
  rewrite keeps_liftResult. apply proj_world.
Qed.

Lemma keeps_getTokenData token : keeps proj (getTokenData token).
Proof.
  intro s. unfold getTokenData.
  destruct (MarketDataManager.getTokenData (marketData s) (world s) token)
    as [r w].
  rewrite keeps_liftResult. apply proj_world.
Qed.

Lemma keeps_analyzeMarket samples : keeps proj (analyzeMarket samples).
Proof.
  intro s. unfold analyzeMarket.
  destruct (TradingStrategy.analyzeMarket (strategy s) (world s) (memory s)
                                          samples) as [[r m] w].
  rewrite keeps_liftResult, proj_world. apply proj_memory.
Qed.

Lemma keeps_assessRisk cfg analysis : keeps proj (assessRisk cfg analysis).
Proof. intro s. unfold assessRisk. apply keeps_liftResult. Qed.

Lemma keeps_validateSignal cfg sg : keeps proj (validateSignal cfg sg).
Proof. intro s. unfold validateSignal. apply keeps_liftResult. Qed.

Lemma keeps_generateSignals cfg analysis ra :
  keeps proj (generateSignals cfg analysis ra).
Proof.
  intro s. unfold generateSignals.
  destruct (TradingStrategy.generateSignals cfg (strategy s) (world s)
                                            analysis ra) as [r w].
  rewrite keeps_liftResult. apply proj_world.
Qed.

Lemma keeps_executeTrade cfg sg : keeps proj (executeTrade cfg sg).
Proof.
  unfold executeTrade. apply keeps_bind; [apply keeps_log|].
  intros _ s.
  destruct (PortfolioManager.executeTrade cfg (world s) (portfolio s) sg)
    as [[r p] w].
  rewrite keeps_liftResult, proj_world. apply proj_portfolio.
Qed.

Lemma keeps_getCurrentState : keeps proj getCurrentState.
Proof.
  intro s. unfold getCurrentState.
  destruct (PortfolioManager.getCurrentState (world s) (portfolio s))
    as [[r p] w].
  rewrite keeps_liftResult, proj_world. apply proj_portfolio.
Qed.

Lemma keeps_recordTrade e : keeps proj (recordTrade e).
Proof.
  unfold recordTrade. apply keeps_bind; [apply keeps_log|].
  intros _ s.
  destruct (RecallMemory.recordTrade (world s) (memory s) (PTrade e))
    as [[rid m] w].
  simpl. rewrite proj_world. apply proj_memory.
Qed.

Lemma keeps_recordCycle c : keeps proj (recordCycle c).
Proof.
  unfold recordCycle. apply keeps_bind; [apply keeps_log|].
  intros _ s.
  destruct (RecallMemory.recordCycle (world s) (memory s) (PCycle c))
    as [[rid m] w].
  simpl. rewrite proj_world. apply proj_memory.
Qed.

Lemma keeps_executeTrades cfg signals :
  keeps proj (executeTrades cfg signals).
Proof.
  unfold executeTrades. apply keeps_forEach. intro sg. apply keeps_try.
  apply keeps_bind; [apply keeps_validateSignal|]. intro validation.
  apply keeps_when.
  apply keeps_bind; [apply keeps_executeTrade|]. intro execution.
  apply keeps_bind; [apply keeps_recordTrade|]. intros _. apply keeps_ret.
Qed.

Lemma keeps_fetchAll cfg chains :
  forall acc, keeps proj (fetchAll cfg chains acc).
Proof.
  induction chains as [|chain rest IH]; intros acc s; simpl;
    [reflexivity|].
  pose proof (keeps_getCurrentData cfg s) as H.
  destruct (getCurrentData cfg s) as [[chainData|msg] s']; simpl in H;
    rewrite IH; exact H.
Qed.

Lemma keeps_trading cfg analysis ra :
  keeps proj (bind (generateSignals cfg analysis ra)
                   (fun signals => match signals with
                                   | [] => ret tt
                                   | _ => executeTrades cfg signals
                                   end)).
Proof.
  apply keeps_bind; [apply keeps_generateSignals|].
  intros [|sg more]; [apply keeps_ret|apply keeps_executeTrades].
Qed.

Lemma keeps_executeTradingCycle cfg : keeps proj (executeTradingCycle cfg).
Proof.
  unfold executeTradingCycle.
  apply keeps_bind; [apply keeps_fetchAll|].
  intros [|sample more]; [apply keeps_ret|].
  apply keeps_bind; [apply keeps_analyzeMarket|]. intro analysis.
  apply keeps_bind; [apply keeps_assessRisk|]. intro ra.
  apply keeps_bind; [apply keeps_when, keeps_trading|]. intros _.
  apply keeps_bind; [apply keeps_newDate|]. intro now.
  apply keeps_bind; [apply keeps_getCurrentState|]. intro state.
  apply keeps_bind; [apply keeps_recordCycle|]. intros _. apply keeps_ret.
Qed.

Lemma keeps_executeMemeTokenTrade cfg :
  keeps proj (executeMemeTokenTrade cfg).
Proof.
  unfold executeMemeTokenTrade. apply keeps_try.
  apply keeps_bind; [apply keeps_assessRisk|]. intro ra.
  apply keeps_when, keeps_trading.
Qed.

Lemma keeps_scanForMemeTokens cfg : keeps proj (scanForMemeTokens cfg).
Proof.
  unfold scanForMemeTokens. apply keeps_forEach. intro chain.
  apply keeps_try. destruct (findTrendingTokens cfg) as [|token more];
    [apply keeps_ret|].
  unfold analyzeTrendingTokens. apply keeps_forEach. intro tk.
  apply keeps_try.
  apply keeps_bind; [apply keeps_getTokenData|]. intro sample.
  apply keeps_bind; [apply keeps_analyzeMarket|].
  intros [|first rest]; [apply keeps_ret|].
  apply keeps_when, keeps_executeMemeTokenTrade.
Qed.

Lemma keeps_update f : (forall s, proj (f s) = proj s) -> keeps proj (update f).
Proof. intros Hf s. apply Hf. Qed.

Lemma keeps_setInterval cb ms : keeps proj (setInterval cb ms).
Proof.
  intro s. unfold setInterval.
  destruct (Timers.setInterval cb ms (timers s)). apply proj_timers.
Qed.

Lemma keeps_clearInterval h : keeps proj (clearInterval h).
Proof. apply keeps_update. intro s. apply proj_timers. Qed.

Lemma keeps_selfCancel : keeps proj selfCancel.
Proof.
  unfold selfCancel. apply keeps_bind; [apply keeps_get|]. intro s0.
  destruct (tradingInterval s0); [|apply keeps_ret].
  apply keeps_bind; [apply keeps_clearInterval|]. intros _.
  apply keeps_update. apply proj_tradingInterval.
Qed.

Lemma keeps_runCallback cfg cb : keeps proj (runCallback cfg cb).
Proof.
  unfold runCallback. apply keeps_bind; [apply keeps_get|]. intro s0.
  destruct cb.
  - destruct (negb (MarketDataManager.isStreaming (marketData s0)));
      [apply keeps_ret|].
    intro s. destruct (MarketDataManager.generateMockData _ _).
    apply proj_world.
  - destruct (negb (isRunning s0));
      [apply keeps_selfCancel|apply keeps_try, keeps_executeTradingCycle].
  - destruct (negb (isRunning s0));
      [apply keeps_selfCancel|apply keeps_try, keeps_scanForMemeTokens].
  - apply keeps_ret.
Qed.

Lemma keeps_fire cfg h : keeps proj (fire cfg h).
Proof.
  unfold fire. apply keeps_bind; [apply keeps_get|]. intro s0.
  destruct (Timers.armed h (timers s0));
    [apply keeps_runCallback|apply keeps_ret].
Qed.

Lemma keeps_startTradingLoop cfg : keeps proj (startTradingLoop cfg).
Proof.
  unfold startTradingLoop. apply keeps_bind; [apply keeps_setInterval|].
  intro h. apply keeps_update. apply proj_tradingInterval.
Qed.

Lemma keeps_startMemeTokenHunting cfg :
  keeps proj (startMemeTokenHunting cfg).
Proof.
  unfold startMemeTokenHunting.
  destruct (negb (enabled (getMemeTokenHuntingConfig cfg)));
    [apply keeps_ret|].
  apply keeps_bind; [apply keeps_setInterval|].
  intro h. apply keeps_update. apply proj_tradingInterval.
Qed.

Lemma keeps_startPerformanceMonitoring cfg :
  keeps proj (startPerformanceMonitoring cfg).
Proof.
  unfold startPerformanceMonitoring.
  apply keeps_bind; [apply keeps_setInterval|].
  intro h. apply keeps_update. apply proj_performanceInterval.
Qed.

Lemma keeps_startStreaming cfg : keeps proj (startStreaming cfg).
Proof.
  intro s. unfold startStreaming.
  destruct (MarketDataManager.startStreaming cfg (marketData s) (timers s))
    as [[r m] tm].
  rewrite keeps_liftResult, proj_timers. apply proj_marketData.
Qed.

Lemma keeps_start cfg : keeps proj (start cfg).
Proof.
  intro s. unfold start. destruct (isRunning s); [reflexivity|].
  assert (H : keeps proj (startStreaming cfg ;;;
                          startTradingLoop cfg ;;;
                          startMemeTokenHunting cfg ;;;
                          startPerformanceMonitoring cfg)%agent).
  { apply keeps_bind; [apply keeps_startStreaming|]. intros _.
    apply keeps_bind; [apply keeps_startTradingLoop|]. intros _.
    apply keeps_bind; [apply keeps_startMemeTokenHunting|]. intros _.
    apply keeps_startPerformanceMonitoring. }
  specialize (H (set_isRunning true s)).
  destruct ((startStreaming cfg ;;;
             startTradingLoop cfg ;;;
             startMemeTokenHunting cfg ;;;
             startPerformanceMonitoring cfg)%agent (set_isRunning true s))
    as [[a|msg] s']; simpl in *;
    rewrite ?proj_isRunning in *; exact H.
Qed.

Lemma keeps_pause : keeps proj pause.
Proof. apply keeps_update. apply proj_isRunning. Qed.

Lemma keeps_resume cfg : keeps proj (resume cfg).
Proof.
  intro s. unfold resume. destruct (isRunning s); [reflexivity|].
  assert (H : keeps proj (startTradingLoop cfg ;;;
                          startMemeTokenHunting cfg)%agent).
  { apply keeps_bind; [apply keeps_startTradingLoop|]. intros _.
    apply keeps_startMemeTokenHunting. }
  rewrite H. apply proj_isRunning.
Qed.

Lemma keeps_shutdown : keeps proj shutdown.
Proof.
  unfold shutdown. apply keeps_bind; [apply keeps_update, proj_isRunning|].
  intros _. apply keeps_try.
  apply keeps_bind; [apply keeps_get|]. intro s0. apply keeps_bind.
  { destruct (tradingInterval s0); [|apply keeps_ret].
    apply keeps_bind; [apply keeps_clearInterval|]. intros _.
    apply keeps_update, proj_tradingInterval. }
  intros _. apply keeps_bind; [apply keeps_get|]. intro s1.
  apply keeps_bind.
  { destruct (performanceInterval s1); [|apply keeps_ret].
    apply keeps_bind; [apply keeps_clearInterval|]. intros _.
    apply keeps_update, proj_performanceInterval. }
  intros _. apply keeps_bind.
  { apply keeps_update. intro s.
    destruct (MarketDataManager.stopStreaming (marketData s) (timers s)).
    rewrite proj_timers. apply proj_marketData. }
  intros _. apply keeps_bind.
  { intro s.
    destruct (PortfolioManager.closeAllPositions (world s) (portfolio s))
      as [[r p] w].
    rewrite keeps_liftResult, proj_world. apply proj_portfolio. }
  intros _. apply keeps_update. intro s. apply proj_memory.
Qed.

End Keeps.

(** *** The counters of the risk manager *)

Lemma initialize_counters chainOk : keeps riskCounters (initialize chainOk).
Proof.
  unfold initialize.
  apply keeps_bind; [intro s; reflexivity|]. intros _.
  apply keeps_bind; [intro s; reflexivity|]. intros _.
  apply keeps_bind; [intro s; reflexivity|]. intros _.
  apply keeps_bind.
  { intro s.
    destruct (PortfolioManager.initialize chainOk (portfolio s)) as [r p].
    destruct r; reflexivity. }
  intros _ s. reflexivity.
Qed.

Lemma step_counters cfg c : keeps riskCounters (step cfg c).
Proof.
  destruct c; simpl.
  - apply initialize_counters.
  - apply keeps_start; reflexivity.
  - apply keeps_pause; reflexivity.
  - apply keeps_resume; reflexivity.
  - apply keeps_shutdown; reflexivity.
  - apply keeps_fire; reflexivity.
Qed.

Lemma run_counters history :
  forall s, riskCounters (run history s) = riskCounters s.
Proof.
  induction history as [|[cfg c] rest IH]; intro s; simpl; [reflexivity|].
  rewrite IH. apply step_counters.
Qed.

Lemma counters_of_new w history :
  RiskManager.dailyLoss (riskManager (run history (new w))) = 0
  /\ RiskManager.openPositions (riskManager (run history (new w))) = 0.
Proof.
  pose proof (run_counters history (new w)) as H.
  unfold riskCounters in H. simpl in H. injection H as H1 H2. auto.
Qed.

(** X24.  The risk assessment never stops the agent from trading.
    Nothing in the agent updates the daily loss or the number of open
    positions of its risk manager, and what it hands over as the
    portfolio has no value to compute a drawdown from; so, under a
    configuration with positive limits, whatever the agent has done
    since it was constructed, the assessment is acceptable, its score is
    20 when some classification is of high risk and 0 otherwise, and the
    position size it allows is the configured maximum. *)
Theorem risk_assessment_never_blocks w history cfg analysis :
  positiveLimits cfg ->
  RiskManager.isInitialized (riskManager (run history (new w))) = true ->
  exists ra,
    assessRisk cfg analysis (run history (new w))
    = (Ok ra, run history (new w))
    /\ isAcceptable ra = true
    /\ riskScore ra = points (RiskManager.anyHigh (Some analysis)) 20
    /\ maxPositionSize ra = getMaxPositionSize cfg
    /\ riskCounters (run history (new w)) = (0, 0).
Proof.
  intros [Hloss [Hdd [Hopen Hsize]]] Hinit.
  destruct (counters_of_new w history) as [Hd Ho].
  set (s := run history (new w)) in *.
  destruct (@RiskManagerFacts.assessRisk_initialized
              cfg (riskManager s) (Some analysis)
              (managerAsPortfolio (portfolio s)) Hinit)
    as [ra [Hrun [Hscore [_ Hacc]]]].
  assert (H1 : geb (RiskManager.dailyLoss (riskManager s))
                   (getMaxDailyLoss cfg) = false).
  { rewrite Hd. apply not_true_is_false. intro H. apply geb_spec in H. lra. }
  assert (H2 : gtb (RiskManager.calculateDrawdown
                      (managerAsPortfolio (portfolio s)))
                   (fl (getMaxDrawdown cfg)) = false).
  { apply gtb_false. cbn [RiskManager.calculateDrawdown managerAsPortfolio
                         RiskManager.initialValue truthy negb orb].
    apply DoubleFacts.fl_nonneg. exact Hdd. }
  assert (H3 : geb (RiskManager.openPositions (riskManager s))
                   (getMaxOpenPositions cfg) = false).
  { rewrite Ho. apply not_true_is_false. intro H. apply geb_spec in H. lra. }
  rewrite H1, H2, H3 in Hscore, Hacc.
  exists ra. split; [unfold assessRisk; rewrite Hrun; reflexivity|].
  unfold RiskManager.assessRisk in Hrun. rewrite Hinit, H1, H2, H3 in Hrun.
  simpl negb in Hrun. cbv iota in Hrun.
  remember (RiskManager.anyHigh (Some analysis)) as volatile eqn:Ev.
  split; [rewrite Hacc; destruct volatile; reflexivity|].
  split; [rewrite Hscore; destruct volatile; reflexivity|]. split.
  - injection Hrun as <-. destruct volatile; reflexivity.
  - unfold riskCounters. rewrite Hd, Ho. reflexivity.
Qed.

Lemma risk_assessment_never_blocks_witness :
  exists ra,
    assessRisk config1000 firstAnalysis (run firstCycle (new calm))
    = (Ok ra, run firstCycle (new calm))
    /\ isAcceptable ra = true
    /\ riskScore ra
       = points (RiskManager.anyHigh (Some firstAnalysis)) 20
    /\ maxPositionSize ra = getMaxPositionSize config1000
    /\ riskCounters (run firstCycle (new calm)) = (0, 0).
Proof.
  apply (@risk_assessment_never_blocks calm firstCycle config1000
           firstAnalysis).
  - unfold positiveLimits. simpl. repeat split; try reflexivity;
      discriminate.
  - vm_compute. reflexivity.
Defined.

Lemma validate_priceless cfg rm sg :
  RiskManager.isInitialized rm = true ->
  0 <= getMaxPositionSize cfg ->
  RiskManager.openPositions rm < getMaxOpenPositions cfg ->
  price sg == 0 ->
  exists v,
    RiskManager.validateSignal cfg rm (signalAsAny sg) = Ok v
    /\ RiskManager.isValid v = true
    /\ (RiskManager.sv_riskScore v <= 35)%Z.
Proof.
  intros Hinit Hsize Hopen Hprice.
  unfold RiskManager.validateSignal. rewrite Hinit.
  simpl negb. cbv iota. cbn [signalAsAny RiskManager.sl_quantity
    RiskManager.sl_price RiskManager.sl_confidence RiskManager.sl_stopLoss
    RiskManager.sl_takeProfit].
  assert (H1 : gtb (quantity sg * price sg) (getMaxPositionSize cfg)
               = false).
  { apply gtb_false. rewrite Hprice. lra. }
  assert (H3 : geb (RiskManager.openPositions rm) (getMaxOpenPositions cfg)
               = false).
  { apply not_true_is_false. intro H. apply geb_spec in H. lra. }
  rewrite H1, H3. eexists. split; [reflexivity|].
  cbn [RiskManager.isValid RiskManager.sv_riskScore].
  unfold RiskManager.penalise.
  destruct (ltb (ts_confidence sg) (6 # 10));
    destruct (negb (truthy (stopLoss sg)) || negb (truthy (takeProfit sg)));
    simpl; split; try reflexivity; lia.
Qed.

(** X25.  Nor does the validation of signals: a signal without a price,
    as every signal of the strategy is, has the position value 0, and
    the count of open positions of the risk manager stays 0; so, under a
    configuration with positive limits, whatever the agent has done, the
    validation passes the signal, with a score of at most 35. *)
Theorem signal_validation_never_rejects w history cfg sg :
  positiveLimits cfg ->
  RiskManager.isInitialized (riskManager (run history (new w))) = true ->
  price sg == 0 ->
  exists v,
    validateSignal cfg sg (run history (new w))
    = (Ok v, run history (new w))
    /\ RiskManager.isValid v = true
    /\ (RiskManager.sv_riskScore v <= 35)%Z.
Proof.
  intros [Hloss [Hdd [Hopen Hsize]]] Hinit Hprice.
  destruct (counters_of_new w history) as [_ Ho].
  destruct (@validate_priceless cfg (riskManager (run history (new w))) sg
              Hinit Hsize) as [v [Hv [Hvalid Hscore]]];
    [rewrite Ho; exact Hopen|exact Hprice|].
  exists v. unfold validateSignal. rewrite Hv. auto.
Qed.

Lemma signal_validation_never_rejects_witness :
  exists v,
    validateSignal config1000 pricelessBuy (run firstCycle (new calm))
    = (Ok v, run firstCycle (new calm))
    /\ RiskManager.isValid v = true
    /\ (RiskManager.sv_riskScore v <= 35)%Z.
Proof.
  apply (@signal_validation_never_rejects calm firstCycle config1000
           pricelessBuy).
  - unfold positiveLimits. simpl. repeat split; try reflexivity;
      discriminate.
  - vm_compute. reflexivity.
  - reflexivity.
Defined.

End AgentRiskFacts.

(** ** PortfolioManager *)

Module PortfolioFacts.
Import PortfolioManager.

Lemma reprice_spec l :
  forall w totalValue total,
    let '(l', totalValue', total', _) := reprice w l totalValue total in
    map pos_symbol l' = map pos_symbol l
    /\ map pos_quantity l' = map pos_quantity l
    /\ totalValue' == totalValue + marketValue l'
    /\ total' == total + sumPnL l'.
Proof.
  induction l as [|x rest IH]; intros w totalValue total;
    cbn [reprice].
  - split; [reflexivity|]. split; [reflexivity|].
    unfold marketValue, sumPnL. cbn [fold_right]. split; ring.
  - destruct (getCurrentPrice w (pos_symbol x)) as [quote w1].
    specialize (IH w1 (totalValue + pos_quantity x * quote)
                   (total + (quote - entryPrice x) * pos_quantity x)).
    destruct (reprice w1 rest (totalValue + pos_quantity x * quote)
                      (total + (quote - entryPrice x) * pos_quantity x))
      as [[[rest' v] t] w2].
    destruct IH as [Hs [Hq [Hv Ht]]].
    split; [cbn [map pos_symbol]; f_equal; exact Hs|].
    split; [cbn [map pos_quantity]; f_equal; exact Hq|].
    unfold marketValue, sumPnL in *.
    cbn [fold_right pos_quantity currentPrice pnl]. split.
    + rewrite Hv. ring.
    + rewrite Ht. ring.
Qed.

Lemma updatePortfolio_spec w p :
  isInitialized (fst (updatePortfolio w p)) = isInitialized p
  /\ cash (portfolio (fst (updatePortfolio w p))) = cash (portfolio p)
  /\ positions (portfolio (fst (updatePortfolio w p)))
     = held (fst (updatePortfolio w p))
  /\ map pos_symbol (held (fst (updatePortfolio w p)))
     = map pos_symbol (held p)
  /\ map pos_quantity (held (fst (updatePortfolio w p)))
     = map pos_quantity (held p)
  /\ pf_currentValue (portfolio (fst (updatePortfolio w p)))
     == cash (portfolio p)
        + marketValue (held (fst (updatePortfolio w p)))
  /\ totalPnL (portfolio (fst (updatePortfolio w p)))
     == sumPnL (held (fst (updatePortfolio w p))).
Proof.
  unfold updatePortfolio.
  pose proof (reprice_spec (held p) w (cash (portfolio p)) 0) as H.
  destruct (reprice w (held p) (cash (portfolio p)) 0)
    as [[[held' v] t] w1].
  destruct H as [Hs [Hq [Hv Ht]]]. simpl.
  repeat split; auto. rewrite Ht. ring.
Qed.



(** *** Buying without a price *)

Lemma validateTrade_priceless_buy cfg p sg :
  action sg = buy ->
  price sg == 0 ->
  0 <= cash (portfolio p) ->
  0 <= getMaxPositionSize cfg ->
  validateTrade cfg p sg = None.
Proof.
  intros Ha Hp Hcash Hmax. unfold validateTrade. rewrite Ha.
  assert (H1 : ltb (cash (portfolio p)) (quantity sg * price sg) = false).
  { apply ltb_false. rewrite Hp. lra. }
  assert (H2 : gtb (quantity sg * price sg) (getMaxPositionSize cfg)
               = false).
  { apply gtb_false. rewrite Hp. lra. }
  rewrite H1, H2. reflexivity.
Qed.

Lemma executeBuy_spec w p sg :
  isInitialized (fst (executeBuy w p sg)) = isInitialized p
  /\ cash (portfolio (fst (executeBuy w p sg)))
     = cash (portfolio p) - quantity sg * fst (priceOf w sg).
Proof.
  unfold executeBuy. destruct (priceOf w sg) as [quote w1]. simpl.
  destruct (position_of (ts_symbol sg) (held p)); simpl; auto.
Qed.

(** X20.  A buy without a price is never short of cash. The validation
    multiplies the quantity by the price of the signal, which is 0 in
    every signal of the strategy; so, with cash that is not negative,
    the buy is executed whatever its quantity, and the cash is then
    debited by the quantity times a price quoted for the booking, which
    is drawn after the price written into the execution record. *)
Theorem priceless_buy_skips_cash_check cfg w p sg :
  isInitialized p = true ->
  action sg = buy ->
  price sg == 0 ->
  0 <= cash (portfolio p) ->
  0 <= getMaxPositionSize cfg ->
  exists e p' w',
    executeTrade cfg w p sg = (Ok e, p', w')
    /\ status e = executed
    /\ te_quantity e = quantity sg
    /\ te_price e = fst (priceOf (quoteWorld w) sg)
    /\ cash (portfolio p')
       = cash (portfolio p)
         - quantity sg * fst (priceOf (bookingWorld w sg) sg).
Proof.
  intros Hinit Ha Hp Hcash Hmax. unfold executeTrade.
  rewrite Hinit, Ha. simpl negb. cbv iota.
  rewrite (@validateTrade_priceless_buy cfg p sg Ha Hp Hcash Hmax).
  unfold bookingWorld, quoteWorld.
  destruct (generateTradeId w) as [tradeId w1]. cbn [snd].
  destruct (priceOf w1 sg) as [quoted w2]. cbn [snd fst].
  destruct (Date_now w2) as [now w3]. cbn [snd].
  destruct (executeBuy_spec w3 p sg) as [_ Hc].
  destruct (executeBuy w3 p sg) as [p1 w4]. cbn [fst] in Hc.
  destruct (updatePortfolio_spec w4 p1) as [_ [Hcash' _]].
  destruct (updatePortfolio w4 p1) as [p2 w5]. cbn [fst] in Hcash'.
  cbv beta iota zeta.
  eexists; eexists; eexists. split; [reflexivity|].
  cbn [status te_quantity te_price]. repeat split.
  rewrite Hcash', Hc. reflexivity.
Qed.

Lemma priceless_buy_skips_cash_check_witness :
  exists e p' w',
    executeTrade config1000 world0 freshPortfolio pricelessBuy
    = (Ok e, p', w')
    /\ status e = executed
    /\ te_quantity e = quantity pricelessBuy
    /\ te_price e = fst (priceOf (quoteWorld world0) pricelessBuy)
    /\ cash (portfolio p')
       = cash (portfolio freshPortfolio)
         - quantity pricelessBuy
           * fst (priceOf (bookingWorld world0 pricelessBuy) pricelessBuy).
Proof.
  apply (@priceless_buy_skips_cash_check config1000 world0 freshPortfolio
           pricelessBuy).
  - reflexivity.
  - reflexivity.
  - reflexivity.
  - discriminate.
  - discriminate.
Defined.

(** With the initial cash of 100,000, the buy of a million PEPE without
    a price is executed and leaves the cash at -99,900,000. *)
Example priceless_buy_overdraws :
  cash (portfolio (snd (fst (executeTrade config1000 world0 freshPortfolio
                                          pricelessBuy))))
  == -99900000.
Proof. vm_compute. reflexivity. Qed.

(** *** Selling *)

(** X21.  No short sale: a sale of a symbol that is not held, or of more
    than is held, is answered with a failed execution, and the portfolio
    is left as it was. *)
Theorem sale_needs_the_position cfg w p sg :
  isInitialized p = true ->
  action sg = sell ->
  match position_of (ts_symbol sg) (held p) with
  | Some pos => pos_quantity pos < quantity sg
  | None => True
  end ->
  exists e w',
    executeTrade cfg w p sg = (Ok e, p, w')
    /\ status e = failed
    /\ message e = "Trade validation failed: Insufficient position size".
Proof.
  intros Hinit Ha Hpos. unfold executeTrade.
  rewrite Hinit, Ha. simpl negb. cbv iota.
  assert (Hv : validateTrade cfg p sg = Some "Insufficient position size").
  { unfold validateTrade. rewrite Ha.
    destruct (position_of (ts_symbol sg) (held p)) as [pos|];
      [|reflexivity].
    apply ltb_spec in Hpos. rewrite Hpos. reflexivity. }
  rewrite Hv.
  destruct (generateTradeId w) as [tradeId w1].
  destruct (priceOf w1 sg) as [quoted w2].
  destruct (Date_now w2) as [now w3].
  eexists; eexists. split; [reflexivity|]. split; reflexivity.
Qed.

Lemma sale_needs_the_position_witness :
  exists e w',
    executeTrade config1000 world0 freshPortfolio pricelessSell
    = (Ok e, freshPortfolio, w')
    /\ status e = failed
    /\ message e = "Trade validation failed: Insufficient position size".
Proof.
  apply (@sale_needs_the_position config1000 world0 freshPortfolio
           pricelessSell).
  - reflexivity.
  - reflexivity.
  - exact I.
Defined.

(** *** The positions held *)

Lemma position_of_Some symbol l pos :
  position_of symbol l = Some pos -> In pos l /\ pos_symbol pos = symbol.
Proof.
  unfold position_of. intro H. apply find_some in H.
  destruct H as [Hin Hs]. apply String.eqb_eq in Hs. auto.
Qed.

Lemma position_of_None symbol l :
  position_of symbol l = None -> ~ In symbol (map pos_symbol l).
Proof.
  unfold position_of. intros H Hin. apply in_map_iff in Hin.
  destruct Hin as [x [Hx Hin]]. pose proof (find_none _ _ H x Hin) as Hn.
  simpl in Hn. rewrite Hx, String.eqb_refl in Hn. discriminate Hn.
Qed.

Lemma updatePosition_symbols f symbol l :
  (forall x, pos_symbol (f x) = pos_symbol x) ->
  map pos_symbol (updatePosition f symbol l) = map pos_symbol l.
Proof.
  intro Hf. unfold updatePosition. rewrite map_map. apply map_ext.
  intro x. destruct (String.eqb (pos_symbol x) symbol); auto.
Qed.

Lemma updatePosition_quantities f symbol l :
  Forall (fun x => 0 <= pos_quantity x) l ->
  (forall x, In x l -> pos_symbol x = symbol -> 0 <= pos_quantity (f x)) ->
  Forall (fun x => 0 <= pos_quantity x) (updatePosition f symbol l).
Proof.
  intros Hall Hf. unfold updatePosition. apply Forall_forall.
  intros y Hy. apply in_map_iff in Hy. destruct Hy as [x [<- Hx]].
  rewrite Forall_forall in Hall.
  destruct (String.eqb (pos_symbol x) symbol) eqn:E; [|auto].
  apply String.eqb_eq in E. auto.
Qed.

Lemma sound_updatePortfolio w p :
  soundHoldings p -> soundHoldings (fst (updatePortfolio w p)).
Proof.
  intros [Hnd Hall].
  destruct (updatePortfolio_spec w p) as [_ [_ [_ [Hs [Hq _]]]]].
  split; [rewrite Hs; exact Hnd|].
  apply (proj1 (Forall_map pos_quantity (fun q => 0 <= q) _)).
  rewrite Hq. apply Forall_map. exact Hall.
Qed.

Lemma sound_executeBuy w p sg :
  soundHoldings p -> 0 <= quantity sg ->
  soundHoldings (fst (executeBuy w p sg)).
Proof.
  intros [Hnd Hall] Hq. unfold executeBuy.
  destruct (priceOf w sg) as [quote w1].
  destruct (position_of (ts_symbol sg) (held p)) as [existing|] eqn:E.
  - destruct (position_of_Some _ _ E) as [Hin _].
    assert (He : 0 <= pos_quantity existing)
      by (rewrite Forall_forall in Hall; auto).
    split; cbn [fst held].
    + rewrite updatePosition_symbols; [exact Hnd|reflexivity].
    + apply updatePosition_quantities; [exact Hall|].
      intros x _ _. cbn [pos_quantity]. lra.
  - apply position_of_None in E.
    destruct (Date_now w1) as [now w2]. split; cbn [fst held].
    + rewrite map_app. cbn [map pos_symbol].
      apply NoDup_app; [exact Hnd|repeat constructor; simpl; tauto|].
      intros x Hx [<- | []]. contradiction.
    + apply Forall_app. split; [exact Hall|]. repeat constructor.
      exact Hq.
Qed.

Lemma sound_executeSell w p sg :
  soundHoldings p ->
  soundHoldings (snd (fst (executeSell w p sg))).
Proof.
  intros [Hnd Hall]. unfold executeSell.
  destruct (priceOf w sg) as [quote w1].
  destruct (position_of (ts_symbol sg) (held p)) as [position|] eqn:E;
    [|split; assumption].
  destruct (ltb (pos_quantity position) (quantity sg)) eqn:El;
    [split; assumption|].
  apply ltb_false in El.
  destruct (position_of_Some _ _ E) as [Hin Hsym].
  destruct (JS.eqb (pos_quantity position) (quantity sg)); split;
    cbn [snd fst held].
  - apply ListFacts.NoDup_map_filter. exact Hnd.
  - apply Forall_forall. intros x Hx. apply filter_In in Hx.
    rewrite Forall_forall in Hall. apply Hall. tauto.
  - rewrite updatePosition_symbols; [exact Hnd|reflexivity].
  - apply updatePosition_quantities; [exact Hall|].
    intros x Hx Hs. cbn [pos_quantity].
    assert (Hsame : x = position).
    { apply (@ListFacts.NoDup_map_inj _ _ pos_symbol (held p) Hnd);
        [exact Hx|exact Hin|congruence]. }
    subst x. lra.
Qed.

(** X22.  No trade leaves a negative holding: when the manager holds one
    position per symbol and none of a negative quantity, then so it does
    after [executeTrade] for a signal whose quantity is not negative,
    whether the trade is executed or fails. *)
Theorem holdings_stay_sound cfg w p sg :
  soundHoldings p ->
  0 <= quantity sg ->
  soundHoldings (snd (fst (executeTrade cfg w p sg))).
Proof.
  intros Hp Hq. unfold executeTrade.
  destruct (negb (isInitialized p)); [exact Hp|].
  destruct (generateTradeId w) as [tradeId w1].
  destruct (priceOf w1 sg) as [quoted w2].
  destruct (Date_now w2) as [now w3].
  destruct (action sg) eqn:Ea; [| |exact Hp].
  - destruct (validateTrade cfg p sg); [exact Hp|].
    pose proof (@sound_executeBuy w3 p sg Hp Hq) as Hb.
    destruct (executeBuy w3 p sg) as [p1 w4]. cbn [fst] in Hb.
    cbv beta iota zeta.
    pose proof (@sound_updatePortfolio w4 p1 Hb) as Hu.
    destruct (updatePortfolio w4 p1) as [p2 w5]. exact Hu.
  - destruct (validateTrade cfg p sg); [exact Hp|].
    pose proof (@sound_executeSell w3 p sg Hp) as Hs.
    destruct (executeSell w3 p sg) as [[res p1] w4]. cbn [fst snd] in Hs.
    destruct res as [u|msg]; [|exact Hs].
    pose proof (@sound_updatePortfolio w4 p1 Hs) as Hu.
    destruct (updatePortfolio w4 p1) as [p2 w5]. exact Hu.
Qed.

Lemma holdings_stay_sound_witness :
  soundHoldings (snd (fst (executeTrade config1000 world0 freshPortfolio
                                        smallBuy))).
Proof.
  apply (@holdings_stay_sound config1000 world0 freshPortfolio smallBuy).
  - split; constructor.
  - discriminate.
Defined.

(** *** Closing *)

(** X23.  After [closeAllPositions] nothing is held, and the state that
    [getCurrentState] then returns has no position, a current value
    equal to its cash and a total profit of 0. *)
Theorem closing_leaves_cash_only w p :
  isInitialized p = true ->
  exists p1 w1 pf p2 w2,
    closeAllPositions w p = (Ok tt, p1, w1)
    /\ held p1 = []
    /\ getCurrentState w1 p1 = (Ok pf, p2, w2)
    /\ positions pf = []
    /\ pf_currentValue pf = cash pf
    /\ totalPnL pf = 0
    /\ w2 = w1.
Proof.
  intro Hinit. unfold closeAllPositions. rewrite Hinit. simpl negb.
  cbv iota. destruct (closeEach w (held p) (cash (portfolio p))) as [c w1].
  exists {| isInitialized := isInitialized p;
            portfolio := with_cash c (portfolio p);
            held := [] |}, w1.
  unfold getCurrentState, updatePortfolio.
  cbn [isInitialized held reprice portfolio]. rewrite Hinit. simpl negb.
  cbv iota.
  eexists; eexists; eexists.
  split; [reflexivity|]. split; [reflexivity|].
  split; [reflexivity|]. repeat split.
Qed.

Lemma closing_leaves_cash_only_witness :
  exists p1 w1 pf p2 w2,
    closeAllPositions world0 afterSmallBuy = (Ok tt, p1, w1)
    /\ held p1 = []
    /\ getCurrentState w1 p1 = (Ok pf, p2, w2)
    /\ positions pf = []
    /\ pf_currentValue pf = cash pf
    /\ totalPnL pf = 0
    /\ w2 = w1.
Proof.
  apply (@closing_leaves_cash_only world0 afterSmallBuy).
  vm_compute. reflexivity.
Defined.

End PortfolioFacts.

(** ** MarketDataManager: the mock samples *)

Module MarketFacts.
Import MarketDataManager.

Lemma mockSample_spec spread w symbol :
  unitDraws w ->
  md_symbol (fst (mockSample spread w symbol)) = symbol
  /\ (exists v, volatility (indicators (fst (mockSample spread w symbol)))
                = Some v /\ 0 <= v /\ v < 1 # 10)
  /\ (exists m, macd (indicators (fst (mockSample spread w symbol)))
                = Some m)
  /\ (exists avg,
         movingAverage (indicators (fst (mockSample spread w symbol)))
         = Some avg
         /\ (0 < getBasePrice symbol -> 0 < avg))
  /\ md_price (fst (mockSample spread w symbol))
     = inject_Z (Math_round
                   ((getBasePrice symbol
                     + (random_value w (random_pos w) - (1 # 2))
                       * getBasePrice symbol * spread) * 100)) / 100
  /\ unitDraws (snd (mockSample spread w symbol)).
Proof.
  intro Hw. unfold mockSample, Math_random, Date_now.
  cbn [fst snd md_symbol md_price indicators volatility macd movingAverage
       rsi random_value random_pos clock clock_pos].
  split; [reflexivity|]. split.
  { eexists. split; [reflexivity|].
    destruct (Hw (S (S (S (S (S (random_pos w))))))) as [H0 H1]. lra. }
  split; [eexists; reflexivity|]. split.
  { eexists. split; [reflexivity|]. intro Hb.
    destruct (Hw (S (S (S (S (random_pos w)))))) as [H0 H1].
    set (r := random_value w (S (S (S (S (random_pos w)))))) in *.
    set (b := getBasePrice symbol) in *. nra. }
  split; [reflexivity|]. exact Hw.
Qed.

Lemma low_volatility_low_risk data historicalData v :
  volatility (indicators data) = Some v ->
  v <= 1 # 10 ->
  ma_riskLevel (TradingStrategy.analyzeSymbol data historicalData) = low.
Proof.
  intros Hv Hle. rewrite StrategyFacts.analyzeSymbol_riskLevel, Hv.
  assert (H6 : gtb v (6 # 10) = false) by (apply gtb_false; lra).
  assert (H1 : gtb v (1 # 10) = false) by (apply gtb_false; lra).
  rewrite H6, H1. reflexivity.
Qed.

Lemma generateMockData_spec symbols :
  forall w,
    unitDraws w ->
    map md_symbol (fst (generateMockData w symbols)) = symbols
    /\ (forall d historicalData,
          In d (fst (generateMockData w symbols)) ->
          ma_riskLevel (TradingStrategy.analyzeSymbol d historicalData)
          = low)
    /\ unitDraws (snd (generateMockData w symbols)).
Proof.
  induction symbols as [|symbol rest IH]; intros w Hw;
    cbn [generateMockData].
  - split; [reflexivity|]. split; [simpl; tauto|exact Hw].
  - destruct (mockSample_spec (2 # 100) symbol Hw)
      as [Hs [[v [Hv [Hv0 Hv1]]] [_ [_ [_ Hw1]]]]].
    destruct (mockSample (2 # 100) w symbol) as [sample w1].
    cbn [fst snd] in *.
    destruct (IH w1 Hw1) as [IHs [IHr IHw]].
    destruct (generateMockData w1 rest) as [samples w2].
    cbn [fst snd] in *. split; [simpl; rewrite Hs, IHs; reflexivity|].
    split; [|exact IHw].
    intros d historicalData [<- | Hd]; [|auto].
    apply (@low_volatility_low_risk _ _ v Hv). lra.
Qed.

(** X17.  The mock market is never of high risk: with random draws in
    [0, 1) an initialised manager returns one sample per configured
    symbol, in the order of the configuration, and the strategy
    classifies every one of them as of low risk, whatever the history. *)
Theorem mock_market_is_low_risk cfg m w :
  isInitialized m = true ->
  unitDraws w ->
  exists samples w',
    getCurrentData cfg m w = (Ok samples, w')
    /\ map md_symbol samples = getSymbols cfg
    /\ (forall d historicalData,
          In d samples ->
          ma_riskLevel (TradingStrategy.analyzeSymbol d historicalData)
          = low)
    /\ unitDraws w'.
Proof.
  intros Hinit Hw. unfold getCurrentData. rewrite Hinit. simpl negb.
  cbv iota.
  destruct (generateMockData_spec (getSymbols cfg) Hw) as [Hs [Hr Hw']].
  destruct (generateMockData w (getSymbols cfg)) as [samples w'].
  exists samples, w'. auto.
Qed.

Lemma mock_market_is_low_risk_witness :
  exists samples w',
    getCurrentData configMemes (initialize new) calm = (Ok samples, w')
    /\ map md_symbol samples = getSymbols configMemes
    /\ (forall d historicalData,
          In d samples ->
          ma_riskLevel (TradingStrategy.analyzeSymbol d historicalData)
          = low)
    /\ unitDraws w'.
Proof.
  apply (@mock_market_is_low_risk configMemes (initialize new) calm).
  - reflexivity.
  - intro n. simpl.
    destruct n as [|[|[|[|[|n]]]]]; split; try discriminate; reflexivity.
Defined.

(** *** Prices below half a cent *)

Lemma Math_round_zero x : 0 <= x -> x < 1 # 2 -> Math_round x = 0%Z.
Proof.
  intros H0 H1. unfold Math_round.
  pose proof (Qfloor_le (x + (1 # 2))) as Hle.
  pose proof (Qlt_floor (x + (1 # 2))) as Hlt.
  assert (Hhi : inject_Z (Qfloor (x + (1 # 2))) < inject_Z 1)
    by (change (inject_Z 1) with 1; lra).
  assert (Hlo : inject_Z (-1) < inject_Z (Qfloor (x + (1 # 2)))).
  { rewrite inject_Z_plus in Hlt. change (inject_Z 1) with 1 in Hlt.
    change (inject_Z (-1)) with (-1). lra. }
  rewrite <- Zlt_Qlt in Hhi, Hlo. lia.
Qed.

(** X18.  A token priced below half a cent is never bullish. The mock
    sample rounds the price to two decimals, which gives 0 for a base
    price below 0.0049, while the moving average stays positive; the
    price is then below the average, which is a bearish vote, and the
    two votes that are left cannot make the majority of two that a
    bullish trend needs. So the strategy never buys such a token. *)
Theorem sub_cent_token_is_never_bullish w symbol historicalData :
  unitDraws w ->
  0 < getBasePrice symbol ->
  getBasePrice symbol < 49 # 10000 ->
  md_price (fst (mockSample (2 # 100) w symbol)) == 0
  /\ trend (TradingStrategy.analyzeSymbol
              (fst (mockSample (2 # 100) w symbol)) historicalData)
     <> bullish.
Proof.
  intros Hw Hpos Hsmall.
  destruct (mockSample_spec (2 # 100) symbol Hw)
    as [_ [_ [_ [[avg [Havg Hap]] [Hprice _]]]]].
  specialize (Hap Hpos).
  set (d := fst (mockSample (2 # 100) w symbol)) in *.
  assert (Hzero : md_price d == 0).
  { rewrite Hprice. destruct (Hw (random_pos w)) as [H0 H1].
    set (r := random_value w (random_pos w)) in *.
    set (b := getBasePrice symbol) in *.
    rewrite Math_round_zero; [reflexivity| |]; nra. }
  split; [exact Hzero|].
  assert (Ht : trend (TradingStrategy.analyzeSymbol d historicalData)
               = TradingStrategy.determineTrend
                   d (TradingStrategy.analyzeTechnicalIndicators d))
    by reflexivity.
  rewrite Ht, StrategyFacts.technical_trend.
  assert (Hma : gtb (md_price d) avg = false)
    by (apply gtb_false; rewrite Hzero; lra).
  assert (Hvotes : (bullishVotes d <= bearishVotes d + 1)%Z).
  { unfold bullishVotes, bearishVotes. rewrite Havg, Hma.
    destruct (rsi (indicators d)) as [r|];
      [destruct (ltb r 30); [|destruct (gtb r 70)]|];
      (destruct (macd (indicators d)) as [m|]; [destruct (gtb m 0)|]);
      lia. }
  apply Z.ltb_ge in Hvotes. rewrite Hvotes.
  destruct (bullishVotes d + 1 <? bearishVotes d)%Z; discriminate.
Qed.

Lemma sub_cent_token_is_never_bullish_witness :
  md_price (fst (mockSample (2 # 100) calm "PEPE")) == 0
  /\ trend (TradingStrategy.analyzeSymbol
              (fst (mockSample (2 # 100) calm "PEPE")) [])
     <> bullish.
Proof.
  apply (@sub_cent_token_is_never_bullish calm "PEPE" []).
  - intro n. simpl.
    destruct n as [|[|[|[|[|n]]]]]; split; try discriminate; reflexivity.
  - reflexivity.
  - reflexivity.
Defined.

End MarketFacts.

(** ** The agent: fetching, scanning, trading *)

Module AgentCycleFacts.
Import PumpPandaAgent.

(** *** One fetch per chain *)

Lemma generateMockData_symbols symbols :
  forall w,
    map md_symbol (fst (MarketDataManager.generateMockData w symbols))
    = symbols.
Proof.
  induction symbols as [|symbol rest IH]; intro w;
    cbn [MarketDataManager.generateMockData]; [reflexivity|].
  destruct (MarketDataManager.mockSample (2 # 100) w symbol)
    as [sample w1] eqn:E.
  assert (Hs : md_symbol sample = symbol).
  { unfold MarketDataManager.mockSample, Math_random, Date_now in E.
    injection E as <- _. reflexivity. }
  specialize (IH w1).
  destruct (MarketDataManager.generateMockData w1 rest) as [samples w2].
  cbn [fst map] in *. rewrite Hs, IH. reflexivity.
Qed.

Lemma fetchAll_symbols cfg chains :
  forall acc s,
    MarketDataManager.isInitialized (marketData s) = true ->
    exists samples s',
      fetchAll cfg chains acc s = (Ok samples, s')
      /\ map md_symbol samples
         = map md_symbol acc ++ flat_map (fun _ => getSymbols cfg) chains.
Proof.
  induction chains as [|chain rest IH]; intros acc s Hinit;
    cbn [fetchAll flat_map].
  - exists acc, s. rewrite app_nil_r. split; reflexivity.
  - unfold getCurrentData, MarketDataManager.getCurrentData.
    rewrite Hinit. simpl negb. cbv iota.
    pose proof (generateMockData_symbols (getSymbols cfg) (world s)) as Hs.
    destruct (MarketDataManager.generateMockData (world s) (getSymbols cfg))
      as [chainData w1].
    cbn [fst] in Hs. cbn [liftResult ret].
    destruct (IH (acc ++ chainData) (set_world w1 s) Hinit)
      as [samples [s' [Hrun Hsym]]].
    exists samples, s'. split; [exact Hrun|].
    rewrite Hsym, map_app, Hs, app_assoc. reflexivity.
Qed.

(** X26.  A trading cycle fetches the whole market once per enabled
    chain: the samples it works on are the configured symbols in the
    order of the configuration, once for each enabled chain, so that
    with two chains every symbol is classified, and may be traded, twice
    in a cycle. *)
Theorem every_chain_fetches_every_symbol cfg s :
  MarketDataManager.isInitialized (marketData s) = true ->
  exists samples s',
    fetchAll cfg (getEnabledBlockchains cfg) [] s = (Ok samples, s')
    /\ map md_symbol samples
       = flat_map (fun _ => getSymbols cfg) (getEnabledBlockchains cfg).
Proof.
  intro Hinit.
  destruct (@fetchAll_symbols cfg (getEnabledBlockchains cfg) [] s Hinit)
    as [samples [s' [Hrun Hsym]]].
  exists samples, s'. auto.
Qed.

Lemma every_chain_fetches_every_symbol_witness :
  exists samples s',
    fetchAll configMemes (getEnabledBlockchains configMemes) [] readyAgent
    = (Ok samples, s')
    /\ map md_symbol samples
       = flat_map (fun _ => getSymbols configMemes)
                  (getEnabledBlockchains configMemes).
Proof.
  apply (@every_chain_fetches_every_symbol configMemes readyAgent).
  reflexivity.
Defined.

(** *** The meme-token scan *)

Section Scan.
Context {F : Type}.
Variable proj : t -> F.
Hypothesis proj_world : forall x s, proj (set_world x s) = proj s.
Hypothesis proj_memory : forall x s, proj (set_memory x s) = proj s.

Lemma executeMemeTokenTrade_keeps cfg :
  keeps proj (executeMemeTokenTrade cfg).
Proof.
  unfold executeMemeTokenTrade. apply AgentRiskFacts.keeps_try.
  apply AgentRiskFacts.keeps_bind;
    [apply AgentRiskFacts.keeps_assessRisk|].
  intro ra. apply AgentRiskFacts.keeps_when. intro s.
  unfold bind, generateSignals, TradingStrategy.generateSignals.
  destruct (negb (TradingStrategy.isInitialized (strategy s)));
    cbn; apply proj_world.
Qed.

Lemma scanForMemeTokens_keeps cfg : keeps proj (scanForMemeTokens cfg).
Proof.
  unfold scanForMemeTokens. apply AgentRiskFacts.keeps_forEach.
  intro chain. apply AgentRiskFacts.keeps_try.
  destruct (findTrendingTokens cfg) as [|token more];
    [apply AgentRiskFacts.keeps_ret|].
  unfold analyzeTrendingTokens. apply AgentRiskFacts.keeps_forEach.
  intro tk. apply AgentRiskFacts.keeps_try.
  apply AgentRiskFacts.keeps_bind;
    [apply AgentRiskFacts.keeps_getTokenData; exact proj_world|].
  intro sample.
  apply AgentRiskFacts.keeps_bind;
    [apply AgentRiskFacts.keeps_analyzeMarket; assumption|].
  intros [|first rest]; [apply AgentRiskFacts.keeps_ret|].
  apply AgentRiskFacts.keeps_when, executeMemeTokenTrade_keeps.
Qed.

End Scan.

(** X28.  The meme-token scan never trades. [executeMemeTokenTrade]
    hands the market sample to the risk manager and to the strategy
    where they expect classifications; no signal comes of it, so a scan
    makes no call of [executeTrade], stores no trade or cycle record and
    leaves the portfolio as it was, whatever the configuration of the
    hunt and whatever the samples look like. *)
Theorem meme_scan_never_trades cfg s :
  trace (snd (scanForMemeTokens cfg s)) = trace s
  /\ portfolio (snd (scanForMemeTokens cfg s)) = portfolio s
  /\ trace (snd (runCallback cfg Timers.MemeTokenHunting s)) = trace s
  /\ portfolio (snd (runCallback cfg Timers.MemeTokenHunting s))
     = portfolio s.
Proof.
  assert (Hcb : forall F (proj : t -> F),
             (forall x s0, proj (set_world x s0) = proj s0) ->
             (forall x s0, proj (set_memory x s0) = proj s0) ->
             (forall x s0, proj (set_timers x s0) = proj s0) ->
             (forall x s0, proj (set_tradingInterval x s0) = proj s0) ->
             keeps proj (runCallback cfg Timers.MemeTokenHunting)).
  { intros F proj Hw Hm Ht Hi. unfold runCallback.
    apply AgentRiskFacts.keeps_bind; [apply AgentRiskFacts.keeps_get|].
    intro s0. destruct (negb (isRunning s0)).
    - apply AgentRiskFacts.keeps_selfCancel; assumption.
    - apply AgentRiskFacts.keeps_try, scanForMemeTokens_keeps;
        assumption. }
  split; [apply scanForMemeTokens_keeps; reflexivity|].
  split; [apply scanForMemeTokens_keeps; reflexivity|].
  split; apply Hcb; reflexivity.
Qed.

(** *** Pause and resume *)

(** X29.  [resume] right after [pause], before a timer has fired, arms a
    trading-loop timer and clears none: the timers that ran the trading
    loop before are still armed, and one more is armed with the next
    handle; the agent is running again, so every one of them runs the
    trading cycle when it fires. *)
Theorem resume_adds_a_trading_timer cfg s :
  Timers.handlesOf Timers.TradingLoop
                   (timers (snd (resume cfg (snd (pause s)))))
  = Timers.handlesOf Timers.TradingLoop (timers s)
    ++ [Timers.nextHandle (timers s)]
  /\ isRunning (snd (resume cfg (snd (pause s)))) = true
  /\ fst (resume cfg (snd (pause s))) = Ok tt.
Proof.
  unfold pause, update, resume, startTradingLoop, startMemeTokenHunting.
  cbn [snd isRunning set_isRunning].
  destruct (negb (enabled (getMemeTokenHuntingConfig cfg)));
    unfold bind, setInterval, update, ret, Timers.setInterval,
      Timers.handlesOf;
    cbn [fst snd timers set_timers set_isRunning set_tradingInterval
         isRunning Timers.active Timers.nextHandle];
    rewrite ?filter_app, ?map_app; cbn [filter map Timers.callback
      Timers.Callback_eqb Timers.handle]; rewrite ?app_nil_r;
    repeat split.
Qed.

(** *** Shutdown *)

Ltac project :=
  cbn [fst snd negb tradingInterval performanceInterval isRunning memory
       portfolio world timers marketData strategy riskManager trace
       set_isRunning set_timers set_tradingInterval set_performanceInterval
       set_marketData set_portfolio set_world set_memory liftResult].

(** X30.  [shutdown] writes the memory to its file only after the
    positions have been closed: with an initialised portfolio manager
    the file holds the records of the memory afterwards; with a
    portfolio manager that is not initialised, [closeAllPositions]
    throws, the error is logged, and the file is left as it was. Either
    way the call returns normally, the agent is not running, and the
    records in memory are untouched. *)
Theorem shutdown_saves_after_closing s :
  fst (shutdown s) = Ok tt
  /\ isRunning (snd (shutdown s)) = false
  /\ RecallMemory.memory (memory (snd (shutdown s)))
     = RecallMemory.memory (memory s)
  /\ RecallMemory.disk (memory (snd (shutdown s)))
     = (if PortfolioManager.isInitialized (portfolio s)
        then Some (RecallMemory.memory (memory s))
        else RecallMemory.disk (memory s))
  /\ (if PortfolioManager.isInitialized (portfolio s)
      then PortfolioManager.held (portfolio (snd (shutdown s))) = []
      else portfolio (snd (shutdown s)) = portfolio s).
Proof.
  unfold shutdown, bind, update, try_, get, ret, clearInterval.
  project.
  destruct (tradingInterval s) as [h|]; unfold update; project;
    (destruct (performanceInterval s) as [h'|]; unfold update; project;
     match goal with
     | |- context [MarketDataManager.stopStreaming ?m ?tm] =>
         destruct (MarketDataManager.stopStreaming m tm) as [m1 tm1]
     end;
     project; unfold PortfolioManager.closeAllPositions;
     destruct (PortfolioManager.isInitialized (portfolio s)) eqn:Ep;
     project;
     try match goal with
         | |- context [PortfolioManager.closeEach ?w ?l ?c] =>
             destruct (PortfolioManager.closeEach w l c) as [c1 w1]
         end;
     project; unfold ret; project; cbn; repeat split).
Qed.

(** *** Trading a batch of signals *)

Lemma executeSell_isInitialized w p sg :
  PortfolioManager.isInitialized
    (snd (fst (PortfolioManager.executeSell w p sg)))
  = PortfolioManager.isInitialized p.
Proof.
  unfold PortfolioManager.executeSell.
  destruct (PortfolioManager.priceOf w sg) as [quote w1].
  destruct (PortfolioManager.position_of (ts_symbol sg)
                                         (PortfolioManager.held p))
    as [position|]; [|reflexivity].
  destruct (ltb (pos_quantity position) (quantity sg)); reflexivity.
Qed.

Lemma executeTrade_answers cfg w p sg :
  PortfolioManager.isInitialized p = true ->
  action sg <> hold ->
  exists e p' w',
    PortfolioManager.executeTrade cfg w p sg = (Ok e, p', w')
    /\ PortfolioManager.isInitialized p' = true
    /\ executionOf sg e.
Proof.
  intros Hinit Ha. unfold PortfolioManager.executeTrade.
  rewrite Hinit. simpl negb. cbv iota.
  destruct (PortfolioManager.generateTradeId w) as [tradeId w1].
  destruct (PortfolioManager.priceOf w1 sg) as [quoted w2].
  destruct (Date_now w2) as [now w3].
  destruct (action sg) eqn:Eact; [| |contradiction Ha; reflexivity].
  - destruct (PortfolioManager.validateTrade cfg p sg).
    + eexists; eexists; eexists. split; [reflexivity|].
      split; [exact Hinit|]. unfold executionOf. simpl. auto.
    + destruct (PortfolioFacts.executeBuy_spec w3 p sg) as [Hb _].
      destruct (PortfolioManager.executeBuy w3 p sg) as [p1 w4].
      cbn [fst] in Hb. cbv beta iota zeta.
      destruct (PortfolioFacts.updatePortfolio_spec w4 p1) as [Hu _].
      destruct (PortfolioManager.updatePortfolio w4 p1) as [p2 w5].
      cbn [fst] in Hu.
      eexists; eexists; eexists. split; [reflexivity|].
      split; [congruence|]. unfold executionOf. simpl. auto.
  - destruct (PortfolioManager.validateTrade cfg p sg).
    + eexists; eexists; eexists. split; [reflexivity|].
      split; [exact Hinit|]. unfold executionOf. simpl. auto.
    + pose proof (executeSell_isInitialized w3 p sg) as Hs.
      destruct (PortfolioManager.executeSell w3 p sg) as [[res p1] w4].
      cbn [fst snd] in Hs. destruct res as [u|msg].
      * destruct (PortfolioFacts.updatePortfolio_spec w4 p1) as [Hu _].
        destruct (PortfolioManager.updatePortfolio w4 p1) as [p2 w5].
        cbn [fst] in Hu.
        eexists; eexists; eexists. split; [reflexivity|].
        split; [congruence|]. unfold executionOf. simpl. auto.
      * eexists; eexists; eexists. split; [reflexivity|].
        split; [congruence|]. unfold executionOf. simpl. auto.
Qed.

Lemma trade_one cfg s sg :
  RiskManager.isInitialized (riskManager s) = true ->
  0 <= getMaxPositionSize cfg ->
  RiskManager.openPositions (riskManager s) < getMaxOpenPositions cfg ->
  PortfolioManager.isInitialized (portfolio s) = true ->
  tradable sg ->
  exists e s',
    try_ (bind (validateSignal cfg sg)
               (fun validation =>
                  when (RiskManager.isValid validation)
                       (bind (executeTrade cfg sg)
                             (fun execution =>
                                bind (recordTrade execution)
                                     (fun _ => ret tt))))) s
    = (Ok tt, s')
    /\ trace s' = trace s ++ [ExecuteTrade sg; RecordTrade e]
    /\ executionOf sg e
    /\ riskManager s' = riskManager s
    /\ PortfolioManager.isInitialized (portfolio s') = true.
Proof.
  intros Hrm Hsize Hopen Hp [Hprice Hact].
  destruct (@AgentRiskFacts.validate_priceless cfg (riskManager s) sg
              Hrm Hsize Hopen Hprice) as [v [Hv [Hvalid _]]].
  destruct (@executeTrade_answers cfg (world s) (portfolio s) sg Hp Hact)
    as [e [p' [w' [He [Hp' Hof]]]]].
  unfold try_, bind at 1, validateSignal. rewrite Hv. cbn [liftResult ret].
  rewrite Hvalid. cbn [when].
  unfold bind at 1, executeTrade, bind at 1, log, update.
  project. rewrite He. project. unfold ret at 1.
  unfold bind at 1, recordTrade, bind at 1, log, update. project.
  destruct (RecallMemory.recordTrade w' (memory s) (PTrade e))
    as [[rid m] w2].
  unfold ret. exists e. eexists. split; [reflexivity|]. project.
  rewrite <- app_assoc. split; [reflexivity|]. split; [exact Hof|].
  split; [reflexivity|exact Hp'].
Qed.

(** X27.  Every signal of a batch is traded and recorded. With an
    initialised risk manager that counts fewer open positions than the
    limit and an initialised portfolio manager, [executeTrades] calls
    [executeTrade] for each signal without a price, in the order of the
    batch, and hands the execution it gets back, executed or failed, to
    [recordTrade]; no signal is skipped by the validation. *)
Theorem every_signal_is_executed_and_recorded cfg s signals :
  RiskManager.isInitialized (riskManager s) = true ->
  0 <= getMaxPositionSize cfg ->
  RiskManager.openPositions (riskManager s) < getMaxOpenPositions cfg ->
  PortfolioManager.isInitialized (portfolio s) = true ->
  Forall tradable signals ->
  exists executions s',
    executeTrades cfg signals s = (Ok tt, s')
    /\ trace s' = trace s ++ tradesOf (combine signals executions)
    /\ Forall2 executionOf signals executions.
Proof.
  intros Hrm Hsize Hopen Hp Hall. revert s Hrm Hopen Hp.
  unfold executeTrades.
  induction Hall as [|sg rest Hsg Hrest IH]; intros s Hrm Hopen Hp.
  - exists [], s. cbn [forEach ret combine tradesOf flat_map].
    rewrite app_nil_r. repeat split. constructor.
  - destruct (@trade_one cfg s sg Hrm Hsize Hopen Hp Hsg)
      as [e [s1 [Hone [Htrace [Hof [Hsame Hp1]]]]]].
    destruct (IH s1) as [executions [s' [Hrun [Htrace' Hall']]]];
      [rewrite Hsame; exact Hrm|rewrite Hsame; exact Hopen|exact Hp1|].
    exists (e :: executions), s'. cbn [forEach]. unfold bind at 1.
    rewrite Hone. split; [exact Hrun|]. split; [|constructor; assumption].
    rewrite Htrace', Htrace. cbn [combine tradesOf flat_map fst snd].
    rewrite <- app_assoc. reflexivity.
Qed.

Lemma every_signal_is_executed_and_recorded_witness :
  exists executions s',
    executeTrades config1000 [smallBuy; pricelessSell] readyAgent
    = (Ok tt, s')
    /\ trace s'
       = trace readyAgent
         ++ tradesOf (combine [smallBuy; pricelessSell] executions)
    /\ Forall2 executionOf [smallBuy; pricelessSell] executions.
Proof.
  apply (@every_signal_is_executed_and_recorded
           config1000 readyAgent [smallBuy; pricelessSell]).
  - reflexivity.
  - discriminate.
  - reflexivity.
  - reflexivity.
  - repeat constructor; try reflexivity; discriminate.
Defined.

End AgentCycleFacts.

(** ** RecallMemory: one record per id *)

Module IdInvariantFacts.
Import RecallMemory.

Lemma load_NoDup records :
  forall m,
    NoDup (map id m) ->
    NoDup (map id (fold_left (fun m r => Map_set r m) records m)).
Proof.
  induction records as [|r rest IH]; intros m H; simpl; [exact H|].
  apply IH. apply RecallQueryFacts.Map_set_NoDup. exact H.
Qed.

Lemma recall_ids w st q : idsOf (snd (fst (recall w st q))) = idsOf st
                          \/ ~ NoDup (idsOf st).
Proof.
  destruct (isInitialized st) eqn:Hinit.
  - destruct (ListDec.NoDup_dec string_dec (idsOf st)) as [Hnd | Hno];
      [left|right; exact Hno].
    rewrite (RecallQueryFacts.recall_stages w st q Hinit).
    destruct (@RecallQueryFacts.cut_spec st q Hnd) as [Hcut1 Hcut2].
    destruct (@RecallQueryFacts.touch_all_store
                (firstn (limitOf q) (sortByRelevance (recordsOf st q)))
                w (memory st) Hcut1 Hcut2) as [H1 _].
    destruct (touch_all w (memory st)
                        (firstn (limitOf q)
                                (sortByRelevance (recordsOf st q))))
      as [[res m] w0].
    exact H1.
  - left. unfold recall. rewrite Hinit. reflexivity.
Qed.

(** X6.  The map holds one record per id, and stays so: when the ids of
    the stored records are distinct, they are distinct after
    [initialize], which loads the file record by record under the
    record's own id, after each of the four insertions, after a query,
    after a clean-up and after [save]. *)
Theorem stored_ids_stay_distinct st :
  NoDup (idsOf st) ->
  NoDup (idsOf (initialize st))
  /\ (forall w op, NoDup (idsOf (snd (fst (insert w st op)))))
  /\ (forall w q, NoDup (idsOf (snd (fst (recall w st q)))))
  /\ (forall tz cfg w, NoDup (idsOf (fst (cleanup tz cfg w st))))
  /\ NoDup (idsOf (save st)).
Proof.
  intro Hnd. split; [|split; [|split; [|split]]].
  - unfold idsOf, initialize, rebuildIndexes, loadMemoryFromDisk.
    destruct (disk st) as [records|]; cbn [memory]; [|exact Hnd].
    apply load_NoDup. exact Hnd.
  - intros w op.
    destruct (RecallQueryFacts.insert_record w st op) as [r [Hins _]].
    rewrite Hins. cbn [fst snd]. unfold idsOf.
    rewrite IdFacts.storeRecord_memory.
    apply RecallQueryFacts.Map_set_NoDup. exact Hnd.
  - intros w q. destruct (recall_ids w st q) as [-> | Hno];
      [exact Hnd|contradiction].
  - intros tz cfg w. unfold idsOf. rewrite CleanupFacts.cleanup_unfold.
    cbn [rebuildIndexes memory].
    apply ListFacts.NoDup_map_filter. exact Hnd.
  - exact Hnd.
Qed.

Lemma stored_ids_stay_distinct_witness :
  NoDup (idsOf (initialize restoredMemory))
  /\ (forall w op, NoDup (idsOf (snd (fst (insert w restoredMemory op)))))
  /\ (forall w q, NoDup (idsOf (snd (fst (recall w restoredMemory q)))))
  /\ (forall tz cfg w,
        NoDup (idsOf (fst (cleanup tz cfg w restoredMemory))))
  /\ NoDup (idsOf (save restoredMemory)).
Proof.
  apply (@stored_ids_stay_distinct restoredMemory).
  vm_compute. repeat constructor; simpl; intuition discriminate.
Defined.

End IdInvariantFacts.

(** ** The neutral trading cycle *)

Module NeutralCycleFacts.
Import PumpPandaAgent.







End NeutralCycleFacts.
